(** * vat-bot: a shallow embedding of [src/index.js]

    The bot turns bookkeeping shorthand ("+1000 eur з ПДВ") into
    accounting entries and keeps per-chat totals.  This file embeds the
    tokenizer ([quickLines]), the date helpers ([detectExplicitDate],
    [toISO]), the VAT arithmetic ([computeTriplet]), the entry builder
    ([enrichLineWithAI]), the aggregates ([totals], [vatTotalsMonth],
    [vatTotalsYear]) and the state effects of the webhook handler.

    Modelling conventions.
    - A JS string is the list of its UTF-16 code units ([jsstring]).
    - A JS Number is a binary64 value ([number]): [NaN], an infinity, or
      a finite value given by the rational it stands for.  Every
      arithmetic operation computes the exact rational result and rounds
      it to the nearest binary64 value, ties to the even mantissa
      ([roundToDouble]); a decimal literal and [parseFloat] round the
      decimal in the same way.  The sign of a zero is not kept: the
      program never divides by a zero and never prints one from here.
    - The calls that leave the process (the classifier request, the
      Telegram send, the clock) are inputs of the functions that use them. *)

From Stdlib Require Import ZArith QArith Qround Qabs Qpower Qreduction Lqa Lia List Bool String Ascii.
From Stdlib Require Import DecimalString.
From stdpp Require Import base option list gmap.
Import ListNotations.

Open Scope Z_scope.

(* ================================================================== *)
(** ** Strings *)

(** UTF-16 code units. *)
Definition jsstring := list Z.

(** Code units of a code point (surrogate pair above the BMP). *)
Definition code_units (cp : Z) : jsstring :=
  if cp <? 65536 then [cp]
  else [55296 + Z.shiftr (cp - 65536) 10; 56320 + Z.land (cp - 65536) 1023].

(** UTF-8 decoder: [pending] continuation bytes are still expected for the
    code point accumulated in [acc]. *)
Fixpoint utf8_decode (bs : list Z) (pending : nat) (acc : Z) : jsstring :=
  match bs with
  | [] => []
  | b :: bs' =>
      match pending with
      | O =>
          if b <? 128 then b :: utf8_decode bs' 0 0
          else if b <? 224 then utf8_decode bs' 1 (Z.land b 31)
          else if b <? 240 then utf8_decode bs' 2 (Z.land b 15)
          else utf8_decode bs' 3 (Z.land b 7)
      | S O => code_units (acc * 64 + Z.land b 63) ++ utf8_decode bs' 0 0
      | S p => utf8_decode bs' p (acc * 64 + Z.land b 63)
      end
  end.

(** A string literal of the source, written in UTF-8. *)
Definition js (s : string) : jsstring :=
  utf8_decode (List.map (fun a => Z.of_N (N_of_ascii a)) (list_ascii_of_string s)) 0 0.

Definition jsstring_eqb (a b : jsstring) : bool :=
  bool_decide (a = b).

(** [\s] of a JS regular expression, also the set [trim] removes:
    WhiteSpace and LineTerminator code units. *)
Definition isSpace (c : Z) : bool :=
  ((9 <=? c) && (c <=? 13)) || (c =? 32) || (c =? 160) || (c =? 5760)
  || ((8192 <=? c) && (c <=? 8202)) || (c =? 8232) || (c =? 8233)
  || (c =? 8239) || (c =? 8287) || (c =? 12288) || (c =? 65279).

(** [\d] *)
Definition isDigit (c : Z) : bool := (48 <=? c) && (c <=? 57).

(** [[a-zA-Z]] *)
Definition isAsciiLetter (c : Z) : bool :=
  ((97 <=? c) && (c <=? 122)) || ((65 <=? c) && (c <=? 90)).

(** [\w], the word characters that decide [\b]. *)
Definition isWord (c : Z) : bool :=
  isAsciiLetter c || isDigit c || (c =? 95).

(** [String.prototype.toUpperCase] on one code unit, as far as the program
    needs it: exact on ASCII and on the Cyrillic letters U+0430 to U+045F,
    and on U+1C80 and U+1C81, the only other code units whose capital is a
    letter of the cue patterns.  Every other code unit is left as it is,
    also the cased letters outside these ranges (U+0491, say), which JS
    maps.  The program uses it to compare a code unit of the text with a
    letter of the cue patterns, where this makes no difference, and on
    currencies, which are ASCII in every state the handler reaches. *)
Definition upperUnit (c : Z) : Z :=
  if (97 <=? c) && (c <=? 122) then c - 32
  else if (1072 <=? c) && (c <=? 1103) then c - 32
  else if (1104 <=? c) && (c <=? 1119) then c - 80
  else if c =? 7296 then 1042
  else if c =? 7297 then 1044
  else c.

Definition toUpperCase (s : jsstring) : jsstring := List.map upperUnit s.

(** Canonicalize of a regular expression with the [i] flag (no [u] flag):
    the upper-case form, compared as code units. *)
Definition canonEq (pat c : Z) : bool := upperUnit pat =? upperUnit c.

Fixpoint dropSpaces (s : jsstring) : jsstring :=
  match s with
  | c :: s' => if isSpace c then dropSpaces s' else s
  | [] => []
  end.

(** [s.trim()] *)
Definition trim (s : jsstring) : jsstring :=
  rev (dropSpaces (rev (dropSpaces s))).

(** [s.split("\n")], with the current piece in [cur] (reversed). *)
Fixpoint splitLines (s : jsstring) (cur : jsstring) : list jsstring :=
  match s with
  | [] => [rev cur]
  | c :: s' => if c =? 10 then rev cur :: splitLines s' [] else splitLines s' (c :: cur)
  end.

(** [s.startsWith(p)] *)
Fixpoint startsWith (p s : jsstring) : bool :=
  match p, s with
  | [], _ => true
  | a :: p', b :: s' => (a =? b) && startsWith p' s'
  | _ :: _, [] => false
  end.

(** Longest prefix of [s] whose code units satisfy [f], and what follows. *)
Fixpoint spanWhile (f : Z -> bool) (s : jsstring) : jsstring * jsstring :=
  match s with
  | c :: s' =>
      if f c then let '(a, b) := spanWhile f s' in (c :: a, b) else ([], s)
  | [] => ([], [])
  end.

(* ================================================================== *)
(** ** Numbers *)

Open Scope Q_scope.

(** A JS Number.  A finite one is given by its value; the values a
    computation produces lie on the binary64 grid, since every operation
    below ends in [roundToDouble]. *)
Inductive number :=
| NaN
| Inf (neg : bool)
| Fin (q : Q).

(** The binade of a positive rational: [2^k <= x < 2^(k+1)]. *)
Definition Qlog2 (x : Q) : Z :=
  let k := (Z.log2 (Qnum x) - Z.log2 (Zpos (Qden x)))%Z in
  if Qle_bool (2 ^ k) x then k else (k - 1)%Z.

(** The exponent of the last mantissa bit of binary64 at [x]: 53 bits in
    the normal range, and never below the subnormal step [2^-1074]. *)
Definition ulpExp (x : Q) : Z := Z.max (Qlog2 (Qabs x) - 52) (-1074).

(** The nearest integer, the even one of two that are equally near. *)
Definition roundTiesToEven (y : Q) : Z :=
  let f := Qfloor y in
  match Qcompare (y - inject_Z f) (1 # 2) with
  | Lt => f
  | Gt => (f + 1)%Z
  | Eq => if Z.even f then f else (f + 1)%Z
  end.

Definition Qnegative (x : Q) : bool := negb (Qle_bool 0 x).

(** IEEE 754 roundTiesToEven into binary64: the nearest multiple of the
    last mantissa bit, an infinity from [2^1024] on. *)
Definition roundToDouble (x : Q) : number :=
  if Qeq_bool x 0 then Fin 0
  else
    let e := ulpExp x in
    let v := inject_Z (roundTiesToEven (x / 2 ^ e)) * 2 ^ e in
    if Qle_bool (2 ^ 1024) (Qabs v) then Inf (Qnegative v) else Fin (Qred v).

(** [x + y] *)
Definition num_add (x y : number) : number :=
  match x, y with
  | NaN, _ | _, NaN => NaN
  | Inf a, Inf b => if Bool.eqb a b then Inf a else NaN
  | Inf a, Fin _ => Inf a
  | Fin _, Inf b => Inf b
  | Fin a, Fin b => roundToDouble (a + b)
  end.

(** [x - y] *)
Definition num_sub (x y : number) : number :=
  match x, y with
  | NaN, _ | _, NaN => NaN
  | Inf a, Inf b => if Bool.eqb a b then NaN else Inf a
  | Inf a, Fin _ => Inf a
  | Fin _, Inf b => Inf (negb b)
  | Fin a, Fin b => roundToDouble (a - b)
  end.

(** [x * y] *)
Definition num_mul (x y : number) : number :=
  match x, y with
  | NaN, _ | _, NaN => NaN
  | Inf a, Inf b => Inf (xorb a b)
  | Inf a, Fin q | Fin q, Inf a =>
      if Qeq_bool q 0 then NaN else Inf (xorb a (Qnegative q))
  | Fin a, Fin b => roundToDouble (a * b)
  end.

(** [x / y].  A zero divisor is taken as [+0]; the program divides by 100
    and by [1 + r] with [r > 0] only. *)
Definition num_div (x y : number) : number :=
  match x, y with
  | NaN, _ | _, NaN => NaN
  | Inf _, Inf _ => NaN
  | Inf a, Fin q => Inf (xorb a (Qnegative q))
  | Fin _, Inf _ => Fin 0
  | Fin a, Fin b =>
      if Qeq_bool b 0
      then (if Qeq_bool a 0 then NaN else Inf (Qnegative a))
      else roundToDouble (a / b)
  end.

(** [x <= y] *)
Definition num_le (x y : number) : bool :=
  match x, y with
  | NaN, _ | _, NaN => false
  | Inf a, Inf b => implb b a
  | Inf a, Fin _ => a
  | Fin _, Inf b => negb b
  | Fin a, Fin b => Qle_bool a b
  end.

(** The decimal [x.toFixed(2)] prints: [toFixed] takes the sign off, picks
    the integer [n] with [n / 100] nearest to the exact value of [|x|] (the
    larger one of two) and prints it with two decimals. *)
Definition decimal2 (x : Q) : Q :=
  let n := Qfloor (Qabs x * 100 + (1 # 2)) in
  match x ?= 0 with
  | Lt => (- n # 100)
  | _ => (n # 100)
  end.

(** [+x.toFixed(2)]: the unary plus reads the printed decimal back into
    the nearest Number.  From 1e21 on, and for [NaN] and the infinities,
    [toFixed] prints the number as [String] does, which reads back as the
    number itself. *)
Definition toFixed2 (x : number) : number :=
  match x with
  | Fin q =>
      if Qle_bool (inject_Z (10 ^ 21)) (Qabs q) then x else roundToDouble (decimal2 q)
  | _ => x
  end.

(** The values [computeTriplet] can receive as [amount]. *)
Inductive jsamount :=
| AUndefined
| ANull
| ANum (x : number).

(** [Number(amount) || 0] *)
Definition numberOrZero (a : jsamount) : number :=
  match a with
  | ANum NaN => Fin 0
  | ANum x => x
  | AUndefined | ANull => Fin 0
  end.

(** JS values as they come out of [JSON.parse], plus [undefined]. *)
#[warnings="-register-all"]
Inductive jsval :=
| JUndefined
| JNull
| JBool (b : bool)
| JNum (x : number)
| JStr (s : jsstring)
| JArr (items : list jsval)
| JObj (fields : list (jsstring * jsval)).

(** [v === "..."] against a string literal. *)
Definition strictEqStr (v : jsval) (lit : jsstring) : bool :=
  match v with
  | JStr s => jsstring_eqb s lit
  | _ => false
  end.

(** Truthiness, as [||] and [if] see it. *)
Definition truthy (v : jsval) : bool :=
  match v with
  | JUndefined | JNull => false
  | JBool b => b
  | JNum NaN => false
  | JNum (Inf _) => true
  | JNum (Fin q) => negb (Qeq_bool q 0)
  | JStr s => negb (jsstring_eqb s [])
  | JArr _ | JObj _ => true
  end.

(* ================================================================== *)
(** ** The VAT triplet *)

Module Triplet.
Record t := mk { net : number; vat : number; gross : number }.
End Triplet.

Definition computeTriplet (amount : jsamount) (amountType : jsval)
    (vatRate : number) (vatApplicable : bool) : Triplet.t :=
  let A := numberOrZero amount in
  let r := if vatApplicable then num_div vatRate (Fin 100) else Fin 0 in
  if num_le r (Fin 0) then Triplet.mk (toFixed2 A) (Fin 0) (toFixed2 A)
  else if strictEqStr amountType (js "net") then
    let vat := toFixed2 (num_mul A r) in
    Triplet.mk (toFixed2 A) vat (toFixed2 (num_add A vat))
  else
    let net := toFixed2 (num_div A (num_add (Fin 1) r)) in
    Triplet.mk net (toFixed2 (num_sub A net)) (toFixed2 A).

(* ================================================================== *)
(** ** Dates *)

Open Scope Z_scope.

(** [\b] between the code unit before the position and the rest. *)
Definition wordBoundary (prev : option Z) (s : jsstring) : bool :=
  xorb (match prev with Some c => isWord c | None => false end)
       (match s with c :: _ => isWord c | [] => false end).

(** [\d{n}]: the [n] digits and what follows them. *)
Fixpoint takeDigits (n : nat) (s : jsstring) : option (jsstring * jsstring) :=
  match n with
  | O => Some ([], s)
  | S n' =>
      match s with
      | c :: s' =>
          if isDigit c then
            match takeDigits n' s' with
            | Some (d, r) => Some (c :: d, r)
            | None => None
            end
          else None
      | [] => None
      end
  end.

(** [\b(\d{a})SEP(\d{b})SEP(\d{c})\b] tried at one position; the three
    groups on success. *)
Definition tripleAt (a b c : nat) (sep : Z) (prev : option Z) (s : jsstring)
    : option (jsstring * jsstring * jsstring) :=
  if wordBoundary prev s then
    match takeDigits a s with
    | Some (g1, c1 :: s1) =>
        if c1 =? sep then
          match takeDigits b s1 with
          | Some (g2, c2 :: s2) =>
              if c2 =? sep then
                match takeDigits c s2 with
                | Some (g3, s3) =>
                    if wordBoundary (last g3) s3 then Some (g1, g2, g3) else None
                | None => None
                end
              else None
          | _ => None
          end
        else None
    | _ => None
    end
  else None.

(** [text.match(re)] without the [g] flag: the leftmost position where the
    pattern matches. *)
Fixpoint matchFirst {A} (at_ : option Z -> jsstring -> option A)
    (prev : option Z) (s : jsstring) : option A :=
  match at_ prev s with
  | Some r => Some r
  | None =>
      match s with
      | c :: s' => matchFirst at_ (Some c) s'
      | [] => None
      end
  end.

Definition dash : Z := 45.
Definition dot : Z := 46.
Definition comma : Z := 44.

(** [/\b(\d{4})-(\d{2})-(\d{2})\b/] *)
Definition matchISO (text : jsstring) := matchFirst (tripleAt 4 2 2 dash) None text.

(** [/\b(\d{2})\.(\d{2})\.(\d{4})\b/] *)
Definition matchDotted (text : jsstring) := matchFirst (tripleAt 2 2 4 dot) None text.

Definition detectExplicitDate (text : jsstring) : option jsstring :=
  match text with
  | [] => None
  | _ =>
      match matchISO text with
      | Some (y, m, d) => Some (y ++ dash :: m ++ dash :: d)
      | None =>
          match matchDotted text with
          | Some (d, m, y) => Some (y ++ dash :: m ++ dash :: d)
          | None => None
          end
      end
  end.

(** [/^\d{4}-\d{2}-\d{2}$/.test(s)] *)
Definition isoShape (s : jsstring) : bool :=
  match takeDigits 4 s with
  | Some (_, c1 :: s1) =>
      (c1 =? dash) &&
      match takeDigits 2 s1 with
      | Some (_, c2 :: s2) =>
          (c2 =? dash) &&
          match takeDigits 2 s2 with
          | Some (_, []) => true
          | _ => false
          end
      | _ => false
      end
  | _ => false
  end.

(** [toISO(dateLike)]; [today] is [new Date().toISOString().slice(0, 10)]
    and [None] is a call without argument. *)
Definition toISO (today : jsstring) (dateLike : option jsstring) : jsstring :=
  match dateLike with
  | Some s => if isoShape s then s else today
  | None => today
  end.

Definition monthOf (dateStr : jsstring) : jsstring := take 7 dateStr.
Definition yearOf (dateStr : jsstring) : jsstring := take 4 dateStr.

(* ================================================================== *)
(** ** Line tokenizer *)

Inductive txType := income | expense.

Module Line.
Record t := mk {
  type : txType;
  amount : Q;                   (* the value of the Number; [isFinite] has passed *)
  currency : option jsstring;   (* [null] when the line names none *)
  rest : jsstring;
  raw : jsstring
}.
End Line.

(** [[\d\s.,]] *)
Definition isAmountChar (c : Z) : bool :=
  isDigit c || isSpace c || (c =? dot) || (c =? comma).

Definition isSign (c : Z) : bool := (c =? 43) || (c =? 45).

(** The optional group [([a-zA-Z]{3})?] at the start of [s]: the group and
    what follows the match. *)
Definition optCurrency (s : jsstring) : option jsstring * jsstring :=
  match s with
  | a :: b :: c :: s' =>
      if isAsciiLetter a && isAsciiLetter b && isAsciiLetter c
      then (Some [a; b; c], s')
      else (None, s)
  | _ => (None, s)
  end.

(** [line.match(/^([+-])\s*([\d\s.,]+)\s*([a-zA-Z]{3})?/)]: groups 1 to 3
    and the part of the line after the match.  The first [\s*] is greedy;
    when no amount character follows the blanks, it gives its last blank
    back to group 2.  Group 2 takes blanks too, so the second [\s*] is
    always empty. *)
Definition matchLine (line : jsstring)
    : option (Z * jsstring * option jsstring * jsstring) :=
  match line with
  | c :: s =>
      if isSign c then
        let '(ws, t) := spanWhile isSpace s in
        let '(run, u) := spanWhile isAmountChar t in
        match run with
        | _ :: _ => let '(cur, after) := optCurrency u in Some (c, run, cur, after)
        | [] =>
            match last ws with
            | Some w => let '(cur, after) := optCurrency u in Some (c, [w], cur, after)
            | None => None
            end
        end
      else None
  | [] => None
  end.

(** [s.replace(/\s+/g, "")] *)
Definition stripSpaces (s : jsstring) : jsstring :=
  List.filter (fun c => negb (isSpace c)) s.

(** [s.replace(",", ".")]: the first comma only. *)
Fixpoint replaceFirstComma (s : jsstring) : jsstring :=
  match s with
  | c :: s' => if c =? comma then dot :: s' else c :: replaceFirstComma s'
  | [] => []
  end.

Definition digitsValue (ds : jsstring) : Z :=
  fold_left (fun acc c => acc * 10 + (c - 48)) ds 0.

(** The number a decimal numeral stands for: the digits [ip] before the
    point and the digits [fp] after it. *)
Definition decimalValue (ip fp : jsstring) : Q :=
  (inject_Z (digitsValue ip)
   + inject_Z (digitsValue fp) / inject_Z (10 ^ Z.of_nat (length fp)))%Q.

(** [parseFloat(s)] for a string without sign, exponent or blanks: the
    longest prefix [digits], [digits.digits], [digits.] or [.digits], read
    into the nearest Number ([Infinity] when it is too large). *)
Definition parseFloat (s : jsstring) : number :=
  let '(ip, s1) := spanWhile isDigit s in
  let fp :=
    match s1 with
    | c :: s2 => if c =? dot then fst (spanWhile isDigit s2) else []
    | [] => []
    end in
  match ip, fp with
  | [], [] => NaN
  | _, _ => roundToDouble (decimalValue ip fp)
  end.

(** The arrow function [quickLines] maps over the trimmed lines; [None] is
    its [null]. *)
Definition quickLine (line : jsstring) : option Line.t :=
  match matchLine line with
  | None => None
  | Some (sign, m2, m3, after) =>
      let type := if sign =? 43 then income else expense in
      match parseFloat (replaceFirstComma (stripSpaces m2)) with
      | Fin amount =>
          let currency := option_map toUpperCase m3 in
          Some (Line.mk type amount currency (trim after) line)
      | _ => None
      end
  end.

Definition nonEmpty (s : jsstring) : bool :=
  match s with [] => false | _ => true end.

Definition quickLines (text : jsstring) : list Line.t :=
  omap quickLine (List.filter nonEmpty (List.map trim (splitLines text []))).

(* ================================================================== *)
(** ** Entry builder *)

Module Settings.
Record t := mk {
  currency : jsstring;
  vatRate : Q                   (* the value of the Number, 20 in [getState] *)
}.
End Settings.

Module Entry.
Record t := mk {
  type : txType;
  category : jsval;
  description : jsval;
  date : jsstring;
  currency : jsstring;
  net : number;
  vat : number;
  gross : number;
  vat_collected : number;
  vat_deductible : number
}.
End Entry.

(** How the classifier request of one line ends. *)
Inductive aiOutcome :=
| CallFailed                (* [axios.post] rejects: network error, error status, 20 s timeout *)
| Unparseable               (* reading the content or [JSON.parse] throws *)
| Parsed (data : jsval).    (* the value [JSON.parse] returns *)

(** What a call that can throw returns. *)
Inductive result (A : Type) :=
| Ok (a : A)
| Throws.
Arguments Ok {A} a.
Arguments Throws {A}.

(** Case-insensitive literal letters at the start of [s]; what follows. *)
Fixpoint matchCI (pat s : jsstring) : option jsstring :=
  match pat with
  | [] => Some s
  | p :: pat' =>
      match s with
      | c :: s' => if canonEq p c then matchCI pat' s' else None
      | [] => None
      end
  end.

(** [/PRE\s*POST/i] tried at the start of [s]. *)
Definition phraseAt (pre post s : jsstring) : bool :=
  match matchCI pre s with
  | Some s1 =>
      match matchCI post (dropSpaces s1) with
      | Some _ => true
      | None => false
      end
  | None => false
  end.

(** [re.test(s)]: the pattern matches at some position. *)
Fixpoint testAnywhere (at_ : jsstring -> bool) (s : jsstring) : bool :=
  at_ s ||
  match s with
  | _ :: s' => testAnywhere at_ s'
  | [] => false
  end.

(** [/з\s*пд[вв]/i.test(s)] *)
Definition saysWithVAT (s : jsstring) : bool :=
  testAnywhere (phraseAt (js "з") (js "пдв")) s.

(** [/без\s*пд[вв]/i.test(s)] *)
Definition saysWithoutVAT (s : jsstring) : bool :=
  testAnywhere (phraseAt (js "без") (js "пдв")) s.

Fixpoint lookupField (k : jsstring) (fields : list (jsstring * jsval)) : jsval :=
  match fields with
  | (k', v) :: fields' => if jsstring_eqb k k' then v else lookupField k fields'
  | [] => JUndefined
  end.

(** [data.k]: a property read throws on [null] and [undefined], and finds
    none of the classifier's fields on a primitive or an array. *)
Definition getField (data : jsval) (k : jsstring) : result jsval :=
  match data with
  | JNull | JUndefined => Throws
  | JObj fields => Ok (lookupField k fields)
  | _ => Ok JUndefined
  end.

(** [a || b] *)
Definition orElse (a b : jsval) : jsval := if truthy a then a else b.

(** Lines 131 to 150 of [enrichLineWithAI]: the amount type and the VAT flag
    after the classifier's answer, the cues in the text and the defaults by
    type. *)
Definition resolveVAT (type : txType) (saidWithVAT saidWithoutVAT : bool)
    (dataAmountType dataVatApplicable : jsval) : jsval * bool :=
  let amount_type := orElse dataAmountType (JStr (js "unknown")) in
  let vat_applicable :=
    match dataVatApplicable with
    | JBool b => Some b
    | _ => None
    end in
  let '(vat_applicable, amount_type) :=
    if saidWithVAT then (Some true, JStr (js "gross")) else (vat_applicable, amount_type) in
  let '(vat_applicable, amount_type) :=
    if saidWithoutVAT then (Some false, JStr (js "net")) else (vat_applicable, amount_type) in
  match type with
  | income =>
      let vat_applicable := default true vat_applicable in
      let amount_type :=
        if strictEqStr amount_type (js "unknown") then JStr (js "gross") else amount_type in
      (amount_type, vat_applicable)
  | expense =>
      let vat_applicable := default true vat_applicable in
      let amount_type :=
        if strictEqStr amount_type (js "unknown")
        then (if vat_applicable then JStr (js "gross") else JStr (js "net"))
        else amount_type in
      (amount_type, vat_applicable)
  end.

(** [enrichLineWithAI(line, defaults)], given how the request ends and the
    date [new Date()] shows. *)
Definition enrichLineWithAI (today : jsstring) (outcome : aiOutcome)
    (line : Line.t) (defaults : Settings.t) : result Entry.t :=
  let text := Line.raw line ++ js " " ++ Line.rest line in
  let saidWithVAT := saysWithVAT text in
  let saidWithoutVAT := saysWithoutVAT text in
  match outcome with
  | CallFailed => Throws
  | _ =>
      let data := match outcome with Parsed d => d | _ => JObj [] end in
      match getField data (js "amount_type"), getField data (js "vat_applicable"),
            getField data (js "category"), getField data (js "description") with
      | Ok dAmountType, Ok dVatApplicable, Ok dCategory, Ok dDescription =>
          let '(amount_type, vat_applicable) :=
            resolveVAT (Line.type line) saidWithVAT saidWithoutVAT
                       dAmountType dVatApplicable in
          let vat_rate :=
            if vat_applicable then Fin (Settings.vatRate defaults) else Fin 0 in
          let category := orElse dCategory (JStr (js "other")) in
          let description :=
            orElse (orElse dDescription (JStr (Line.rest line))) (JStr []) in
          let explicit :=
            match detectExplicitDate (Line.raw line) with
            | Some d => Some d
            | None => detectExplicitDate (Line.rest line)
            end in
          let date := toISO today explicit in
          let currency :=
            toUpperCase
              match Line.currency line with
              | Some (c :: cs) => c :: cs
              | _ => Settings.currency defaults
              end in
          let t := computeTriplet (ANum (Fin (Line.amount line))) amount_type
                                  vat_rate vat_applicable in
          let type := Line.type line in
          let vat_collected :=
            match type with income => Triplet.vat t | expense => Fin 0 end in
          let vat_deductible :=
            match type with
            | expense => if vat_applicable then Triplet.vat t else Fin 0
            | income => Fin 0
            end in
          Ok (Entry.mk type category description date currency
                       (Triplet.net t) (Triplet.vat t) (Triplet.gross t)
                       vat_collected vat_deductible)
      | _, _, _, _ => Throws
      end
  end.

(* ================================================================== *)
(** ** Aggregates *)

Module Totals.
Record t := mk {
  incGross : number;
  expGross : number;
  incVAT : number;
  expVAT : number;
  profitGross : number;
  vatDue : number;
  netAfterVAT : number
}.
End Totals.

Open Scope Q_scope.

(** The four running sums of [totals], after one more entry. *)
Definition addEntry (acc : number * number * number * number) (e : Entry.t)
    : number * number * number * number :=
  let '(incGross, expGross, incVAT, expVAT) := acc in
  match Entry.type e with
  | income =>
      (num_add incGross (Entry.gross e), expGross,
       num_add incVAT (Entry.vat_collected e), expVAT)
  | expense =>
      (incGross, num_add expGross (Entry.gross e),
       incVAT, num_add expVAT (Entry.vat_deductible e))
  end.

Definition totals (entries : list Entry.t) : Totals.t :=
  let '(incGross, expGross, incVAT, expVAT) :=
    fold_left addEntry entries (Fin 0, Fin 0, Fin 0, Fin 0) in
  let profitGross := toFixed2 (num_sub incGross expGross) in
  let vatDue := toFixed2 (num_sub incVAT expVAT) in
  let netAfterVAT := toFixed2 (num_sub profitGross vatDue) in
  Totals.mk incGross expGross incVAT expVAT profitGross vatDue netAfterVAT.

Definition vatTotalsMonth (entries : list Entry.t) (yyyymm : jsstring) : Totals.t :=
  totals (List.filter (fun e => jsstring_eqb (monthOf (Entry.date e)) yyyymm) entries).

Definition vatTotalsYear (entries : list Entry.t) (yyyy : jsstring) : Totals.t :=
  totals (List.filter (fun e => jsstring_eqb (yearOf (Entry.date e)) yyyy) entries).

(* ================================================================== *)
(** ** Session store and webhook handler *)

Open Scope Z_scope.

Module State.
Record t := mk { entries : list Entry.t; settings : Settings.t }.
End State.

(** [store]: chat id to state. *)
Abbreviation Store := (gmap Z State.t).

Definition freshState : State.t :=
  State.mk [] (Settings.mk (js "EUR") 20%Q).

(** [getState(chatId)]: the state of the chat and the store, where the chat
    has an entry from now on. *)
Definition getState (chatId : Z) (store : Store) : State.t * Store :=
  match store !! chatId with
  | Some st => (st, store)
  | None => (freshState, <[chatId := freshState]> store)
  end.

(** What the handler reads from outside while it serves one update: the
    end of the classifier request of the i-th line, the UTC date
    [toISO] sees while it builds the i-th entry, and the local year and
    month ([getMonth], from 0) of the handler's [new Date()]. *)
Record Env := {
  classifier : nat -> aiOutcome;
  utcDate : nat -> jsstring;
  nowYear : Z;
  nowMonth : Z
}.

(** [String(n)] for an integer. *)
Definition numberToString (n : Z) : jsstring :=
  List.map (fun a => Z.of_N (N_of_ascii a))
           (list_ascii_of_string (NilZero.string_of_int (Z.to_int n))).

(** [s.padStart(2, "0")] *)
Definition padStart2 (s : jsstring) : jsstring :=
  match s with
  | [] => [48; 48]
  | [c] => [48; c]
  | _ => s
  end.

Definition currentYear (env : Env) : jsstring := numberToString (nowYear env).

Definition currentMonth (env : Env) : jsstring :=
  numberToString (nowYear env) ++ dash :: padStart2 (numberToString (nowMonth env + 1)).

(** The group of [/^\/vatmonth(?:\s+(\d{4}-\d{2}))?$/i] on a text that
    starts with the command. *)
Definition vatmonthArg (text : jsstring) : option jsstring :=
  let '(ws, t) := spanWhile isSpace (drop 9 text) in
  match ws with
  | [] => None
  | _ =>
      match takeDigits 4 t with
      | Some (y, c :: t1) =>
          if c =? dash then
            match takeDigits 2 t1 with
            | Some (m, []) => Some (y ++ dash :: m)
            | _ => None
            end
          else None
      | _ => None
      end
  end.

(** The group of [/^\/vatyear(?:\s+(\d{4}))?$/i]. *)
Definition vatyearArg (text : jsstring) : option jsstring :=
  let '(ws, t) := spanWhile isSpace (drop 8 text) in
  match ws with
  | [] => None
  | _ =>
      match takeDigits 4 t with
      | Some (y, []) => Some y
      | _ => None
      end
  end.

(** The message the handler hands to [tg("sendMessage", ...)]. *)
Inductive Reply :=
| Welcome
| ResetDone
| Balance (yyyymm yyyy : jsstring) (M Y : Totals.t)
| VatMonth (yyyymm : jsstring) (vatDue : number)
| VatYear (yyyy : jsstring) (vatDue : number)
| FormatHint
| Added (added : list Entry.t) (yyyymm yyyy : jsstring) (M Y : Totals.t).

Module Message.
Record t := mk { chatId : Z; text : option jsstring }.
End Message.

(** The [for] loop over the lines: each entry is pushed as soon as it is
    built; a throw leaves the loop with the entries pushed so far. *)
Fixpoint addLines (env : Env) (defaults : Settings.t) (i : nat) (lines : list Line.t)
    (entries added : list Entry.t) : list Entry.t * result (list Entry.t) :=
  match lines with
  | [] => (entries, Ok added)
  | line :: lines' =>
      match enrichLineWithAI (utcDate env i) (classifier env i) line defaults with
      | Ok entry => addLines env defaults (S i) lines' (entries ++ [entry]) (added ++ [entry])
      | Throws => (entries, Throws)
      end
  end.

Definition isCommand (text : jsstring) : bool :=
  jsstring_eqb text (js "/start") || jsstring_eqb text (js "/reset")
  || startsWith (js "/balance") text || startsWith (js "/vatmonth") text
  || startsWith (js "/vatyear") text.

(** The handler of [POST /webhook]: the store afterwards and the message it
    sends, [None] when it sends none (no message in the update, or a throw
    caught by the handler's [catch]).  The HTTP status is 200 on every path. *)
Definition webhook (env : Env) (store : Store) (update : option Message.t)
    : Store * option Reply :=
  match update with
  | None => (store, None)
  | Some msg =>
      let chatId := Message.chatId msg in
      let text := trim (default [] (Message.text msg)) in
      let '(state, store) := getState chatId store in
      if jsstring_eqb text (js "/start") then (store, Some Welcome)
      else if jsstring_eqb text (js "/reset") then
        (<[chatId := State.mk [] (State.settings state)]> store, Some ResetDone)
      else if startsWith (js "/balance") text then
        let yyyymm := currentMonth env in
        let yyyy := currentYear env in
        (store, Some (Balance yyyymm yyyy
                         (vatTotalsMonth (State.entries state) yyyymm)
                         (vatTotalsYear (State.entries state) yyyy)))
      else if startsWith (js "/vatmonth") text then
        let yyyymm := default (currentMonth env) (vatmonthArg text) in
        (store, Some (VatMonth yyyymm
                         (Totals.vatDue (vatTotalsMonth (State.entries state) yyyymm))))
      else if startsWith (js "/vatyear") text then
        let yyyy := default (currentYear env) (vatyearArg text) in
        (store, Some (VatYear yyyy
                         (Totals.vatDue (vatTotalsYear (State.entries state) yyyy))))
      else
        match quickLines text with
        | [] => (store, Some FormatHint)
        | lines =>
            let '(entries, outcome) :=
              addLines env (State.settings state) 0 lines (State.entries state) [] in
            let store := <[chatId := State.mk entries (State.settings state)]> store in
            match outcome with
            | Throws => (store, None)
            | Ok added =>
                let yyyymm := currentMonth env in
                let yyyy := currentYear env in
                (store, Some (Added added yyyymm yyyy
                                 (vatTotalsMonth entries yyyymm)
                                 (vatTotalsYear entries yyyy)))
            end
        end
  end.

(* ================================================================== *)
(** ** Vocabulary of the specification *)

Open Scope Q_scope.

(** [y] is a whole number of hundredths. *)
Definition wholeCents (y : Q) : Prop := exists n : Z, y == n # 100.

(** [y] is the decimal with two places nearest to [x], a half going away
    from zero: [y] is a whole number of hundredths at distance at most half
    a hundredth from [x], and at that distance exactly only when it is the
    one farther from zero. *)
Definition nearestCents (x y : Q) : Prop :=
  wholeCents y /\
  Qabs (y - x) <= 1 # 200 /\
  (Qabs (y - x) == 1 # 200 -> Qabs x < Qabs y).

(** [y] is [x] rounded to two decimals, a half going away from zero, as a
    Number: the Number nearest to that decimal.  A Number from 1e21 on is
    an integer and stays as it is, like [NaN] and the infinities. *)
Definition roundedHalfAway2 (x y : number) : Prop :=
  match x with
  | Fin q =>
      if Qle_bool (inject_Z (10 ^ 21)) (Qabs q) then y = x
      else exists d, nearestCents q d /\ y = roundToDouble d
  | _ => y = x
  end.

(** The case analysis of the Amount Triplet Calculator, in the words of the
    specification, with the arithmetic of JS Numbers and with the gross
    amount of the net case taken from the amount. *)
Definition tripletSpec (amount : jsamount) (amountType : jsval) (vatRate : number)
    (vatApplicable : bool) (t : Triplet.t) : Prop :=
  let amt :=
    match amount with
    | ANum (Fin q) => Fin q
    | ANum (Inf neg) => Inf neg
    | _ => Fin 0
    end in
  let rate := num_div vatRate (Fin 100) in
  if negb vatApplicable || num_le rate (Fin 0) then
    roundedHalfAway2 amt (Triplet.net t) /\
    roundedHalfAway2 amt (Triplet.gross t) /\
    Triplet.vat t = Fin 0
  else if strictEqStr amountType (js "net") then
    roundedHalfAway2 amt (Triplet.net t) /\
    roundedHalfAway2 (num_mul amt rate) (Triplet.vat t) /\
    roundedHalfAway2 (num_add amt (Triplet.vat t)) (Triplet.gross t)
  else
    roundedHalfAway2 (num_div amt (num_add (Fin 1) rate)) (Triplet.net t) /\
    roundedHalfAway2 (num_sub amt (Triplet.net t)) (Triplet.vat t) /\
    roundedHalfAway2 amt (Triplet.gross t).

(** The value of a finite Number, 0 for the others. *)
Definition valueOf (x : number) : Q :=
  match x with
  | Fin q => q
  | _ => 0
  end.

(** [x] is the Number of a decimal amount with two places, of magnitude
    at most [B]. *)
Definition centAmount (B : Q) (x : number) : Prop :=
  exists n : Z, x = roundToDouble (n # 100) /\ - B <= n # 100 /\ n # 100 <= B.
Open Scope Z_scope.

Definition isLeapYear (y : Z) : bool :=
  ((y mod 4 =? 0) && negb (y mod 100 =? 0)) || (y mod 400 =? 0).

Definition daysInMonth (y m : Z) : Z :=
  if m =? 2 then (if isLeapYear y then 29 else 28)
  else if (m =? 4) || (m =? 6) || (m =? 9) || (m =? 11) then 30
  else 31.

(** A date string [YYYY-MM-DD] that names a day of the calendar. *)
Definition validCalendarDate (s : jsstring) : bool :=
  isoShape s &&
  (let y := digitsValue (take 4 s) in
   let m := digitsValue (take 2 (drop 5 s)) in
   let d := digitsValue (take 2 (drop 8 s)) in
   (1 <=? m) && (m <=? 12) && (1 <=? d) && (d <=? daysInMonth y m)).

(** The line pattern of the tokenizer, as a grammar: a sign, then, blanks
    apart, a digit or a decimal separator and a digit. *)
Inductive signedAmount : jsstring -> Prop :=
| sa_digit sign ws d tl :
    isSign sign = true -> forallb isSpace ws = true -> isDigit d = true ->
    signedAmount (sign :: ws ++ d :: tl)
| sa_separator sign ws sep ws' d tl :
    isSign sign = true -> forallb isSpace ws = true ->
    sep = dot \/ sep = comma ->
    forallb isSpace ws' = true -> isDigit d = true ->
    signedAmount (sign :: ws ++ sep :: ws' ++ d :: tl).

(** Two strings that differ in letter case only. *)
Definition sameIgnoringCase (a b : jsstring) : Prop :=
  Forall2 (fun x y => upperUnit x = upperUnit y) a b.

(** [s] contains [phrase], whatever the letter case. *)
Definition containsIgnoringCase (phrase s : jsstring) : Prop :=
  exists pre w post, s = pre ++ w ++ post /\ sameIgnoringCase phrase w.

Definition twelveMonths : list jsstring :=
  [js "01"; js "02"; js "03"; js "04"; js "05"; js "06";
   js "07"; js "08"; js "09"; js "10"; js "11"; js "12"].

(** The keys [YYYY-MM] of the twelve months of a year. *)
Definition monthKeys (yyyy : jsstring) : list jsstring :=
  List.map (fun mm => yyyy ++ dash :: mm) twelveMonths.

(** An entry the entry builder returns, for the settings [defaults]. *)
Definition builtWith (defaults : Settings.t) (e : Entry.t) : Prop :=
  exists today outcome line, enrichLineWithAI today outcome line defaults = Ok e.

(** The stores the handler can be in: empty at start, then one update after
    the other. *)
Inductive reachable : Store -> Prop :=
| reach_start : reachable ∅
| reach_update env store update :
    reachable store -> reachable (fst (webhook env store update)).

(** The code unit before a position: the last one of the prefix, or the
    one before the string. *)
Definition unitBefore (prev : option Z) (pre : jsstring) : option Z :=
  match last pre with
  | Some c => Some c
  | None => prev
  end.


(** An entry built as if the classifier had answered with the empty
    object: from the cues in the text and the defaults by type. *)
Definition builtFromDefaults (defaults : Settings.t) (line : Line.t) (e : Entry.t) : Prop :=
  exists today, enrichLineWithAI today (Parsed (JObj [])) line defaults = Ok e.

(** The entry of the line at position [i] of a message: built from that
    line with what its classifier request returned. *)
Definition builtAt (env : Env) (defaults : Settings.t) (i : nat)
    (line : Line.t) (e : Entry.t) : Prop :=
  enrichLineWithAI (utcDate env i) (classifier env i) line defaults = Ok e.

(** A decimal at or above this value reads as [Infinity]: [2^1024 - 2^970],
    halfway between the largest double and [2^1024]. *)
Definition overflowThreshold : Q :=
  inject_Z (2 ^ 1024 - 2 ^ 970).

(** [[A-Z]] *)
Definition isUpperAscii (c : Z) : bool := ((65 <=? c) && (c <=? 90))%Z.

(** A classifier request that ends with something the entry builder can
    read: it did not fail and the answer is not [null]. *)
Definition answered (o : aiOutcome) : Prop :=
  match o with
  | CallFailed | Parsed JNull | Parsed JUndefined => False
  | _ => True
  end.

(** What stands after [/vatmonth] names the month [key]: blanks, four
    digits, a dash, two digits, and nothing more. *)
Definition monthArgument (rest key : jsstring) : Prop :=
  exists ws y m,
    rest = ws ++ y ++ dash :: m /\ ws <> [] /\ forallb isSpace ws = true /\
    length y = 4%nat /\ forallb isDigit y = true /\
    length m = 2%nat /\ forallb isDigit m = true /\
    key = y ++ dash :: m.

(** What stands after [/vatyear] names the year [key]: blanks, four digits,
    and nothing more. *)
Definition yearArgument (rest key : jsstring) : Prop :=
  exists ws,
    rest = ws ++ key /\ ws <> [] /\ forallb isSpace ws = true /\
    length key = 4%nat /\ forallb isDigit key = true.

(** Digits, with blanks allowed between and after them. *)
Definition digitsAndBlanks (s : jsstring) : bool :=
  forallb (fun c => isDigit c || isSpace c) s.

(* ================================================================== *)
(** ** Vocabulary of the aggregates *)

Open Scope Q_scope.

(** The whole number of hundredths nearest to a finite Number. *)
Definition centsOf (x : number) : Z :=
  match x with
  | Fin q => Qfloor (q * 100 + (1 # 2))
  | _ => 0%Z
  end.

(** The Number of [n] hundredths, as [+"12.34"] reads it. *)
Definition hundredths (n : Z) : number := roundToDouble (n # 100).

(** What an entry adds to [incGross - expGross], in hundredths. *)
Definition grossShare (e : Entry.t) : Z :=
  match Entry.type e with
  | income => centsOf (Entry.gross e)
  | expense => (- centsOf (Entry.gross e))%Z
  end.

(** What an entry adds to [incVAT - expVAT], in hundredths. *)
Definition vatShare (e : Entry.t) : Z :=
  match Entry.type e with
  | income => centsOf (Entry.vat_collected e)
  | expense => (- centsOf (Entry.vat_deductible e))%Z
  end.

Definition isIncome (e : Entry.t) : bool :=
  match Entry.type e with income => true | expense => false end.

Definition isExpense (e : Entry.t) : bool := negb (isIncome e).

Definition sumZ (l : list Z) : Z := fold_right Z.add 0%Z l.

Definition vatShareSum (l : list Entry.t) : Z := sumZ (List.map vatShare l).

Definition grossShareSum (l : list Entry.t) : Z := sumZ (List.map grossShare l).

(** The [vatDue] of the twelve months of a year. *)
Definition monthlyVatDue (entries : list Entry.t) (yyyy : jsstring) : list number :=
  List.map (fun k => Totals.vatDue (vatTotalsMonth entries k)) (monthKeys yyyy).

(** Their sum, added up from January on as Numbers. *)
Definition monthlyVatDueSum (entries : list Entry.t) (yyyy : jsstring) : number :=
  fold_left num_add (monthlyVatDue entries yyyy) (Fin 0).

(** Their sum as exact values. *)
Definition monthlyVatDueExact (entries : list Entry.t) (yyyy : jsstring) : Q :=
  fold_right Qplus 0 (List.map valueOf (monthlyVatDue entries yyyy)).

(** An entry the entry builder returns for an amount of magnitude up to a
    million, at a default VAT rate from 0 to 100. *)
Definition smallEntry (e : Entry.t) : Prop :=
  exists today outcome line defaults,
    enrichLineWithAI today outcome line defaults = Ok e /\
    Qabs (Line.amount line) <= 1000000 /\
    0 <= Settings.vatRate defaults /\ Settings.vatRate defaults <= 100.

(* ================================================================== *)
(** ** Sample inputs *)

Open Scope Q_scope.

Definition sampleSettings : Settings.t := Settings.mk (js "EUR") 20.

Definition sampleToday : jsstring := js "2025-06-15".

(** A day in June 2025 on which the classifier request of the second line
    of a message fails and the other requests return nothing parseable. *)
Definition sampleEnv : Env := {|
  classifier := fun i => match i with 1%nat => CallFailed | _ => Unparseable end;
  utcDate := fun _ => sampleToday;
  nowYear := 2025;
  nowMonth := 5
|}.

(** The same day with every classifier request failing. *)
Definition offlineEnv : Env := {|
  classifier := fun _ => CallFailed;
  utcDate := fun _ => sampleToday;
  nowYear := 2025;
  nowMonth := 5
|}.

(** The same day with no classifier request giving anything parseable. *)
Definition answeringEnv : Env := {|
  classifier := fun _ => Unparseable;
  utcDate := fun _ => sampleToday;
  nowYear := 2025;
  nowMonth := 5
|}.

(** "+100", "-50" and "+7" on three lines. *)
Definition threeLines : jsstring := js "+100" ++ [10%Z] ++ js "-50" ++ [10%Z] ++ js "+7".

(** The entry of the line "+100" built from the defaults. *)
Definition hundredEntry : Entry.t :=
  Entry.mk income (JStr (js "other")) (JStr []) sampleToday (js "EUR")
           (hundredths 8333) (hundredths 1667) (hundredths 10000) (hundredths 1667) (Fin 0).

(** What the tokenizer makes of "-200 internet без ПДВ". *)
Definition internetLine : Line.t :=
  Line.mk expense 200 (Some (js "INT")) (js "ernet без ПДВ") (js "-200 internet без ПДВ").

(** A classifier answer that says the opposite of the cue in the text. *)
Definition contraryAnswer : aiOutcome :=
  Parsed (JObj [(js "amount_type", JStr (js "gross"));
                (js "vat_applicable", JBool true);
                (js "category", JStr (js "internet"))]).

Definition internetEntry : Entry.t :=
  Entry.mk expense (JStr (js "internet")) (JStr (js "ernet без ПДВ")) sampleToday (js "INT")
           (hundredths 20000) (Fin 0) (hundredths 20000) (Fin 0) (Fin 0).

(** What the tokenizer makes of "+100 eur 2025-13-01", and its entry. *)
Definition offCalendarLine : Line.t :=
  Line.mk income 100 (Some (js "EUR")) (js "2025-13-01") (js "+100 eur 2025-13-01").

Definition offCalendarEntry : Entry.t :=
  Entry.mk income (JStr (js "other")) (JStr (js "2025-13-01")) (js "2025-13-01") (js "EUR")
           (hundredths 8333) (hundredths 1667) (hundredths 10000) (hundredths 1667) (Fin 0).

(** An expense of March 2025: "-50 eur 03.03.2025". *)
Definition marchLine : Line.t :=
  Line.mk expense 50 (Some (js "EUR")) (js "03.03.2025") (js "-50 eur 03.03.2025").

Definition marchEntry : Entry.t :=
  Entry.mk expense (JStr (js "other")) (JStr (js "03.03.2025")) (js "2025-03-03") (js "EUR")
           (hundredths 4167) (hundredths 833) (hundredths 5000) (Fin 0) (hundredths 833).

(** What the tokenizer makes of "+1000 eur з ПДВ", and its entry. *)
Definition withVatLine : Line.t :=
  Line.mk income 1000 (Some (js "EUR")) (js "з ПДВ") (js "+1000 eur з ПДВ").

Definition withVatEntry : Entry.t :=
  Entry.mk income (JStr (js "other")) (JStr (js "з ПДВ")) sampleToday (js "EUR")
           (hundredths 83333) (hundredths 16667) (hundredths 100000) (hundredths 16667)
           (Fin 0).

(** A store where chat 7 has the March expense in its ledger. *)
Definition marchStore : Store :=
  <[7%Z := State.mk [marchEntry] sampleSettings]> ∅.

(** What the tokenizer makes of "+0.125", the answer of a classifier that
    takes the amount as net, and the entry. *)
Definition eighthLine : Line.t :=
  Line.mk income (1 # 8) None [] (js "+0.125").

Definition netAnswer : aiOutcome :=
  Parsed (JObj [(js "amount_type", JStr (js "net"))]).

Definition eighthEntry : Entry.t :=
  Entry.mk income (JStr (js "other")) (JStr []) sampleToday (js "EUR")
           (hundredths 13) (hundredths 3) (hundredths 15) (hundredths 3) (Fin 0).

(** What the tokenizer makes of "+9007199254740993", which reads as 2^53,
    and its entry when the classifier takes the amount as net. *)
Definition bigLine : Line.t :=
  Line.mk income 9007199254740992 None [] (js "+9007199254740993").

Definition bigEntry : Entry.t :=
  Entry.mk income (JStr (js "other")) (JStr []) sampleToday (js "EUR")
           (Fin 9007199254740992) (Fin (3602879701896397 # 2)) (Fin 10808639105689190)
           (Fin (3602879701896397 # 2)) (Fin 0).

(** An income with the amounts [gross], [net] and [vat], dated [date] in
    the text. *)
Definition datedIncome (date : jsstring) (net vat gross : number) : Entry.t :=
  Entry.mk income (JStr (js "other")) (JStr date) date (js "EUR") net vat gross vat (Fin 0).

(** "+0.6 eur 2025-01-01" and "+1.2 eur 2025-02-01" on two lines, and the
    ledger they give. *)
Definition twoMonths : jsstring :=
  js "+0.6 eur 2025-01-01" ++ [10%Z] ++ js "+1.2 eur 2025-02-01".

Definition twoMonthsLedger : list Entry.t :=
  [datedIncome (js "2025-01-01") (hundredths 50) (hundredths 10) (hundredths 60);
   datedIncome (js "2025-02-01") (hundredths 100) (hundredths 20) (hundredths 120)].

(** "+10000000000000000 eur 2025-01-01" and three times
    "+0.6 eur 2025-02-01", and the ledger they give. *)
Definition largeAndSmall : jsstring :=
  js "+10000000000000000 eur 2025-01-01" ++ [10%Z] ++ js "+0.6 eur 2025-02-01"
  ++ [10%Z] ++ js "+0.6 eur 2025-02-01" ++ [10%Z] ++ js "+0.6 eur 2025-02-01".

Definition largeAndSmallLedger : list Entry.t :=
  [datedIncome (js "2025-01-01") (Fin 8333333333333334) (Fin 1666666666666666)
               (Fin 10000000000000000);
   datedIncome (js "2025-02-01") (hundredths 50) (hundredths 10) (hundredths 60);
   datedIncome (js "2025-02-01") (hundredths 50) (hundredths 10) (hundredths 60);
   datedIncome (js "2025-02-01") (hundredths 50) (hundredths 10) (hundredths 60)].

(** The Numbers 123560236.885 and 4.0466092701437605e-9. *)
Definition tieAmount : Q := valueOf (roundToDouble (123560236885 # 1000)).

Definition tinyRate : Q :=
  valueOf (roundToDouble (40466092701437605 # 10000000000000000000000000)).

(** The Number 27.99. *)
Definition oddRate : Q := valueOf (roundToDouble (2799 # 100)).

Open Scope Z_scope.

(* ================================================================== *)
(** * Rounding to hundredths *)

Section Rounding.
Open Scope Q_scope.

Lemma Qfloor_unique (y : Q) (n : Z) :
  inject_Z n <= y -> y < inject_Z (n + 1) -> Qfloor y = n.
Proof.
  intros Hlo Hhi.
  pose proof (Qfloor_le y) as H1.
  pose proof (Qlt_floor y) as H2.
  assert (Hlt1 : inject_Z n < inject_Z (Qfloor y + 1)) by lra.
  assert (Hlt2 : inject_Z (Qfloor y) < inject_Z (n + 1)) by lra.
  rewrite <- Zlt_Qlt in Hlt1, Hlt2. lia.
Qed.

Lemma Qfloor_bounds (y : Q) :
  inject_Z (Qfloor y) <= y /\ y < inject_Z (Qfloor y) + 1.
Proof.
  split; [apply Qfloor_le|].
  pose proof (Qlt_floor y) as H. rewrite inject_Z_plus in H. exact H.
Qed.

Lemma Qfloor_add_Z (y : Q) (k : Z) : Qfloor (y + inject_Z k) = (Qfloor y + k)%Z.
Proof.
  apply Qfloor_unique.
  - rewrite inject_Z_plus. pose proof (Qfloor_le y). lra.
  - replace (Qfloor y + k + 1)%Z with ((Qfloor y + 1) + k)%Z by lia.
    rewrite inject_Z_plus. pose proof (Qlt_floor y). lra.
Qed.

Lemma Qmake_100 (n : Z) : n # 100 == inject_Z n / 100.
Proof. unfold Qeq, Qdiv, Qmult, Qinv, inject_Z; simpl. lia. Qed.

#[local] Instance decimal2_Proper : Proper (Qeq ==> Qeq) decimal2.
Proof.
  intros x y Hxy. unfold decimal2.
  assert (Hn : Qfloor (Qabs x * 100 + (1 # 2)) = Qfloor (Qabs y * 100 + (1 # 2))).
  { apply Qfloor_comp. rewrite Hxy. reflexivity. }
  rewrite Hn.
  assert (Hc : (x ?= 0) = (y ?= 0)) by (rewrite Hxy; reflexivity).
  rewrite Hc. reflexivity.
Qed.

(** The integer [toFixed] prints. *)
Lemma decimal2_nonneg (x : Q) :
  0 <= x -> decimal2 x == Qfloor (x * 100 + (1 # 2)) # 100.
Proof.
  intros Hx. unfold decimal2.
  assert (Ha : Qabs x == x) by (apply Qabs_pos; exact Hx).
  assert (Hn : Qfloor (Qabs x * 100 + (1 # 2)) = Qfloor (x * 100 + (1 # 2))).
  { apply Qfloor_comp. rewrite Ha. reflexivity. }
  rewrite Hn.
  destruct (x ?= 0) eqn:Hc; try reflexivity.
  rewrite <- Qlt_alt in Hc. lra.
Qed.

Lemma decimal2_neg (x : Q) :
  x < 0 -> decimal2 x == - (Qfloor (- x * 100 + (1 # 2)) # 100).
Proof.
  intros Hx. unfold decimal2.
  assert (Ha : Qabs x == - x) by (apply Qabs_neg; lra).
  assert (Hn : Qfloor (Qabs x * 100 + (1 # 2)) = Qfloor (- x * 100 + (1 # 2))).
  { apply Qfloor_comp. rewrite Ha. reflexivity. }
  rewrite Hn.
  rewrite Qlt_alt in Hx. rewrite Hx. reflexivity.
Qed.

Lemma decimal2_opp (x : Q) : decimal2 (- x) == - decimal2 x.
Proof.
  destruct (Qlt_le_dec x 0) as [Hn | Hp].
  - rewrite (decimal2_neg x Hn), decimal2_nonneg by lra.
    rewrite Qopp_involutive. reflexivity.
  - destruct (Qeq_dec x 0) as [Hz | Hnz].
    + rewrite Hz. reflexivity.
    + rewrite (decimal2_nonneg x Hp), decimal2_neg by lra.
      assert (He : - - x * 100 + (1 # 2) == x * 100 + (1 # 2)) by lra.
      rewrite (Qfloor_comp _ _ He). reflexivity.
Qed.

(** [decimal2 x] is at most half a hundredth away from [x]; on the far
    side of zero the distance is strictly smaller. *)
Lemma decimal2_near_nonneg (x : Q) :
  0 <= x -> x - (1 # 200) < decimal2 x /\ decimal2 x <= x + (1 # 200).
Proof.
  intros Hx. rewrite (decimal2_nonneg x Hx), Qmake_100.
  destruct (Qfloor_bounds (x * 100 + (1 # 2))) as [H1 H2].
  set (n := inject_Z (Qfloor (x * 100 + (1 # 2)))) in *.
  split.
  - apply Qlt_shift_div_l; lra.
  - apply Qle_shift_div_r; lra.
Qed.

Lemma decimal2_near_neg (x : Q) :
  x <= 0 -> x - (1 # 200) <= decimal2 x /\ decimal2 x < x + (1 # 200).
Proof.
  intros Hx.
  destruct (decimal2_near_nonneg (- x)) as [H1 H2]; [lra|].
  rewrite decimal2_opp in H1, H2. split; lra.
Qed.

Lemma decimal2_near (x : Q) :
  x - (1 # 200) <= decimal2 x /\ decimal2 x <= x + (1 # 200).
Proof.
  destruct (Qlt_le_dec x 0) as [Hn | Hp].
  - destruct (decimal2_near_neg x) as [H1 H2]; [lra|]. split; lra.
  - destruct (decimal2_near_nonneg x Hp) as [H1 H2]. split; lra.
Qed.

Lemma decimal2_sign_nonneg (x : Q) : 0 <= x -> 0 <= decimal2 x.
Proof.
  intros Hx. rewrite (decimal2_nonneg x Hx).
  assert (Hn : (0 <= Qfloor (x * 100 + (1 # 2)))%Z).
  { change 0%Z with (Qfloor 0). apply Qfloor_resp_le. lra. }
  revert Hn. generalize (Qfloor (x * 100 + (1 # 2))). intros n Hn.
  unfold Qle; simpl. lia.
Qed.

Lemma decimal2_sign_nonpos (x : Q) : x <= 0 -> decimal2 x <= 0.
Proof.
  intros Hx. pose proof (decimal2_sign_nonneg (- x)) as H.
  rewrite decimal2_opp in H. lra.
Qed.

Lemma decimal2_wholeCents (x : Q) : wholeCents (decimal2 x).
Proof.
  unfold wholeCents, decimal2.
  destruct (x ?= 0); eexists; reflexivity.
Qed.

Lemma cents_add (n k : Z) : (n + k # 100) == (n # 100) + (k # 100).
Proof. unfold Qeq, Qplus; simpl. lia. Qed.

Lemma decimal2_shift_nonneg (x : Q) (k : Z) :
  0 <= x -> (0 <= k)%Z -> decimal2 (x + (k # 100)) == decimal2 x + (k # 100).
Proof.
  intros Hx Hk.
  assert (Hk' : 0 <= k # 100) by (unfold Qle; simpl; lia).
  rewrite !decimal2_nonneg by lra.
  assert (He : (x + (k # 100)) * 100 + (1 # 2) == x * 100 + (1 # 2) + inject_Z k).
  { rewrite (Qmake_100 k). field. }
  rewrite (Qfloor_comp _ _ He), Qfloor_add_Z. apply cents_add.
Qed.

(** Adding whole hundredths on the side of zero where [x] lies commutes
    with the rounding. *)
Lemma decimal2_shift (x c : Q) :
  wholeCents c -> (0 <= x /\ 0 <= c) \/ (x <= 0 /\ c <= 0) ->
  decimal2 (x + c) == decimal2 x + c.
Proof.
  intros [k Hk] [[Hx Hc] | [Hx Hc]].
  - rewrite Hk in *. apply decimal2_shift_nonneg; [exact Hx|].
    unfold Qle in Hc; simpl in Hc. lia.
  - assert (Hopp : - c == (- k # 100)) by (rewrite Hk; reflexivity).
    assert (H : decimal2 (- x + (- k # 100)) == decimal2 (- x) + (- k # 100)).
    { apply decimal2_shift_nonneg; [lra|].
      rewrite Hk in Hc. unfold Qle in Hc; simpl in Hc. lia. }
    rewrite <- Hopp in H.
    assert (He : - x + - c == - (x + c)) by ring.
    rewrite He, !decimal2_opp in H. lra.
Qed.

Lemma decimal2_cents_id (y : Q) : wholeCents y -> decimal2 y == y.
Proof.
  intros Hy.
  assert (He : y == 0 + y) by ring.
  rewrite He at 1.
  assert (H0 : decimal2 0 == 0) by reflexivity.
  destruct (Qlt_le_dec y 0).
  - rewrite decimal2_shift; [lra | exact Hy | right; lra].
  - rewrite decimal2_shift; [lra | exact Hy | left; lra].
Qed.

#[local] Instance wholeCents_Proper : Proper (Qeq ==> iff) wholeCents.
Proof.
  intros y y' Hy. unfold wholeCents.
  split; intros [n Hn]; exists n; [rewrite <- Hy | rewrite Hy]; exact Hn.
Qed.

#[local] Instance nearestCents_Proper :
  Proper (Qeq ==> Qeq ==> iff) nearestCents.
Proof.
  intros x x' Hx y y' Hy. unfold nearestCents.
  rewrite Hx, Hy. reflexivity.
Qed.

(** [decimal2] rounds to two decimals, a half going away from zero. *)
Lemma decimal2_rounds (x : Q) : nearestCents x (decimal2 x).
Proof.
  split; [apply decimal2_wholeCents|].
  destruct (Qlt_le_dec x 0) as [Hn | Hp].
  - destruct (decimal2_near_neg x) as [H1 H2]; [lra|].
    pose proof (decimal2_sign_nonpos x) as Hs.
    split.
    + apply Qabs_Qle_condition. split; lra.
    + intros Htie.
      rewrite (Qabs_neg x), (Qabs_neg (decimal2 x)) by lra.
      destruct (Qlt_le_dec (decimal2 x - x) 0) as [Hd | Hd].
      * rewrite Qabs_neg in Htie by lra. lra.
      * rewrite Qabs_pos in Htie by lra. lra.
  - destruct (decimal2_near_nonneg x Hp) as [H1 H2].
    pose proof (decimal2_sign_nonneg x Hp) as Hs.
    split.
    + apply Qabs_Qle_condition. split; lra.
    + intros Htie.
      rewrite (Qabs_pos x), (Qabs_pos (decimal2 x)) by lra.
      destruct (Qlt_le_dec (decimal2 x - x) 0) as [Hd | Hd].
      * rewrite Qabs_neg in Htie by lra. lra.
      * rewrite Qabs_pos in Htie by lra. lra.
Qed.

End Rounding.

#[local] Existing Instances decimal2_Proper wholeCents_Proper nearestCents_Proper.
Section RoundingDetermined.
Open Scope Q_scope.

Lemma cents_apart (n n' : Z) :
  - (1 # 100) <= (n # 100) - (n' # 100) -> (n # 100) - (n' # 100) <= 1 # 100 ->
  (n = n' \/ n = n' + 1 \/ n' = n + 1)%Z.
Proof.
  unfold Qle, Qminus, Qplus, Qopp; simpl. lia.
Qed.

Lemma cents_sign (y : Q) :
  wholeCents y -> y < 1 # 200 -> - (1 # 200) < y -> y == 0.
Proof.
  intros [n Hn] Hlt Hgt. rewrite Hn in *.
  unfold Qlt, Qeq in *; simpl in *. lia.
Qed.

Lemma tie_above (x y : Q) :
  wholeCents y -> y == x + (1 # 200) ->
  (Qabs (y - x) == 1 # 200 -> Qabs x < Qabs y) -> 0 <= x.
Proof.
  intros Hc Hy Htie. destruct (Qlt_le_dec x 0) as [Hx | Hx]; [|exact Hx]. exfalso.
  assert (Hd : Qabs (y - x) == 1 # 200) by (rewrite Qabs_pos; lra).
  specialize (Htie Hd). rewrite (Qabs_neg x) in Htie by lra.
  destruct (Qlt_le_dec y 0) as [Hy0 | Hy0].
  - rewrite Qabs_neg in Htie by lra. lra.
  - rewrite Qabs_pos in Htie by lra.
    assert (Hz : y == 0) by (apply cents_sign; [exact Hc | lra | lra]). lra.
Qed.

Lemma tie_below (x y : Q) :
  wholeCents y -> y == x - (1 # 200) ->
  (Qabs (y - x) == 1 # 200 -> Qabs x < Qabs y) -> x <= 0.
Proof.
  intros Hc Hy Htie. destruct (Qlt_le_dec 0 x) as [Hx | Hx]; [|exact Hx]. exfalso.
  assert (Hd : Qabs (y - x) == 1 # 200) by (rewrite Qabs_neg; lra).
  specialize (Htie Hd). rewrite (Qabs_pos x) in Htie by lra.
  destruct (Qlt_le_dec y 0) as [Hy0 | Hy0].
  - rewrite Qabs_neg in Htie by lra.
    assert (Hz : y == 0) by (apply cents_sign; [exact Hc | lra | lra]). lra.
  - rewrite Qabs_pos in Htie by lra. lra.
Qed.

(** The rounding is determined: two roundings of the same number agree. *)
Lemma nearestCents_unique (x y y' : Q) :
  nearestCents x y -> nearestCents x y' -> y == y'.
Proof.
  intros (Hc & Hnear & Htie) (Hc' & Hnear' & Htie').
  pose proof Hc as [n Hn]. pose proof Hc' as [n' Hn'].
  apply Qabs_Qle_condition in Hnear, Hnear'.
  assert (Hcases : (n = n' \/ n = n' + 1 \/ n' = n + 1)%Z).
  { apply cents_apart; rewrite <- Hn, <- Hn'; lra. }
  destruct Hcases as [-> | [-> | ->]].
  - rewrite Hn, Hn'. reflexivity.
  - exfalso. rewrite cents_add in Hn.
    assert (Hy : y == x + (1 # 200)) by lra.
    assert (Hy' : y' == x - (1 # 200)) by lra.
    pose proof (tie_above x y Hc Hy Htie). pose proof (tie_below x y' Hc' Hy' Htie').
    assert (Hx : x == 0) by lra.
    assert (H2 : (2 * n' = 1)%Z).
    { rewrite Hx in Hy'. rewrite Hn' in Hy'. unfold Qeq in Hy'; simpl in Hy'. lia. }
    lia.
  - exfalso. rewrite cents_add in Hn'.
    assert (Hy : y' == x + (1 # 200)) by lra.
    assert (Hy' : y == x - (1 # 200)) by lra.
    pose proof (tie_above x y' Hc' Hy Htie'). pose proof (tie_below x y Hc Hy' Htie).
    assert (Hx : x == 0) by lra.
    assert (H2 : (2 * n = 1)%Z).
    { rewrite Hx in Hy'. rewrite Hn in Hy'. unfold Qeq in Hy'; simpl in Hy'. lia. }
    lia.
Qed.
End RoundingDetermined.
(* ================================================================== *)
(** * Rounding into binary64 *)

Section Binary64.
Open Scope Q_scope.

Lemma two_not_0 : ~ 2 == 0.
Proof. intros H. lra. Qed.

Lemma pow2_pos (k : Z) : 0 < 2 ^ k.
Proof. apply Qpower_0_lt. reflexivity. Qed.

Lemma pow2_not_0 (k : Z) : ~ 2 ^ k == 0.
Proof. pose proof (pow2_pos k). lra. Qed.

Lemma pow2_succ (k : Z) : 2 ^ (k + 1) == 2 * 2 ^ k.
Proof. rewrite (Qpower_plus 2 k 1 two_not_0). rewrite Qpower_1_r. ring. Qed.

Lemma pow2_pred (k : Z) : 2 ^ (k - 1) == (1 # 2) * 2 ^ k.
Proof.
  pose proof (pow2_succ (k - 1)) as H.
  replace (k - 1 + 1)%Z with k in H by lia. lra.
Qed.

Lemma pow2_le (n m : Z) : (n <= m)%Z -> 2 ^ n <= 2 ^ m.
Proof. intros H. apply Qpower_le_compat_l; [exact H | lra]. Qed.

Lemma pow2_lt (n m : Z) : (n < m)%Z -> 2 ^ n < 2 ^ m.
Proof. intros H. apply Qpower_lt_compat_l; [exact H | lra]. Qed.

Lemma pow2_lt_inv (n m : Z) : 2 ^ n < 2 ^ m -> (n < m)%Z.
Proof. intros H. apply (Qpower_lt_compat_l_inv 2); [exact H | lra]. Qed.

Lemma pow2_Z (n : Z) : (0 <= n)%Z -> inject_Z (2 ^ n) == 2 ^ n.
Proof. intros H. apply (Zpower_Qpower 2 n H). Qed.

(** [Qlog2] finds the binade. *)
Lemma Qlog2_spec (x : Q) : 0 < x -> 2 ^ Qlog2 x <= x /\ x < 2 ^ (Qlog2 x + 1).
Proof.
  intros Hx. unfold Qlog2. destruct x as [a b]. cbn [Qnum Qden].
  assert (Ha : (0 < a)%Z) by (unfold Qlt in Hx; cbn in Hx; lia).
  destruct (Z.log2_spec a Ha) as [Ha1 Ha2].
  destruct (Z.log2_spec (Zpos b) (Pos2Z.is_pos b)) as [Hb1 Hb2].
  pose proof (Z.log2_nonneg a) as Hla. pose proof (Z.log2_nonneg (Zpos b)) as Hlb.
  set (la := Z.log2 a) in *. set (lb := Z.log2 (Zpos b)) in *.
  assert (HA1 : 2 ^ la <= inject_Z a)
    by (rewrite <- (pow2_Z la Hla), <- Zle_Qle; exact Ha1).
  assert (HA2 : inject_Z a < 2 ^ (la + 1))
    by (rewrite <- (pow2_Z (la + 1)), <- Zlt_Qlt by lia; exact Ha2).
  assert (HB1 : 2 ^ lb <= inject_Z (Zpos b))
    by (rewrite <- (pow2_Z lb Hlb), <- Zle_Qle; exact Hb1).
  assert (HB2 : inject_Z (Zpos b) < 2 ^ (lb + 1))
    by (rewrite <- (pow2_Z (lb + 1)), <- Zlt_Qlt by lia; exact Hb2).
  assert (HB0 : 0 < inject_Z (Zpos b)) by (rewrite <- (Zlt_Qlt 0); lia).
  rewrite (Qmake_Qdiv a b).
  set (A := inject_Z a) in *. set (B := inject_Z (Zpos b)) in *.
  assert (Hhi : A / B < 2 ^ (la - lb + 1)).
  { replace (la - lb + 1)%Z with (la + 1 - lb)%Z by lia.
    rewrite (Qpower_minus 2 (la + 1) lb two_not_0).
    pose proof (pow2_pos lb) as Hp. pose proof (pow2_pos (la + 1)) as Hq.
    set (P := 2 ^ lb) in *. set (R := 2 ^ (la + 1)) in *.
    apply Qlt_shift_div_r; [exact HB0|].
    assert (Ht : R / P * P == R) by (field; lra).
    assert (Ht0 : 0 < R / P) by (apply Qlt_shift_div_l; lra).
    nra. }
  assert (Hlo : 2 ^ (la - lb - 1) <= A / B).
  { replace (la - lb - 1)%Z with (la - (lb + 1))%Z by lia.
    rewrite (Qpower_minus 2 la (lb + 1) two_not_0).
    pose proof (pow2_pos (lb + 1)) as Hp. pose proof (pow2_pos la) as Hq.
    set (P := 2 ^ (lb + 1)) in *. set (R := 2 ^ la) in *.
    apply Qle_shift_div_l; [exact HB0|].
    assert (Ht : R / P * P == R) by (field; lra).
    assert (Ht0 : 0 < R / P) by (apply Qlt_shift_div_l; lra).
    nra. }
  destruct (Qle_bool (2 ^ (la - lb)) (A / B)) eqn:E.
  - apply Qle_bool_iff in E. split; assumption.
  - split; [exact Hlo|].
    replace (la - lb - 1 + 1)%Z with (la - lb)%Z by lia.
    apply Qnot_le_lt. intros H. apply Qle_bool_iff in H. congruence.
Qed.

Lemma Qlog2_unique (x : Q) (k : Z) :
  2 ^ k <= x -> x < 2 ^ (k + 1) -> Qlog2 x = k.
Proof.
  intros Hlo Hhi.
  assert (Hx : 0 < x) by (pose proof (pow2_pos k); lra).
  destruct (Qlog2_spec x Hx) as [H1 H2].
  assert (Ha : (Qlog2 x < k + 1)%Z) by (apply pow2_lt_inv; lra).
  assert (Hb : (k < Qlog2 x + 1)%Z) by (apply pow2_lt_inv; lra).
  lia.
Qed.

Lemma Qlog2_Proper (x y : Q) : 0 < x -> x == y -> Qlog2 x = Qlog2 y.
Proof.
  intros Hx Hxy. destruct (Qlog2_spec x Hx) as [H1 H2].
  symmetry. apply Qlog2_unique; rewrite <- Hxy; assumption.
Qed.

Lemma Qlog2_below (x : Q) (k : Z) : 0 < x -> x < 2 ^ (k + 1) -> (Qlog2 x <= k)%Z.
Proof.
  intros Hx Hhi. destruct (Qlog2_spec x Hx) as [H1 _].
  assert (Ha : (Qlog2 x < k + 1)%Z) by (apply pow2_lt_inv; lra). lia.
Qed.

Lemma ulpExp_Proper (x y : Q) : ~ x == 0 -> x == y -> ulpExp x = ulpExp y.
Proof.
  intros Hx Hxy. unfold ulpExp. f_equal. f_equal.
  apply Qlog2_Proper; [|rewrite Hxy; reflexivity].
  destruct (Qlt_le_dec 0 (Qabs x)) as [H | H]; [exact H|].
  pose proof (Qabs_nonneg x). exfalso. apply Hx.
  destruct (Qlt_le_dec x 0) as [Hn | Hp].
  - rewrite Qabs_neg in H by lra. lra.
  - rewrite Qabs_pos in H by lra. lra.
Qed.

Lemma roundTiesToEven_Proper (x y : Q) :
  x == y -> roundTiesToEven x = roundTiesToEven y.
Proof.
  intros Hxy. unfold roundTiesToEven.
  rewrite (Qfloor_comp x y Hxy).
  assert (Hc : Qcompare (x - inject_Z (Qfloor y)) (1 # 2)
               = Qcompare (y - inject_Z (Qfloor y)) (1 # 2))
    by (rewrite Hxy; reflexivity).
  rewrite Hc. reflexivity.
Qed.

Lemma roundTiesToEven_near (y : Q) :
  Qabs (inject_Z (roundTiesToEven y) - y) <= 1 # 2.
Proof.
  unfold roundTiesToEven.
  destruct (Qfloor_bounds y) as [H1 H2].
  assert (H3 : inject_Z (Qfloor y + 1) == inject_Z (Qfloor y) + 1)
    by (rewrite inject_Z_plus; reflexivity).
  apply Qabs_Qle_condition.
  destruct (Qcompare (y - inject_Z (Qfloor y)) (1 # 2)) eqn:E.
  - apply Qeq_alt in E.
    destruct (Z.even (Qfloor y)); [|rewrite H3]; split; lra.
  - apply Qlt_alt in E. split; lra.
  - apply Qgt_alt in E. rewrite H3. split; lra.
Qed.

Lemma roundTiesToEven_nonneg (y : Q) : 0 <= y -> (0 <= roundTiesToEven y)%Z.
Proof.
  intros Hy. unfold roundTiesToEven.
  assert (Hf : (0 <= Qfloor y)%Z)
    by (change 0%Z with (Qfloor 0); apply Qfloor_resp_le; exact Hy).
  destruct (Qcompare _ _); [destruct (Z.even _)| |]; lia.
Qed.

(** [roundToDouble] does not depend on how the rational is written. *)
Lemma roundToDouble_Proper (x y : Q) : x == y -> roundToDouble x = roundToDouble y.
Proof.
  intros Hxy. unfold roundToDouble.
  destruct (Qeq_bool x 0) eqn:Ex.
  - apply Qeq_bool_iff in Ex.
    assert (Ey : Qeq_bool y 0 = true) by (apply Qeq_bool_iff; lra).
    rewrite Ey. reflexivity.
  - assert (Hx : ~ x == 0) by (intros H; apply Qeq_bool_iff in H; congruence).
    assert (Ey : Qeq_bool y 0 = false).
    { destruct (Qeq_bool y 0) eqn:E; [|reflexivity].
      apply Qeq_bool_iff in E. exfalso. apply Hx. lra. }
    rewrite Ey, <- (ulpExp_Proper x y Hx Hxy).
    set (e := ulpExp x).
    assert (Hm : roundTiesToEven (x / 2 ^ e) = roundTiesToEven (y / 2 ^ e))
      by (apply roundTiesToEven_Proper; rewrite Hxy; reflexivity).
    rewrite Hm. reflexivity.
Qed.

(** Below [2^(k+1)] the rounding moves a number by at most [2^(k-53)]:
    half a step of the grid of its binade. *)
Lemma roundToDouble_error (x : Q) (k : Z) :
  Qabs x < 2 ^ (k + 1) -> (-1022 <= k <= 1022)%Z ->
  exists v, roundToDouble x = Fin v /\ Qabs (v - x) <= 2 ^ (k - 53).
Proof.
  intros Hx Hk. unfold roundToDouble.
  pose proof (pow2_pos (k - 53)) as Hpos.
  destruct (Qeq_bool x 0) eqn:Ex.
  - apply Qeq_bool_iff in Ex. exists 0. split; [reflexivity|].
    assert (H0 : 0 - x == 0) by lra. rewrite H0, Qabs_pos by lra. lra.
  - assert (Hx0 : ~ x == 0) by (intros H; apply Qeq_bool_iff in H; congruence).
    assert (Hpx : 0 < Qabs x).
    { destruct (Qlt_le_dec x 0) as [Hn | Hp].
      - rewrite Qabs_neg by lra. lra.
      - rewrite Qabs_pos by lra.
        destruct (Qlt_le_dec 0 x); [assumption | exfalso; apply Hx0; lra]. }
    set (e := ulpExp x).
    assert (He : (e <= k - 52)%Z).
    { unfold e, ulpExp. pose proof (Qlog2_below (Qabs x) k Hpx Hx). lia. }
    pose proof (pow2_pos e) as Hpe.
    set (m := roundTiesToEven (x / 2 ^ e)).
    pose proof (roundTiesToEven_near (x / 2 ^ e)) as Hm. fold m in Hm.
    assert (Hdiff : inject_Z m * 2 ^ e - x == (inject_Z m - x / 2 ^ e) * 2 ^ e)
      by (field; lra).
    assert (Herr : Qabs (inject_Z m * 2 ^ e - x) <= 2 ^ (k - 53)).
    { rewrite Hdiff, Qabs_Qmult, (Qabs_pos (2 ^ e)) by lra.
      assert (Hh : 2 ^ e <= 2 ^ (k - 52)) by (apply pow2_le; exact He).
      replace (k - 52)%Z with (k - 53 + 1)%Z in Hh by lia.
      rewrite pow2_succ in Hh.
      pose proof (Qabs_nonneg (inject_Z m - x / 2 ^ e)). nra. }
    assert (Hfin : Qle_bool (2 ^ 1024) (Qabs (inject_Z m * 2 ^ e)) = false).
    { destruct (Qle_bool (2 ^ 1024) (Qabs (inject_Z m * 2 ^ e))) eqn:E; [|reflexivity].
      apply Qle_bool_iff in E. exfalso.
      assert (Htri : Qabs (inject_Z m * 2 ^ e)
                     <= Qabs (inject_Z m * 2 ^ e - x) + Qabs x).
      { assert (Hs : inject_Z m * 2 ^ e == (inject_Z m * 2 ^ e - x) + x) by ring.
        rewrite Hs at 1. apply Qabs_triangle. }
      assert (H1 : 2 ^ (k - 53) <= 2 ^ (k + 1)) by (apply pow2_le; lia).
      assert (H2 : 2 ^ (k + 2) <= 2 ^ 1024) by (apply pow2_le; lia).
      replace (k + 2)%Z with (k + 1 + 1)%Z in H2 by lia.
      rewrite pow2_succ in H2. lra. }
    rewrite Hfin. exists (Qred (inject_Z m * 2 ^ e)).
    split; [reflexivity|]. rewrite Qred_correct. exact Herr.
Qed.

(** The rounding keeps the sign. *)
Lemma roundToDouble_nonneg (x : Q) :
  0 <= x ->
  match roundToDouble x with
  | Fin v => 0 <= v
  | Inf neg => neg = false
  | NaN => False
  end.
Proof.
  intros Hx. unfold roundToDouble.
  destruct (Qeq_bool x 0); [lra|].
  set (e := ulpExp x). pose proof (pow2_pos e) as Hpe.
  assert (Hm : (0 <= roundTiesToEven (x / 2 ^ e))%Z).
  { apply roundTiesToEven_nonneg. apply Qle_shift_div_l; lra. }
  assert (Hv : 0 <= inject_Z (roundTiesToEven (x / 2 ^ e)) * 2 ^ e).
  { apply Qmult_le_0_compat; [|lra].
    change 0 with (inject_Z 0). rewrite <- Zle_Qle. exact Hm. }
  destruct (Qle_bool _ _).
  - unfold Qnegative. apply negb_false_iff, Qle_bool_iff. exact Hv.
  - rewrite Qred_correct. exact Hv.
Qed.

Lemma roundToDouble_not_NaN (x : Q) : roundToDouble x <> NaN.
Proof. unfold roundToDouble. destruct (Qeq_bool x 0); [|destruct (Qle_bool _ _)]; discriminate. Qed.

End Binary64.

Ltac pow2_eval :=
  repeat match goal with
  | |- context [Qpower 2 ?k] =>
      let v := eval vm_compute in (Qpower 2 k) in change (Qpower 2 k) with v
  | H : context [Qpower 2 ?k] |- _ =>
      let v := eval vm_compute in (Qpower 2 k) in change (Qpower 2 k) with v in H
  end.

Section NumberRounding.
Open Scope Q_scope.

Lemma roundToDouble_near (x B : Q) (k : Z) :
  - B <= x -> x <= B -> B < 2 ^ (k + 1) -> (-1022 <= k <= 1022)%Z ->
  exists v, roundToDouble x = Fin v /\
            x - 2 ^ (k - 53) <= v /\ v <= x + 2 ^ (k - 53).
Proof.
  intros Hlo Hhi HB Hk.
  assert (Hx : Qabs x < 2 ^ (k + 1)).
  { apply Qle_lt_trans with B; [|exact HB]. apply Qabs_Qle_condition. split; assumption. }
  destruct (roundToDouble_error x k Hx Hk) as (v & Hv & He).
  exists v. split; [exact Hv|].
  apply Qabs_Qle_condition in He. split; lra.
Qed.

Lemma toFixed2_near (x B : Q) (k : Z) :
  - B <= x -> x <= B -> B + (1 # 200) < 2 ^ (k + 1) -> B < inject_Z (10 ^ 21) ->
  (-1022 <= k <= 1022)%Z ->
  exists v, toFixed2 (Fin x) = Fin v /\
            x - (1 # 200) - 2 ^ (k - 53) <= v /\
            v <= x + (1 # 200) + 2 ^ (k - 53) /\
            exists n : Z, Fin v = roundToDouble (n # 100) /\
                          x - (1 # 200) <= n # 100 /\ n # 100 <= x + (1 # 200).
Proof.
  intros Hlo Hhi HB Hbig Hk. unfold toFixed2.
  assert (Hsmall : Qle_bool (inject_Z (10 ^ 21)) (Qabs x) = false).
  { destruct (Qle_bool (inject_Z (10 ^ 21)) (Qabs x)) eqn:E; [|reflexivity].
    apply Qle_bool_iff in E. exfalso.
    assert (Ha : Qabs x <= B) by (apply Qabs_Qle_condition; split; assumption).
    lra. }
  rewrite Hsmall.
  destruct (decimal2_near x) as [Hd1 Hd2].
  destruct (roundToDouble_near (decimal2 x) (B + (1 # 200)) k) as (v & Hv & H1 & H2);
    [lra | lra | exact HB | exact Hk |].
  exists v. split; [exact Hv|]. split; [lra|]. split; [lra|].
  destruct (decimal2_wholeCents x) as [n Hn].
  exists n. split.
  - rewrite <- Hv. apply roundToDouble_Proper. exact Hn.
  - rewrite <- Hn. split; lra.
Qed.

Lemma Qeq_bool_false (x : Q) : ~ x == 0 -> Qeq_bool x 0 = false.
Proof.
  intros H. destruct (Qeq_bool x 0) eqn:E; [|reflexivity].
  apply Qeq_bool_iff in E. contradiction.
Qed.

Lemma Qle_bool_false (x y : Q) : Qle_bool x y = false -> y < x.
Proof.
  intros H. apply Qnot_le_lt. intros Hle. apply Qle_bool_iff in Hle. congruence.
Qed.

(** [toFixed2] rounds to two decimals, a half going away from zero. *)
Lemma toFixed2_rounds (x : number) : roundedHalfAway2 x (toFixed2 x).
Proof.
  destruct x as [| neg | q]; cbn; try reflexivity.
  destruct (Qle_bool (inject_Z (10 ^ 21)) (Qabs q)); [reflexivity|].
  exists (decimal2 q). split; [apply decimal2_rounds | reflexivity].
Qed.

Lemma roundedHalfAway2_unique (x y y' : number) :
  roundedHalfAway2 x y -> roundedHalfAway2 x y' -> y = y'.
Proof.
  destruct x as [| neg | q]; cbn; try congruence.
  destruct (Qle_bool (inject_Z (10 ^ 21)) (Qabs q)); [congruence|].
  intros (d & Hd & ->) (d' & Hd' & ->).
  apply roundToDouble_Proper. exact (nearestCents_unique q d d' Hd Hd').
Qed.

Lemma roundedHalfAway2_toFixed2 (x y : number) :
  roundedHalfAway2 x y -> y = toFixed2 x.
Proof. intros H. exact (roundedHalfAway2_unique x y _ H (toFixed2_rounds x)). Qed.

End NumberRounding.

(* ================================================================== *)
(** * Decimal amounts as Numbers *)

Section CentAmounts.
Open Scope Q_scope.

(** A value nearer than half a hundredth to a whole number of hundredths
    prints as that number. *)
Lemma decimal2_recover (x : Q) (n : Z) :
  (n # 100) - (1 # 200) < x -> x < (n # 100) + (1 # 200) -> decimal2 x == n # 100.
Proof.
  intros Hlo Hhi. apply (nearestCents_unique x); [apply decimal2_rounds|].
  assert (Hlt : Qabs ((n # 100) - x) < 1 # 200).
  { apply Qabs_Qlt_condition. split; lra. }
  split; [exists n; reflexivity|]. split; [lra|].
  intros Heq. lra.
Qed.

(** The Number of a decimal amount below 2^31: its value and its
    hundredths. *)
Lemma cents_near (n : Z) :
  - (2147483647) <= n # 100 -> n # 100 <= 2147483647 ->
  exists v, roundToDouble (n # 100) = Fin v /\
            (n # 100) - (1 # 8388608) <= v /\ v <= (n # 100) + (1 # 8388608) /\
            centsOf (Fin v) = n.
Proof.
  intros Hlo Hhi.
  destruct (roundToDouble_near (n # 100) 2147483647 30) as (v & Hv & H1 & H2);
    [exact Hlo | exact Hhi | pow2_eval; lra | lia |].
  pow2_eval. exists v. split; [exact Hv|]. split; [exact H1|]. split; [exact H2|].
  assert (Hc : (n # 100) * 100 == inject_Z n) by (rewrite Qmake_100; field).
  clear Hv Hlo Hhi. cbn [centsOf].
  apply Qfloor_unique; [|rewrite inject_Z_plus; change (inject_Z 1) with 1];
    revert Hc H1 H2; generalize (n # 100) (inject_Z n); intros c q Hc H1 H2; lra.
Qed.

Lemma centAmount_near (B : Q) (x : number) :
  centAmount B x -> B <= 2147483647 ->
  exists v, x = Fin v /\ x = roundToDouble (centsOf x # 100) /\
            (centsOf x # 100) - (1 # 8388608) <= v /\
            v <= (centsOf x # 100) + (1 # 8388608) /\
            - B <= centsOf x # 100 /\ centsOf x # 100 <= B.
Proof.
  intros (n & Hx & Hlo & Hhi) HB.
  destruct (cents_near n) as (v & Hv & H1 & H2 & Hc); [lra | lra |].
  exists v. rewrite Hx, Hv, Hc. rewrite <- Hv.
  repeat split; try assumption; reflexivity.
Qed.

End CentAmounts.

(* ================================================================== *)
(** * The Amount Triplet Calculator *)

Section TripletCalculator.
Open Scope Q_scope.

Lemma numberOrZero_amt (amount : jsamount) :
  numberOrZero amount
  = match amount with
    | ANum (Fin q) => Fin q
    | ANum (Inf neg) => Inf neg
    | _ => Fin 0
    end.
Proof. destruct amount as [| | [| neg | q]]; reflexivity. Qed.

Lemma computeTriplet_meets_spec amount amountType vatRate vatApplicable :
  tripletSpec amount amountType vatRate vatApplicable
    (computeTriplet amount amountType vatRate vatApplicable).
Proof.
  unfold tripletSpec, computeTriplet. rewrite <- numberOrZero_amt.
  set (A := numberOrZero amount).
  destruct vatApplicable; cbn [negb orb].
  - destruct (num_le (num_div vatRate (Fin 100)) (Fin 0)).
    + cbn. repeat split; apply toFixed2_rounds.
    + destruct (strictEqStr amountType (js "net"));
        cbn [Triplet.net Triplet.vat Triplet.gross]; repeat split; apply toFixed2_rounds.
  - cbn. repeat split; apply toFixed2_rounds.
Qed.

Lemma tripletSpec_determines amount amountType vatRate vatApplicable (t : Triplet.t) :
  tripletSpec amount amountType vatRate vatApplicable t ->
  t = computeTriplet amount amountType vatRate vatApplicable.
Proof.
  unfold tripletSpec, computeTriplet. rewrite <- numberOrZero_amt.
  set (A := numberOrZero amount). destruct t as [net vat gross].
  cbn [Triplet.net Triplet.vat Triplet.gross].
  assert (Hfirst : roundedHalfAway2 A net /\ roundedHalfAway2 A gross /\ vat = Fin 0 ->
                   Triplet.mk net vat gross = Triplet.mk (toFixed2 A) (Fin 0) (toFixed2 A)).
  { intros (Hn & Hg & ->).
    rewrite (roundedHalfAway2_toFixed2 _ _ Hn), (roundedHalfAway2_toFixed2 _ _ Hg).
    reflexivity. }
  destruct vatApplicable; cbn [negb orb]; [|exact Hfirst].
  destruct (num_le (num_div vatRate (Fin 100)) (Fin 0)); [exact Hfirst|].
  destruct (strictEqStr amountType (js "net")).
  - intros (Hn & Hv & Hg).
    apply roundedHalfAway2_toFixed2 in Hn, Hv. subst net vat.
    apply roundedHalfAway2_toFixed2 in Hg. subst gross. reflexivity.
  - intros (Hn & Hv & Hg).
    apply roundedHalfAway2_toFixed2 in Hn. subst net.
    apply roundedHalfAway2_toFixed2 in Hv, Hg. subst vat gross. reflexivity.
Qed.

(** C1, as the code has it: [computeTriplet] returns the case analysis of
    the specification, in the arithmetic of JS Numbers and with the gross
    amount of the net case rounded from amount plus VAT; each component is
    rounded to two decimals, a half going away from zero; an amount that
    is no number counts as 0; and the case analysis leaves no other
    triplet. *)
Theorem computeTriplet_case_analysis amount amountType vatRate vatApplicable :
  let c := computeTriplet amount amountType vatRate vatApplicable in
  tripletSpec amount amountType vatRate vatApplicable c /\
  forall t, tripletSpec amount amountType vatRate vatApplicable t -> t = c.
Proof.
  split; [apply computeTriplet_meets_spec|].
  intros t. apply tripletSpec_determines.
Qed.

(** C1 as stated fails: for the net amount 0.125 at 20 percent the code
    returns net 0.13, VAT 0.03 and gross 0.15, rounded from 0.125 + 0.03;
    the rounded net plus the VAT gives 0.16, whether the sum is taken in
    binary64 or exactly. *)
Lemma gross_is_rounded_from_the_amount :
  let t := computeTriplet (ANum (roundToDouble (125 # 1000))) (JStr (js "net")) (Fin 20) true in
  Triplet.net t = roundToDouble (13 # 100) /\
  Triplet.vat t = roundToDouble (3 # 100) /\
  Triplet.gross t = roundToDouble (15 # 100) /\
  toFixed2 (num_add (Triplet.net t) (Triplet.vat t)) = roundToDouble (16 # 100) /\
  toFixed2 (Fin (valueOf (Triplet.net t) + valueOf (Triplet.vat t))) = roundToDouble (16 # 100) /\
  ~ roundedHalfAway2 (num_add (Triplet.net t) (Triplet.vat t)) (Triplet.gross t) /\
  ~ roundedHalfAway2 (Fin (valueOf (Triplet.net t) + valueOf (Triplet.vat t))) (Triplet.gross t).
Proof.
  cbv zeta.
  set (t := computeTriplet _ _ _ _).
  assert (Hn : Triplet.net t = roundToDouble (13 # 100)) by (vm_compute; reflexivity).
  assert (Hv : Triplet.vat t = roundToDouble (3 # 100)) by (vm_compute; reflexivity).
  assert (Hg : Triplet.gross t = roundToDouble (15 # 100)) by (vm_compute; reflexivity).
  assert (H1 : toFixed2 (num_add (Triplet.net t) (Triplet.vat t)) = roundToDouble (16 # 100))
    by (vm_compute; reflexivity).
  assert (H2 : toFixed2 (Fin (valueOf (Triplet.net t) + valueOf (Triplet.vat t)))
               = roundToDouble (16 # 100)) by (vm_compute; reflexivity).
  assert (Hne : roundToDouble (15 # 100) <> roundToDouble (16 # 100))
    by (vm_compute; discriminate).
  split; [exact Hn|]. split; [exact Hv|]. split; [exact Hg|].
  split; [exact H1|]. split; [exact H2|]. split.
  - intros H. apply roundedHalfAway2_toFixed2 in H. congruence.
  - intros H. apply roundedHalfAway2_toFixed2 in H. congruence.
Qed.

End TripletCalculator.

(* ================================================================== *)
(** * The triplet of an amount of ordinary size *)

Section TripletNear.
Open Scope Q_scope.

(** [rate / 100] as a Number, for a rate from 0 to 100. *)
Lemma rate_fraction (rate : Q) :
  0 <= rate -> rate <= 100 ->
  exists r, num_div (Fin rate) (Fin 100) = Fin r /\
            rate / 100 - (1 # 9007199254740992) <= r /\
            r <= rate / 100 + (1 # 9007199254740992) /\ 0 <= r.
Proof.
  intros H0 H100.
  assert (He : rate / 100 == rate * (1 # 100)) by (unfold Qdiv; reflexivity).
  change (num_div (Fin rate) (Fin 100)) with (roundToDouble (rate / 100)).
  destruct (roundToDouble_near (rate / 100) 1 0) as (r & Hr & H1 & H2);
    [lra | lra | reflexivity | lia |].
  pow2_eval.
  exists r. split; [exact Hr|]. split; [exact H1|]. split; [exact H2|].
  pose proof (roundToDouble_nonneg (rate / 100)) as Hs.
  rewrite Hr in Hs. apply Hs. lra.
Qed.

Lemma centAmount_zero (B : Q) : 0 <= B -> centAmount B (Fin 0).
Proof. intros HB. exists 0%Z. split; [reflexivity|]. split; lra. Qed.

(** Without VAT: the rounded amount twice and no VAT. *)
Lemma triplet_flat_case (amount M : Q) :
  - M <= amount -> amount <= M -> M <= 1000000000 ->
  exists net,
    toFixed2 (Fin amount) = Fin net /\
    amount - (1 # 200) - (1 # 1000000) <= net /\
    net <= amount + (1 # 200) + (1 # 1000000) /\
    centAmount (2 * M + 2) (Fin net).
Proof.
  intros Ha1 Ha2 HM.
  destruct (toFixed2_near amount 1000000000 29) as (net & Hnet & Hn1 & Hn2 & n & Hn & Hc1 & Hc2);
    [lra | lra | reflexivity | reflexivity | lia |].
  pow2_eval. exists net. split; [exact Hnet|]. split; [lra|]. split; [lra|].
  exists n. split; [exact Hn|]. split; lra.
Qed.

(** The net case, for an amount up to 10^9 and a rate up to 100: the VAT
    is the amount times the rate and the gross amount is the amount with
    the VAT on top, give or take the roundings to hundredths and the
    binary64 roundings. *)
Lemma triplet_net_case (amount rate M : Q) (amountType : jsval) :
  - M <= amount -> amount <= M -> M <= 1000000000 -> 0 <= rate -> rate <= 100 ->
  num_le (num_div (Fin rate) (Fin 100)) (Fin 0) = false ->
  strictEqStr amountType (js "net") = true ->
  exists net vat gross,
    computeTriplet (ANum (Fin amount)) amountType (Fin rate) true
      = Triplet.mk (Fin net) (Fin vat) (Fin gross) /\
    (amount - (1 # 200) - (1 # 1000000) <= net /\
     net <= amount + (1 # 200) + (1 # 1000000)) /\
    (amount * (rate / 100) - (1 # 200) - (1 # 1000000) <= vat /\
     vat <= amount * (rate / 100) + (1 # 200) + (1 # 1000000)) /\
    (amount + vat - (1 # 200) - (1 # 1000000) <= gross /\
     gross <= amount + vat + (1 # 200) + (1 # 1000000)) /\
    centAmount (2 * M + 2) (Fin net) /\
    centAmount (2 * M + 2) (Fin vat) /\
    centAmount (2 * M + 2) (Fin gross).
Proof.
  intros Ha1 Ha2 HM Hr0 Hr100 Hpos Hnet.
  unfold computeTriplet. cbn [numberOrZero]. rewrite Hpos, Hnet.
  destruct (rate_fraction rate Hr0 Hr100) as (r & Hr & Hr1 & Hr2 & Hr3). rewrite Hr.
  assert (He : rate / 100 == rate * (1 # 100)) by (unfold Qdiv; reflexivity).
  set (rho := rate / 100) in *.
  assert (HM0 : 0 <= M) by lra.
  destruct (triplet_flat_case amount M Ha1 Ha2 HM) as (net & Hnet' & Hn1 & Hn2 & Hcn).
  cbn [num_mul].
  assert (Hprod1 : amount * rho - (1 # 9000000) <= amount * r) by nra.
  assert (Hprod2 : amount * r <= amount * rho + (1 # 9000000)) by nra.
  assert (Hrho1 : - M <= amount * rho) by nra.
  assert (Hrho2 : amount * rho <= M) by nra.
  destruct (roundToDouble_near (amount * r) 1000000001 29) as (p & Hp & Hp1 & Hp2);
    [lra | lra | reflexivity | lia |].
  rewrite Hp. pow2_eval.
  destruct (toFixed2_near p 1000000002 29)
    as (vat & Hvat & Hv1 & Hv2 & nv & Hnv & Hcv1 & Hcv2);
    [lra | lra | reflexivity | reflexivity | lia |].
  rewrite Hvat. cbn [num_add]. pow2_eval.
  destruct (roundToDouble_near (amount + vat) 2000000004 30) as (s & Hs & Hs1 & Hs2);
    [lra | lra | reflexivity | lia |].
  rewrite Hs. pow2_eval.
  destruct (toFixed2_near s 2000000005 30)
    as (gross & Hgross & Hg1 & Hg2 & ng & Hng & Hcg1 & Hcg2);
    [lra | lra | reflexivity | reflexivity | lia |].
  rewrite Hnet', Hgross. pow2_eval.
  exists net, vat, gross. split; [reflexivity|].
  split; [split; lra|]. split; [split; lra|]. split; [split; lra|].
  split; [exact Hcn|]. split.
  - exists nv. split; [exact Hnv|]. split; lra.
  - exists ng. split; [exact Hng|]. split; lra.
Qed.

(** The gross case: the VAT is what the net amount leaves of the amount. *)
Lemma triplet_gross_case (amount rate M : Q) (amountType : jsval) :
  - M <= amount -> amount <= M -> M <= 1000000000 -> 0 <= rate -> rate <= 100 ->
  num_le (num_div (Fin rate) (Fin 100)) (Fin 0) = false ->
  strictEqStr amountType (js "net") = false ->
  exists net vat gross,
    computeTriplet (ANum (Fin amount)) amountType (Fin rate) true
      = Triplet.mk (Fin net) (Fin vat) (Fin gross) /\
    (amount - net - (1 # 200) - (1 # 1000000) <= vat /\
     vat <= amount - net + (1 # 200) + (1 # 1000000)) /\
    (amount - (1 # 200) - (1 # 1000000) <= gross /\
     gross <= amount + (1 # 200) + (1 # 1000000)) /\
    centAmount (2 * M + 2) (Fin net) /\
    centAmount (2 * M + 2) (Fin vat) /\
    centAmount (2 * M + 2) (Fin gross).
Proof.
  intros Ha1 Ha2 HM Hr0 Hr100 Hpos Hnet.
  unfold computeTriplet. cbn [numberOrZero]. rewrite Hpos, Hnet.
  destruct (rate_fraction rate Hr0 Hr100) as (r & Hr & Hr1 & Hr2 & Hr3). rewrite Hr.
  assert (He : rate / 100 == rate * (1 # 100)) by (unfold Qdiv; reflexivity).
  set (rho := rate / 100) in *.
  assert (HM0 : 0 <= M) by lra.
  destruct (triplet_flat_case amount M Ha1 Ha2 HM) as (gross & Hgross & Hg1 & Hg2 & Hcg).
  cbn [num_add].
  destruct (roundToDouble_near (1 + r) 3 1) as (d & Hd & Hd1 & Hd2);
    [lra | lra | reflexivity | lia |].
  rewrite Hd. pow2_eval.
  assert (Hd0 : ~ d == 0) by lra.
  cbn [num_div]. rewrite (Qeq_bool_false d Hd0).
  set (t := amount / d).
  assert (Ht : t * d == amount) by (unfold t; field; exact Hd0).
  assert (Ht1 : - M - 1 <= t) by nra.
  assert (Ht2 : t <= M + 1) by nra.
  destruct (roundToDouble_near t 1000000001 29) as (q & Hq & Hq1 & Hq2);
    [lra | lra | reflexivity | lia |].
  rewrite Hq. pow2_eval.
  destruct (toFixed2_near q 1000000002 29)
    as (net & Hnet' & Hn1 & Hn2 & nn & Hnn & Hcn1 & Hcn2);
    [lra | lra | reflexivity | reflexivity | lia |].
  rewrite Hnet'. cbn [num_sub]. pow2_eval.
  destruct (roundToDouble_near (amount - net) 2000000004 30) as (w & Hw & Hw1 & Hw2);
    [lra | lra | reflexivity | lia |].
  rewrite Hw. pow2_eval.
  destruct (toFixed2_near w 2000000005 30)
    as (vat & Hvat & Hv1 & Hv2 & nv & Hnv & Hcv1 & Hcv2);
    [lra | lra | reflexivity | reflexivity | lia |].
  rewrite Hvat, Hgross. pow2_eval.
  exists net, vat, gross. split; [reflexivity|].
  split; [split; lra|]. split; [split; lra|].
  split; [|split; [|exact Hcg]].
  - exists nn. split; [exact Hnn|]. split; lra.
  - exists nv. split; [exact Hnv|]. split; lra.
Qed.

(** The triplet of an amount of magnitude up to [M], itself up to 10^9, at
    a rate from 0 to 100: three finite decimal amounts with the gross
    amount within a hundredth, and the binary64 roundings, of net plus
    VAT. *)
Lemma computeTriplet_near (amount rate M : Q) (amountType : jsval) (vatApplicable : bool) :
  - M <= amount -> amount <= M -> M <= 1000000000 -> 0 <= rate -> rate <= 100 ->
  exists net vat gross,
    computeTriplet (ANum (Fin amount)) amountType
                   (if vatApplicable then Fin rate else Fin 0) vatApplicable
      = Triplet.mk (Fin net) (Fin vat) (Fin gross) /\
    - (1001 # 100000) <= gross - (net + vat) /\
    gross - (net + vat) <= 1001 # 100000 /\
    centAmount (2 * M + 2) (Fin net) /\
    centAmount (2 * M + 2) (Fin vat) /\
    centAmount (2 * M + 2) (Fin gross).
Proof.
  intros Ha1 Ha2 HM Hr0 Hr100.
  assert (HM0 : 0 <= M) by lra.
  assert (Hflat :
    computeTriplet (ANum (Fin amount)) amountType
                   (if vatApplicable then Fin rate else Fin 0) vatApplicable
    = Triplet.mk (toFixed2 (Fin amount)) (Fin 0) (toFixed2 (Fin amount)) ->
    exists net vat gross,
      computeTriplet (ANum (Fin amount)) amountType
                     (if vatApplicable then Fin rate else Fin 0) vatApplicable
        = Triplet.mk (Fin net) (Fin vat) (Fin gross) /\
      - (1001 # 100000) <= gross - (net + vat) /\
      gross - (net + vat) <= 1001 # 100000 /\
      centAmount (2 * M + 2) (Fin net) /\
      centAmount (2 * M + 2) (Fin vat) /\
      centAmount (2 * M + 2) (Fin gross)).
  { intros ->.
    destruct (triplet_flat_case amount M Ha1 Ha2 HM) as (net & Hnet & _ & _ & Hc).
    rewrite Hnet. exists net, 0, net. split; [reflexivity|].
    split; [lra|]. split; [lra|].
    split; [exact Hc|]. split; [apply centAmount_zero; lra | exact Hc]. }
  destruct vatApplicable; [|apply Hflat; reflexivity].
  destruct (num_le (num_div (Fin rate) (Fin 100)) (Fin 0)) eqn:Hle.
  - apply Hflat. unfold computeTriplet. rewrite Hle. reflexivity.
  - destruct (strictEqStr amountType (js "net")) eqn:Hty.
    + destruct (triplet_net_case amount rate M amountType Ha1 Ha2 HM Hr0 Hr100 Hle Hty)
        as (net & vat & gross & H & [Hn1 Hn2] & _ & [Hg1 Hg2] & Hc).
      exists net, vat, gross. split; [exact H|]. split; [lra|]. split; [lra | exact Hc].
    + destruct (triplet_gross_case amount rate M amountType Ha1 Ha2 HM Hr0 Hr100 Hle Hty)
        as (net & vat & gross & H & [Hv1 Hv2] & [Hg1 Hg2] & Hc).
      exists net, vat, gross. split; [exact H|]. split; [lra|]. split; [lra | exact Hc].
Qed.

End TripletNear.

(* ================================================================== *)
(** * From the gross amount back to the net amount *)

Section RoundTrip.
Open Scope Q_scope.

(** The gross amount of the net case against the amount with the VAT on
    top, for an amount up to 10^9 and a rate from 0 to 100. *)
Lemma net_case_gross (amount rate : Q) :
  - (1000000000) <= amount -> amount <= 1000000000 -> 0 <= rate -> rate <= 100 ->
  exists net gross,
    Triplet.net (computeTriplet (ANum (Fin amount)) (JStr (js "net")) (Fin rate) true)
    = Fin net /\
    Triplet.gross (computeTriplet (ANum (Fin amount)) (JStr (js "net")) (Fin rate) true)
    = Fin gross /\
    amount - (1 # 200) - (1 # 1000000) <= net /\
    net <= amount + (1 # 200) + (1 # 1000000) /\
    amount * (1 + rate / 100) - (1 # 100) - (2 # 1000000) <= gross /\
    gross <= amount * (1 + rate / 100) + (1 # 100) + (2 # 1000000).
Proof.
  intros Ha1 Ha2 Hr0 Hr100.
  assert (He : rate / 100 == rate * (1 # 100)) by (unfold Qdiv; reflexivity).
  assert (HM : 1000000000 <= 1000000000) by lra.
  destruct (num_le (num_div (Fin rate) (Fin 100)) (Fin 0)) eqn:Hle.
  - unfold computeTriplet. rewrite Hle. cbn [Triplet.net Triplet.gross numberOrZero].
    destruct (rate_fraction rate Hr0 Hr100) as (r & Hr & H1 & H2 & H3).
    rewrite Hr in Hle. cbn [num_le] in Hle. apply Qle_bool_iff in Hle.
    destruct (triplet_flat_case amount 1000000000 Ha1 Ha2 HM) as (net & Hnet & Hn1 & Hn2 & _).
    exists net, net. split; [exact Hnet|]. split; [exact Hnet|].
    set (rho := rate / 100) in *.
    assert (Hrho : rho <= 1 # 9007199254740992) by lra.
    assert (Hrho0 : 0 <= rho) by lra.
    split; [lra|]. split; [lra|]. split; nra.
  - destruct (triplet_net_case amount rate 1000000000 (JStr (js "net"))
                Ha1 Ha2 HM Hr0 Hr100 Hle eq_refl)
      as (net & vat & gross & Ht & [Hn1 Hn2] & [Hv1 Hv2] & [Hg1 Hg2] & _).
    rewrite Ht. cbn [Triplet.net Triplet.gross]. exists net, gross.
    split; [reflexivity|]. split; [reflexivity|].
    set (rho := rate / 100) in *. split; [lra|]. split; [lra|]. split; lra.
Qed.

(** C7, as the code has it: for an amount of magnitude up to 10^9 and a
    VAT rate above 0 and up to 100, the gross amount [computeTriplet]
    returns for a net amount, divided by [1 + rate/100], is within 0.01 of
    the amount, give or take a binary64 rounding error below 0.000003,
    whether the quotient and the difference are taken exactly or as
    Numbers; from the rate 1 on it is within 0.01 in both readings.  The
    rounded net amount the function returns is met within 0.015 only. *)
Theorem net_gross_round_trip (amount rate : Q) :
  Qabs amount <= 1000000000 -> 0 < rate -> rate <= 100 ->
  exists net gross back,
    Triplet.net (computeTriplet (ANum (Fin amount)) (JStr (js "net")) (Fin rate) true)
    = Fin net /\
    Triplet.gross (computeTriplet (ANum (Fin amount)) (JStr (js "net")) (Fin rate) true)
    = Fin gross /\
    Qabs (gross / (1 + rate / 100) - amount) <= (1 # 100) + (3 # 1000000) /\
    num_sub (num_div (Fin gross) (num_add (Fin 1) (num_div (Fin rate) (Fin 100))))
            (Fin amount) = Fin back /\
    Qabs back <= (1 # 100) + (3 # 1000000) /\
    (1 <= rate ->
     Qabs (gross / (1 + rate / 100) - amount) <= 1 # 100 /\ Qabs back <= 1 # 100) /\
    Qabs (gross / (1 + rate / 100) - net) <= (15 # 1000) + (3 # 1000000).
Proof.
  intros Ha Hr0 Hr100.
  apply Qabs_Qle_condition in Ha. destruct Ha as [Ha1 Ha2].
  assert (He : rate / 100 == rate * (1 # 100)) by (unfold Qdiv; reflexivity).
  destruct (net_case_gross amount rate Ha1 Ha2 ltac:(lra) Hr100)
    as (net & gross & Hn & Ht & Hn1 & Hn2 & HE1 & HE2).
  destruct (rate_fraction rate ltac:(lra) Hr100) as (r & Hr & Hr1 & Hr2 & Hr3).
  rewrite Hn, Ht, Hr. set (rho := rate / 100) in *.
  assert (Hrho : 0 < rho) by lra.
  set (g := gross / (1 + rho)).
  assert (Hg : g * (1 + rho) == gross) by (unfold g; field; lra).
  assert (Hlo : - (1 # 100) - (2 # 1000000) <= (g - amount) * (1 + rho))
    by (ring_simplify; lra).
  assert (Hhi : (g - amount) * (1 + rho) <= (1 # 100) + (2 # 1000000))
    by (ring_simplify; lra).
  assert (Hg1 : - (1 # 100) - (2 # 1000000) <= g - amount) by nra.
  assert (Hg2 : g - amount <= (1 # 100) + (2 # 1000000)) by nra.
  assert (Hfloat : exists back,
            num_sub (num_div (Fin gross) (num_add (Fin 1) (Fin r))) (Fin amount) = Fin back /\
            g - amount - (1 # 1000000) <= back /\ back <= g - amount + (1 # 1000000)).
  { cbn [num_add].
    destruct (roundToDouble_near (1 + r) 3 1) as (d & Hd & Hd1 & Hd2);
      [lra | lra | reflexivity | lia |].
    rewrite Hd. pow2_eval.
    assert (Hd0 : ~ d == 0) by lra.
    cbn [num_div]. rewrite (Qeq_bool_false d Hd0).
    set (x := gross / d).
    assert (Hx : x * d == gross) by (unfold x; field; exact Hd0).
    assert (Hgb1 : - (1000000001) <= g) by lra.
    assert (Hgb2 : g <= 1000000001) by lra.
    assert (Hdlo : (99 # 100) <= d) by lra.
    assert (Hdd1 : - (1 # 2500000000000000) <= (1 + rho) - d) by lra.
    assert (Hdd2 : (1 + rho) - d <= 1 # 2500000000000000) by lra.
    assert (Hxd : (x - g) * d == g * ((1 + rho) - d))
      by (ring_simplify; rewrite Hx, <- Hg; ring).
    assert (Hp1 : - (1 # 2000000) <= g * ((1 + rho) - d)) by nra.
    assert (Hp2 : g * ((1 + rho) - d) <= 1 # 2000000) by nra.
    assert (Hx1 : - (1 # 1900000) <= x - g) by nra.
    assert (Hx2 : x - g <= 1 # 1900000) by nra.
    destruct (roundToDouble_near x 1000000002 29) as (q & Hq & Hq1 & Hq2);
      [lra | lra | reflexivity | lia |].
    rewrite Hq. pow2_eval. cbn [num_sub].
    destruct (roundToDouble_near (q - amount) 1 0) as (back & Hback & Hb1 & Hb2);
      [lra | lra | reflexivity | lia |].
    pow2_eval. exists back. split; [exact Hback|]. split; lra. }
  destruct Hfloat as (back & Hback & Hb1 & Hb2).
  exists net, gross, back. fold rho. fold g.
  split; [reflexivity|]. split; [reflexivity|].
  split; [apply Qabs_Qle_condition; split; lra|].
  split; [exact Hback|].
  split; [apply Qabs_Qle_condition; split; lra|].
  split; [|apply Qabs_Qle_condition; split; lra].
  intros Hone.
  assert (Hrho1 : 1 # 100 <= rho) by lra.
  assert (Hs1 : - (991 # 100000) <= g - amount) by nra.
  assert (Hs2 : g - amount <= 991 # 100000) by nra.
  split; apply Qabs_Qle_condition; split; lra.
Qed.

(** C7 as stated fails.  For the net amount 1125899906842627 at 20
    percent the code returns the gross amount 1351079888211152.5; divided
    by 1.2 it misses the amount by a twelfth when the quotient is exact,
    and by a quarter when it is taken in binary64.  For the net amount
    123560236.885 at the rate 4.0466092701437605e-9 the code returns the
    gross amount 123560236.9, and dividing it by [1 + rate/100] misses the
    amount by more than 0.01, exactly and in Numbers.  And for the net
    amount 0.125 at the rate 27.99 the code returns net 0.13 and gross
    0.15, and 0.15 / 1.2799 misses the net amount returned by more than
    0.01. *)
Lemma round_trip_misses_the_amount :
  let amount := 1125899906842627 in
  let t := computeTriplet (ANum (Fin amount)) (JStr (js "net")) (Fin 20) true in
  let t' := computeTriplet (ANum (Fin tieAmount)) (JStr (js "net")) (Fin tinyRate) true in
  let t'' := computeTriplet (ANum (Fin (1 # 8))) (JStr (js "net")) (Fin oddRate) true in
  Triplet.gross t = Fin (2702159776422305 # 2) /\
  (2702159776422305 # 2) / (1 + 20 / 100) - amount == 1 # 12 /\
  ~ Qabs ((2702159776422305 # 2) / (1 + 20 / 100) - amount) <= 1 # 100 /\
  num_sub (num_div (Triplet.gross t) (num_add (Fin 1) (num_div (Fin 20) (Fin 100))))
          (Fin amount) = Fin (1 # 4) /\
  Fin tieAmount = roundToDouble (123560236885 # 1000) /\
  Fin tinyRate = roundToDouble (40466092701437605 # 10000000000000000000000000) /\
  Triplet.gross t' = roundToDouble (12356023690 # 100) /\
  ~ Qabs (valueOf (Triplet.gross t') / (1 + tinyRate / 100) - tieAmount) <= 1 # 100 /\
  ~ Qabs (valueOf (num_sub (num_div (Triplet.gross t')
                                    (num_add (Fin 1) (num_div (Fin tinyRate) (Fin 100))))
                           (Fin tieAmount)))
    <= 1 # 100 /\
  Fin oddRate = roundToDouble (2799 # 100) /\
  Triplet.net t'' = roundToDouble (13 # 100) /\
  Triplet.gross t'' = roundToDouble (15 # 100) /\
  ~ Qabs (valueOf (Triplet.gross t'') / (1 + oddRate / 100) - valueOf (Triplet.net t''))
    <= 1 # 100 /\
  ~ Qabs (valueOf (num_sub (num_div (Triplet.gross t'')
                                    (num_add (Fin 1) (num_div (Fin oddRate) (Fin 100))))
                           (Triplet.net t'')))
    <= 1 # 100.
Proof.
  cbv zeta. repeat split; try (vm_compute; reflexivity);
    intros H; vm_compute in H; apply H; reflexivity.
Qed.

End RoundTrip.

(* ================================================================== *)
(** * The entry builder *)

Section EntryBuilder.
Open Scope Z_scope.

(** What a successful call of [enrichLineWithAI] has computed. *)
Lemma enrichLineWithAI_Ok today outcome line defaults e :
  enrichLineWithAI today outcome line defaults = Ok e ->
  exists (amount_type : jsval) (vat_applicable saidWithVAT : bool) (dAT dVA : jsval),
    resolveVAT (Line.type line) saidWithVAT
      (saysWithoutVAT (Line.raw line ++ js " " ++ Line.rest line)) dAT dVA
      = (amount_type, vat_applicable) /\
    let t := computeTriplet (ANum (Fin (Line.amount line))) amount_type
               (if vat_applicable then Fin (Settings.vatRate defaults) else Fin 0)
               vat_applicable in
    Entry.type e = Line.type line /\
    Entry.net e = Triplet.net t /\
    Entry.vat e = Triplet.vat t /\
    Entry.gross e = Triplet.gross t /\
    Entry.vat_collected e =
      match Line.type line with income => Triplet.vat t | expense => Fin 0 end /\
    Entry.vat_deductible e =
      match Line.type line with
      | expense => if vat_applicable then Triplet.vat t else Fin 0
      | income => Fin 0
      end /\
    Entry.date e =
      toISO today
        match detectExplicitDate (Line.raw line) with
        | Some d => Some d
        | None => detectExplicitDate (Line.rest line)
        end.
Proof.
  unfold enrichLineWithAI. intros H.
  destruct outcome as [| | data]; [discriminate | |].
  - cbn [getField] in H.
    destruct (resolveVAT _ _ _ _ _) as [amount_type vat_applicable] eqn:Hres.
    injection H as <-.
    exists amount_type, vat_applicable. do 3 eexists.
    split; [exact Hres|]. cbn. repeat split; reflexivity.
  - destruct (getField data (js "amount_type")) as [dAT|]; [|discriminate].
    destruct (getField data (js "vat_applicable")) as [dVA|]; [|discriminate].
    destruct (getField data (js "category")) as [dCat|]; [|discriminate].
    destruct (getField data (js "description")) as [dDesc|]; [|discriminate].
    destruct (resolveVAT _ _ _ _ _) as [amount_type vat_applicable] eqn:Hres.
    injection H as <-.
    exists amount_type, vat_applicable. do 3 eexists.
    split; [exact Hres|]. cbn. repeat split; reflexivity.
Qed.

(** The figures of an entry built from an amount of magnitude up to [M],
    itself up to 10^9, at a rate from 0 to 100. *)
Lemma built_entry_near today outcome line defaults e (M : Q) :
  (- M <= Line.amount line)%Q -> (Line.amount line <= M)%Q -> (M <= 1000000000)%Q ->
  (0 <= Settings.vatRate defaults)%Q -> (Settings.vatRate defaults <= 100)%Q ->
  enrichLineWithAI today outcome line defaults = Ok e ->
  exists net vat gross,
    Entry.net e = Fin net /\ Entry.vat e = Fin vat /\ Entry.gross e = Fin gross /\
    (- (1001 # 100000) <= gross - (net + vat))%Q /\
    (gross - (net + vat) <= 1001 # 100000)%Q /\
    centAmount (2 * M + 2) (Entry.net e) /\
    centAmount (2 * M + 2) (Entry.vat e) /\
    centAmount (2 * M + 2) (Entry.gross e) /\
    centAmount (2 * M + 2) (Entry.vat_collected e) /\
    centAmount (2 * M + 2) (Entry.vat_deductible e).
Proof.
  intros Ha1 Ha2 HM Hr0 Hr100 H.
  destruct (enrichLineWithAI_Ok _ _ _ _ _ H)
    as (amount_type & vat_applicable & _ & _ & _ & _ & Hfields).
  cbv zeta in Hfields.
  destruct Hfields as (_ & Hnet & Hvat & Hgross & Hcol & Hded & _).
  destruct (computeTriplet_near (Line.amount line) (Settings.vatRate defaults) M
              amount_type vat_applicable Ha1 Ha2 HM Hr0 Hr100)
    as (net & vat & gross & Ht & Hlo & Hhi & Hcn & Hcv & Hcg).
  rewrite Ht in *. cbn [Triplet.net Triplet.vat Triplet.gross] in *.
  assert (Hzero : centAmount (2 * M + 2) (Fin 0)) by (apply centAmount_zero; lra).
  exists net, vat, gross.
  split; [exact Hnet|]. split; [exact Hvat|]. split; [exact Hgross|].
  split; [exact Hlo|]. split; [exact Hhi|].
  rewrite Hnet, Hvat, Hgross, Hcol, Hded.
  split; [exact Hcn|]. split; [exact Hcv|]. split; [exact Hcg|]. split.
  - destruct (Line.type line); assumption.
  - destruct (Line.type line); [assumption|]. destruct vat_applicable; assumption.
Qed.

(** C3, as the code has it: for an amount of magnitude up to 10^9 and a
    VAT rate from 0 to 100, the entry the entry builder produces has three
    finite figures with [gross = net + vat] within 0.01 and a binary64
    rounding error below 0.00002, whether the difference is taken exactly
    or as Numbers. *)
Theorem entry_gross_is_net_plus_vat today outcome line defaults e :
  (Qabs (Line.amount line) <= 1000000000)%Q ->
  (0 <= Settings.vatRate defaults)%Q -> (Settings.vatRate defaults <= 100)%Q ->
  enrichLineWithAI today outcome line defaults = Ok e ->
  exists net vat gross difference,
    Entry.net e = Fin net /\ Entry.vat e = Fin vat /\ Entry.gross e = Fin gross /\
    (Qabs (gross - (net + vat)) <= (1 # 100) + (2 # 100000))%Q /\
    num_sub (Entry.gross e) (num_add (Entry.net e) (Entry.vat e)) = Fin difference /\
    (Qabs difference <= (1 # 100) + (2 # 100000))%Q.
Proof.
  intros Ha Hr0 Hr100 H.
  apply Qabs_Qle_condition in Ha. destruct Ha as [Ha1 Ha2].
  assert (HM : (1000000000 <= 1000000000)%Q) by lra.
  destruct (built_entry_near today outcome line defaults e 1000000000
              Ha1 Ha2 HM Hr0 Hr100 H)
    as (net & vat & gross & Hn & Hv & Hg & Hlo & Hhi & Hcn & Hcv & Hcg & _).
  assert (HB : (2 * 1000000000 + 2 <= 2147483647)%Q) by lra.
  rewrite Hn in Hcn. rewrite Hv in Hcv. rewrite Hg in Hcg.
  destruct (centAmount_near _ _ Hcn HB) as (net' & [= <-] & _ & Hn1 & Hn2 & Hn3 & Hn4).
  destruct (centAmount_near _ _ Hcv HB) as (vat' & [= <-] & _ & Hv1 & Hv2 & Hv3 & Hv4).
  destruct (centAmount_near _ _ Hcg HB) as (gross' & [= <-] & _ & Hg1 & Hg2 & Hg3 & Hg4).
  rewrite Hn, Hv, Hg. cbn [num_add].
  destruct (roundToDouble_near (net + vat) 4294967295 31) as (s & Hs & Hs1 & Hs2);
    [lra | lra | pow2_eval; lra | lia |].
  rewrite Hs. cbn [num_sub]. pow2_eval.
  destruct (roundToDouble_near (gross - s) 8589934591 32) as (d & Hd & Hd1 & Hd2);
    [lra | lra | pow2_eval; lra | lia |].
  pow2_eval. exists net, vat, gross, d.
  split; [reflexivity|]. split; [reflexivity|]. split; [reflexivity|].
  split; [apply Qabs_Qle_condition; split; lra|].
  split; [exact Hd|].
  apply Qabs_Qle_condition; split; lra.
Qed.

(** An unparseable answer counts as the empty object, and the entry is
    built from the cues and the defaults. *)
Lemma unparseable_answer_falls_back today line defaults :
  enrichLineWithAI today Unparseable line defaults
  = enrichLineWithAI today (Parsed (JObj [])) line defaults /\
  exists e, enrichLineWithAI today Unparseable line defaults = Ok e.
Proof.
  split; [reflexivity|].
  unfold enrichLineWithAI. cbn [getField].
  destruct (resolveVAT _ _ _ _ _). eexists. reflexivity.
Qed.

End EntryBuilder.

(* ================================================================== *)
(** * The cues in the text *)

Section Cues.
Open Scope Z_scope.

Lemma upperUnit_inv (c k : Z) :
  upperUnit c = k ->
  c = k \/ c = k + 32 \/ c = k + 80 \/ (c = 7296 /\ k = 1042) \/ (c = 7297 /\ k = 1044).
Proof.
  unfold upperUnit. repeat case_match; lia.
Qed.

Lemma upper_of_blank (c : Z) : upperUnit 32 = upperUnit c -> c = 32.
Proof.
  intros H. change (upperUnit 32) with 32 in H. symmetry in H.
  destruct (upperUnit_inv _ _ H) as [-> | [-> | [-> | [[-> ?] | [-> ?]]]]];
    first [reflexivity | discriminate].
Qed.

Lemma upper_pe_not_space (c : Z) : upperUnit 1087 = upperUnit c -> isSpace c = false.
Proof.
  intros H. change (upperUnit 1087) with 1055 in H. symmetry in H.
  destruct (upperUnit_inv _ _ H) as [-> | [-> | [-> | [[-> ?] | [-> ?]]]]];
    first [reflexivity | discriminate].
Qed.

Lemma matchCI_app (pat w s : jsstring) :
  sameIgnoringCase pat w -> matchCI pat (w ++ s) = Some s.
Proof.
  induction 1 as [| p c pat w Hpc _ IH]; [reflexivity|].
  cbn. unfold canonEq. rewrite Hpc, Z.eqb_refl. exact IH.
Qed.

Lemma testAnywhere_app (at_ : jsstring -> bool) (pre s : jsstring) :
  at_ s = true -> testAnywhere at_ (pre ++ s) = true.
Proof.
  intros H. induction pre as [| c pre IH]; cbn.
  - destruct s; cbn; rewrite H; reflexivity.
  - rewrite IH. apply orb_true_r.
Qed.

(** The phrase "без ПДВ", in any letter case, is matched by the
    without-VAT pattern wherever it stands. *)
Lemma phrase_matches (w post : jsstring) :
  sameIgnoringCase (js "без ПДВ") w ->
  phraseAt (js "без") (js "пдв") (w ++ post) = true.
Proof.
  intros H.
  change (js "без ПДВ") with (js "без" ++ [32] ++ js "ПДВ") in H.
  apply Forall2_app_inv_l in H as (w1 & w' & H1 & H' & ->).
  apply Forall2_app_inv_l in H' as (sp & w2 & Hsp & H2 & ->).
  apply Forall2_cons_inv_l in Hsp as (c & nil_ & Hc & Hnil & ->).
  apply Forall2_nil_inv_l in Hnil as ->.
  apply upper_of_blank in Hc as ->.
  assert (H2' : sameIgnoringCase (js "пдв") w2).
  { unfold sameIgnoringCase in *.
    apply Forall2_cons_inv_l in H2 as (c1 & t1 & ? & H2 & ->).
    apply Forall2_cons_inv_l in H2 as (c2 & t2 & ? & H2 & ->).
    apply Forall2_cons_inv_l in H2 as (c3 & t3 & ? & H2 & ->).
    apply Forall2_nil_inv_l in H2 as ->.
    repeat constructor; assumption. }
  unfold phraseAt.
  rewrite <- !app_assoc, (matchCI_app _ _ _ H1).
  cbn [app dropSpaces]. change (isSpace 32) with true. cbv iota.
  assert (Hdrop : dropSpaces (w2 ++ post) = w2 ++ post).
  { apply Forall2_cons_inv_l in H2' as (c1 & t1 & Hc1 & _ & ->).
    cbn. rewrite (upper_pe_not_space _ Hc1). reflexivity. }
  rewrite Hdrop, (matchCI_app _ _ _ H2'). reflexivity.
Qed.

Lemma contains_phrase_says_without (raw rest : jsstring) :
  containsIgnoringCase (js "без ПДВ") raw \/ containsIgnoringCase (js "без ПДВ") rest ->
  saysWithoutVAT (raw ++ js " " ++ rest) = true.
Proof.
  unfold saysWithoutVAT.
  intros [(pre & w & post & -> & Hw) | (pre & w & post & -> & Hw)].
  - rewrite <- !app_assoc. apply testAnywhere_app, phrase_matches, Hw.
  - rewrite !app_assoc. rewrite <- (app_assoc _ w post).
    apply testAnywhere_app, phrase_matches, Hw.
Qed.

(** With the without-VAT cue the VAT flag is off and the amount is net,
    whatever the classifier answered and whatever else the text says. *)
Lemma resolveVAT_without (type : txType) (saidWithVAT : bool) (dAT dVA : jsval) :
  resolveVAT type saidWithVAT true dAT dVA = (JStr (js "net"), false).
Proof.
  unfold resolveVAT. destruct saidWithVAT, type; reflexivity.
Qed.

(** C4: for every line whose text contains "без ПДВ" in any letter case,
    the entry is built with [vat_applicable = false] and
    [amount_type = "net"], whatever the classifier returned: the VAT of
    the entry is 0 and its net and gross are the rounded amount. *)
Theorem without_vat_cue_wins today outcome line defaults e :
  containsIgnoringCase (js "без ПДВ") (Line.raw line) \/
  containsIgnoringCase (js "без ПДВ") (Line.rest line) ->
  enrichLineWithAI today outcome line defaults = Ok e ->
  (forall saidWithVAT dAT dVA,
     resolveVAT (Line.type line) saidWithVAT
       (saysWithoutVAT (Line.raw line ++ js " " ++ Line.rest line)) dAT dVA
     = (JStr (js "net"), false)) /\
  Entry.net e = toFixed2 (Fin (Line.amount line)) /\
  Entry.vat e = Fin 0 /\
  Entry.gross e = toFixed2 (Fin (Line.amount line)) /\
  Entry.vat_collected e = Fin 0 /\
  Entry.vat_deductible e = Fin 0.
Proof.
  intros Hcue H.
  apply contains_phrase_says_without in Hcue.
  split; [intros; rewrite Hcue; apply resolveVAT_without|].
  destruct (enrichLineWithAI_Ok _ _ _ _ _ H)
    as (amount_type & vat_applicable & saidWith & dAT & dVA & Hres & Hfields).
  rewrite Hcue, resolveVAT_without in Hres. injection Hres as <- <-.
  cbv zeta in Hfields.
  destruct Hfields as (_ & -> & -> & -> & -> & -> & _).
  destruct (Line.type line); repeat split; reflexivity.
Qed.

End Cues.

(* ================================================================== *)
(** * Date resolution *)

Section Dates.
Open Scope Z_scope.

Lemma takeDigits_spec (n : nat) (s d r : jsstring) :
  takeDigits n s = Some (d, r) ->
  s = d ++ r /\ length d = n /\ forallb isDigit d = true.
Proof.
  revert s d r. induction n as [| n IH]; intros s d r H; cbn in H.
  - injection H as <- <-. repeat split.
  - destruct s as [| c s]; [discriminate|].
    destruct (isDigit c) eqn:Hc; [|discriminate].
    destruct (takeDigits n s) as [[d' r']|] eqn:Ht; [|discriminate].
    injection H as <- <-.
    destruct (IH _ _ _ Ht) as (-> & <- & Hd).
    cbn. rewrite Hc, Hd. repeat split.
Qed.

Lemma takeDigits_app (n : nat) (d r : jsstring) :
  length d = n -> forallb isDigit d = true -> takeDigits n (d ++ r) = Some (d, r).
Proof.
  intros <-. induction d as [| c d IH]; cbn; [reflexivity|].
  intros H. apply andb_true_iff in H as [Hc Hd].
  rewrite Hc, (IH Hd). reflexivity.
Qed.

(** Three groups of digits of the lengths of a date are what the shape
    test of [toISO] accepts. *)
Lemma isoShape_build (y m d : jsstring) :
  length y = 4%nat -> length m = 2%nat -> length d = 2%nat ->
  forallb isDigit y = true -> forallb isDigit m = true -> forallb isDigit d = true ->
  isoShape (y ++ dash :: m ++ dash :: d) = true.
Proof.
  intros Ly Lm Ld Hy Hm Hd. unfold isoShape.
  rewrite (takeDigits_app 4 y _ Ly Hy). cbn [andb Z.eqb dash Pos.eqb].
  rewrite (takeDigits_app 2 m _ Lm Hm). cbn [andb Z.eqb dash Pos.eqb].
  rewrite <- (app_nil_r d), (takeDigits_app 2 d _ Ld Hd). reflexivity.
Qed.

Lemma tripleAt_spec (a b c : nat) (sep : Z) prev s g1 g2 g3 :
  tripleAt a b c sep prev s = Some (g1, g2, g3) ->
  (length g1 = a /\ forallb isDigit g1 = true) /\
  (length g2 = b /\ forallb isDigit g2 = true) /\
  (length g3 = c /\ forallb isDigit g3 = true) /\
  exists after, s = g1 ++ sep :: g2 ++ sep :: g3 ++ after.
Proof.
  unfold tripleAt. intros H.
  destruct (wordBoundary prev s); [|discriminate].
  destruct (takeDigits a s) as [[x1 [| c1 s1]]|] eqn:H1; try discriminate.
  destruct (c1 =? sep) eqn:E1; [|discriminate]. apply Z.eqb_eq in E1 as ->.
  destruct (takeDigits b s1) as [[x2 [| c2 s2]]|] eqn:H2; try discriminate.
  destruct (c2 =? sep) eqn:E2; [|discriminate]. apply Z.eqb_eq in E2 as ->.
  destruct (takeDigits c s2) as [[x3 s3]|] eqn:H3; [|discriminate].
  destruct (wordBoundary (last x3) s3); [|discriminate].
  injection H as <- <- <-.
  apply takeDigits_spec in H1 as (-> & ? & ?).
  apply takeDigits_spec in H2 as (-> & ? & ?).
  apply takeDigits_spec in H3 as (-> & ? & ?).
  repeat split; try assumption. exists s3. reflexivity.
Qed.

(** [matchFirst] returns the match at the leftmost position that has one. *)
Lemma matchFirst_leftmost {A} (at_ : option Z -> jsstring -> option A) prev s r :
  matchFirst at_ prev s = Some r <->
  exists pre suf,
    s = pre ++ suf /\ at_ (unitBefore prev pre) suf = Some r /\
    forall pre' suf', s = pre' ++ suf' -> (length pre' < length pre)%nat ->
      at_ (unitBefore prev pre') suf' = None.
Proof.
  revert prev. induction s as [| c s IH]; intros prev; cbn.
  - split.
    + destruct (at_ prev []) eqn:E; [|discriminate].
      intros [= ->]. exists [], []. repeat split; [exact E|].
      intros pre' suf' _ Hlen. cbn in Hlen. lia.
    + intros (pre & suf & Heq & Hat & _).
      symmetry in Heq. apply app_eq_nil in Heq as [-> ->].
      cbn in Hat. rewrite Hat. reflexivity.
  - split.
    + destruct (at_ prev (c :: s)) eqn:E.
      * intros [= ->]. exists [], (c :: s). repeat split; [exact E|].
        intros pre' suf' _ Hlen. cbn in Hlen. lia.
      * intros H. apply IH in H as (pre & suf & -> & Hat & Hleft).
        exists (c :: pre), suf. repeat split.
        -- unfold unitBefore in *. rewrite last_cons.
           destruct (last pre); exact Hat.
        -- intros pre' suf' Heq Hlen.
           destruct pre' as [| c' pre']; cbn in Heq.
           ++ subst suf'. exact E.
           ++ injection Heq as <- Heq.
              specialize (Hleft pre' suf' Heq). cbn in Hlen.
              unfold unitBefore in *. rewrite last_cons.
              destruct (last pre'); apply Hleft; lia.
    + intros (pre & suf & Heq & Hat & Hleft).
      destruct pre as [| c' pre]; cbn in Heq.
      * subst suf. cbn in Hat. rewrite Hat. reflexivity.
      * injection Heq as <- ->.
        assert (E : at_ prev (c :: pre ++ suf) = None).
        { apply (Hleft [] (c :: pre ++ suf)); [reflexivity | cbn; lia]. }
        rewrite E. apply IH. exists pre, suf. repeat split.
        -- unfold unitBefore in *. rewrite last_cons in Hat.
           destruct (last pre); exact Hat.
        -- intros pre' suf' Heq Hlen.
           specialize (Hleft (c :: pre') suf').
           unfold unitBefore in *. rewrite last_cons in Hleft.
           destruct (last pre'); apply Hleft; cbn; (congruence || lia).
Qed.

Lemma matchFirst_at {A} (at_ : option Z -> jsstring -> option A) prev s r :
  matchFirst at_ prev s = Some r -> exists prev' s', at_ prev' s' = Some r.
Proof.
  intros H. apply matchFirst_leftmost in H as (pre & suf & _ & H & _).
  eauto.
Qed.

(** A date [detectExplicitDate] returns has the shape [toISO] lets
    through. *)
Lemma detectExplicitDate_shape (text d : jsstring) :
  detectExplicitDate text = Some d -> isoShape d = true.
Proof.
  unfold detectExplicitDate, matchISO, matchDotted. intros H.
  destruct text as [| c text]; [discriminate|].
  destruct (matchFirst (tripleAt 4 2 2 dash) None (c :: text))
    as [[[y m] dd]|] eqn:Hiso.
  - injection H as <-.
    apply matchFirst_at in Hiso as (prev' & s' & Hat).
    apply tripleAt_spec in Hat as ((? & ?) & (? & ?) & (? & ?) & _).
    apply isoShape_build; assumption.
  - destruct (matchFirst (tripleAt 2 2 4 dot) None (c :: text))
      as [[[dd m] y]|] eqn:Hdot; [|discriminate].
    injection H as <-.
    apply matchFirst_at in Hdot as (prev' & s' & Hat).
    apply tripleAt_spec in Hat as ((? & ?) & (? & ?) & (? & ?) & _).
    apply isoShape_build; assumption.
Qed.

Lemma toISO_shape (today : jsstring) (dateLike : option jsstring) :
  isoShape today = true -> isoShape (toISO today dateLike) = true.
Proof.
  intros Ht. unfold toISO.
  destruct dateLike as [s|]; [|exact Ht].
  destruct (isoShape s) eqn:E; [exact E | exact Ht].
Qed.

(** C5, as the code has it: the ISO pattern is tried first and the dotted
    day-first pattern second, the first that matches decides and the
    dotted date is turned round; with the current date as fallback the
    resolution always returns, and what it returns always has the form
    [YYYY-MM-DD] of four, two and two digits.  The digits are not checked
    against the calendar. *)
Theorem date_resolution_shape (today text : jsstring) :
  isoShape today = true ->
  (forall y m d, matchISO text = Some (y, m, d) ->
     detectExplicitDate text = Some (y ++ dash :: m ++ dash :: d)) /\
  (matchISO text = None -> forall d m y, matchDotted text = Some (d, m, y) ->
     detectExplicitDate text = Some (y ++ dash :: m ++ dash :: d)) /\
  (matchISO text = None -> matchDotted text = None ->
     detectExplicitDate text = None) /\
  (forall d, detectExplicitDate text = Some d -> toISO today (Some d) = d) /\
  isoShape (toISO today (detectExplicitDate text)) = true.
Proof.
  intros Ht. repeat split.
  - intros y m d H. destruct text; [discriminate|].
    unfold detectExplicitDate. rewrite H. reflexivity.
  - intros Hiso d m y H. destruct text; [discriminate|].
    unfold detectExplicitDate. rewrite Hiso, H. reflexivity.
  - intros Hiso Hdot. destruct text; [reflexivity|].
    unfold detectExplicitDate. rewrite Hiso, Hdot. reflexivity.
  - intros d H. unfold toISO.
    rewrite (detectExplicitDate_shape _ _ H). reflexivity.
  - apply toISO_shape, Ht.
Qed.

Lemma date_resolution_shape_witness :
  isoShape (js "2025-06-15") = true /\
  isoShape (toISO (js "2025-06-15") (detectExplicitDate (js "-40 taxi 03.02.2025"))) = true.
Proof.
  split; [reflexivity|].
  apply (date_resolution_shape (js "2025-06-15") (js "-40 taxi 03.02.2025")).
  reflexivity.
Defined.

(** C5 as stated fails: a thirteenth month with a forty-fifth day goes
    through the resolution as it is typed. *)
Lemma date_resolution_not_calendar :
  validCalendarDate (js "2025-06-15") = true /\
  toISO (js "2025-06-15") (detectExplicitDate (js "+100 eur 2025-13-45"))
    = js "2025-13-45" /\
  validCalendarDate
    (toISO (js "2025-06-15") (detectExplicitDate (js "+100 eur 2025-13-45"))) = false.
Proof. repeat split; vm_compute; reflexivity. Qed.

End Dates.

(* ================================================================== *)
(** * The line tokenizer *)

Section Tokenizer.
Open Scope Z_scope.

Lemma spanWhile_spec (f : Z -> bool) (s a b : jsstring) :
  spanWhile f s = (a, b) ->
  s = a ++ b /\ forallb f a = true /\
  match b with c :: _ => f c = false | [] => True end.
Proof.
  revert a b. induction s as [| c s IH]; intros a b H; cbn in H.
  - injection H as <- <-. repeat split.
  - destruct (f c) eqn:Hc.
    + destruct (spanWhile f s) as [a' b'] eqn:Hs. injection H as <- <-.
      destruct (IH _ _ eq_refl) as (-> & Ha & Hb).
      cbn. rewrite Hc, Ha. repeat split. exact Hb.
    + injection H as <- <-. repeat split. exact Hc.
Qed.

Lemma spanWhile_app (f : Z -> bool) (a b : jsstring) :
  forallb f a = true ->
  spanWhile f (a ++ b) = (a ++ fst (spanWhile f b), snd (spanWhile f b)).
Proof.
  induction a as [| c a IH]; cbn; intros H.
  - destruct (spanWhile f b); reflexivity.
  - apply andb_true_iff in H as [Hc Ha].
    rewrite Hc, (IH Ha). reflexivity.
Qed.

Lemma digit_not_space (c : Z) : isDigit c = true -> isSpace c = false.
Proof. unfold isDigit, isSpace. intros H. lia. Qed.

Lemma digit_not_separator (c : Z) :
  isDigit c = true -> (c =? comma) = false /\ (c =? dot) = false.
Proof. unfold isDigit, comma, dot. intros H. lia. Qed.

Lemma stripSpaces_head (l : jsstring) (x : Z) (rest : jsstring) :
  stripSpaces l = x :: rest ->
  exists ws tl, l = ws ++ x :: tl /\ forallb isSpace ws = true.
Proof.
  unfold stripSpaces. induction l as [| c l IH]; cbn; [discriminate|].
  destruct (isSpace c) eqn:Hc; cbn.
  - intros H. destruct (IH H) as (ws & tl & -> & Hws).
    exists (c :: ws), tl. cbn. rewrite Hc, Hws. split; reflexivity.
  - intros [= <- _]. exists [], l. split; reflexivity.
Qed.

Lemma stripSpaces_blanks (ws l : jsstring) :
  forallb isSpace ws = true -> stripSpaces (ws ++ l) = stripSpaces l.
Proof.
  unfold stripSpaces. induction ws as [| c ws IH]; cbn; [reflexivity|].
  intros H. apply andb_true_iff in H as [Hc Hws].
  rewrite Hc. cbn. exact (IH Hws).
Qed.

(** [parseFloat] reads a number exactly when the string starts with a
    digit, or with a dot and a digit. *)
Lemma parseFloat_number (s : jsstring) :
  parseFloat s <> NaN <->
  (exists d tl, s = d :: tl /\ isDigit d = true) \/
  (exists d tl, s = dot :: d :: tl /\ isDigit d = true).
Proof.
  unfold parseFloat. split.
  - destruct (spanWhile isDigit s) as [ip s1] eqn:Hip.
    apply spanWhile_spec in Hip as (-> & Hd & Hs1).
    destruct ip as [| d ip].
    + cbn [app]. destruct s1 as [| c s2]; [intros H; contradiction|].
      destruct (c =? dot) eqn:Hc; [|intros H; contradiction].
      apply Z.eqb_eq in Hc as ->.
      destruct (spanWhile isDigit s2) as [fp s3] eqn:Hfp.
      apply spanWhile_spec in Hfp as (-> & Hf & _).
      destruct fp as [| d fp]; [intros H; contradiction|].
      intros _. right. exists d, (fp ++ s3). cbn in Hf.
      apply andb_true_iff in Hf as [Hf _]. split; [reflexivity | exact Hf].
    + intros _. left. exists d, (ip ++ s1). cbn in Hd.
      apply andb_true_iff in Hd as [Hd _]. split; [reflexivity | exact Hd].
  - intros [(d & tl & -> & Hd) | (d & tl & -> & Hd)].
    + cbn. rewrite Hd. destruct (spanWhile isDigit tl) as [ip s1].
      destruct (match s1 with [] => [] | c :: s2 => _ end);
        apply roundToDouble_not_NaN.
    + cbn. rewrite Hd. destruct (spanWhile isDigit tl) as [fp s3]. cbn.
      apply roundToDouble_not_NaN.
Qed.

Lemma last_elem (l : jsstring) (w : Z) : last l = Some w -> In w l.
Proof.
  intros H. apply last_Some in H as [l' ->]. apply in_or_app. right. left. reflexivity.
Qed.

(** A line the tokenizer turns into a record follows the grammar. *)
Lemma quickLine_signedAmount (line : jsstring) (rec : Line.t) :
  quickLine line = Some rec -> signedAmount line /\ Line.raw rec = line.
Proof.
  unfold quickLine, matchLine. intros H.
  destruct line as [| c s]; [discriminate|].
  destruct (isSign c) eqn:Hsign; [|discriminate].
  destruct (spanWhile isSpace s) as [ws t] eqn:Hws.
  destruct (spanWhile isAmountChar t) as [run u] eqn:Hrun.
  apply spanWhile_spec in Hws as (-> & Hblank & Hhead).
  apply spanWhile_spec in Hrun as (-> & Hamt & _).
  destruct run as [| r1 run'].
  - (* the blank handed back is no amount *)
    destruct (last ws) as [w|] eqn:Hlast; [|discriminate].
    destruct (optCurrency u) as [cur after].
    assert (Hw : isSpace w = true).
    { apply last_elem in Hlast. rewrite forallb_forall in Hblank. auto. }
    assert (Hnan : replaceFirstComma (stripSpaces [w]) = []).
    { unfold stripSpaces. cbn. rewrite Hw. reflexivity. }
    rewrite Hnan in H. discriminate.
  - destruct (optCurrency u) as [cur after].
    destruct (parseFloat _) as [| | amount] eqn:Hparse; try discriminate.
    injection H as <-. split; [|reflexivity].
    cbn [app] in Hhead. cbn in Hamt. apply andb_true_iff in Hamt as [Hr1 _].
    assert (Hstrip : stripSpaces (r1 :: run') = r1 :: stripSpaces run').
    { unfold stripSpaces. cbn. rewrite Hhead. reflexivity. }
    rewrite Hstrip in Hparse.
    assert (Hnum : parseFloat (replaceFirstComma (r1 :: stripSpaces run')) <> NaN)
      by (rewrite Hparse; discriminate).
    apply parseFloat_number in Hnum.
    cbn [replaceFirstComma] in Hnum.
    assert (Hfrac : forall d tl sep, stripSpaces run' = d :: tl -> isDigit d = true ->
              r1 = sep -> sep = dot \/ sep = comma ->
              signedAmount (c :: ws ++ (r1 :: run') ++ u)).
    { intros d tl sep Hx Hd -> Hsep.
      apply stripSpaces_head in Hx as (ws' & tl' & -> & Hws').
      cbn [app]. rewrite <- app_assoc. cbn [app].
      apply sa_separator; assumption. }
    destruct (r1 =? comma) eqn:Hcomma.
    + apply Z.eqb_eq in Hcomma as ->.
      destruct Hnum as [(d & tl & [= <- _] & Hd) | (d & tl & [= Htl] & Hd)].
      * discriminate Hd.
      * apply (Hfrac d tl comma Htl Hd); auto.
    + destruct Hnum as [(d & tl & [= <- _] & Hd) | (d & tl & [= -> Htl] & Hd)].
      * cbn [app]. apply sa_digit; assumption.
      * destruct (stripSpaces run') as [| x0 x] eqn:Hx; [discriminate|].
        cbn in Htl. destruct (x0 =? comma) eqn:Hx0.
        -- injection Htl as <- _. discriminate Hd.
        -- injection Htl as -> _. apply (Hfrac d x dot eq_refl Hd); auto.
Qed.

(** A line that follows the grammar matches the pattern of the tokenizer
    and its amount reads as a number. *)
Lemma signedAmount_matches (line : jsstring) :
  signedAmount line ->
  exists sign m2 m3 after,
    matchLine line = Some (sign, m2, m3, after) /\
    parseFloat (replaceFirstComma (stripSpaces m2)) <> NaN.
Proof.
  intros H. unfold matchLine.
  destruct H as [sign ws d tl Hsign Hws Hd | sign ws sep ws' d tl Hsign Hws Hsep Hws' Hd].
  - rewrite Hsign, (spanWhile_app _ _ _ Hws). cbn.
    rewrite (digit_not_space d Hd). cbn. rewrite app_nil_r.
    unfold isAmountChar at 1. rewrite Hd. cbn.
    destruct (spanWhile isAmountChar tl) as [run u].
    destruct (optCurrency u) as [cur after].
    do 4 eexists. split; [reflexivity|].
    apply parseFloat_number. left.
    unfold stripSpaces. cbn. rewrite (digit_not_space d Hd). cbn.
    destruct (digit_not_separator d Hd) as [-> _]. eauto.
  - assert (Hsepc : isSpace sep = false /\ isAmountChar sep = true)
      by (destruct Hsep as [-> | ->]; split; reflexivity).
    destruct Hsepc as [Hsp Hac].
    rewrite Hsign, (spanWhile_app _ _ _ Hws). cbn.
    rewrite Hsp. cbn. rewrite app_nil_r. rewrite Hac.
    assert (Hall : forallb isAmountChar (ws' ++ [d]) = true).
    { rewrite forallb_app. cbn. unfold isAmountChar at 2. rewrite Hd. cbn.
      rewrite andb_true_r. rewrite forallb_forall in *.
      intros x Hx. unfold isAmountChar. rewrite (Hws' x Hx).
      rewrite orb_true_r. reflexivity. }
    replace (ws' ++ d :: tl) with ((ws' ++ [d]) ++ tl) by (rewrite <- app_assoc; reflexivity).
    rewrite (spanWhile_app _ _ _ Hall).
    destruct (spanWhile isAmountChar tl) as [run u]. cbn [fst snd].
    destruct (optCurrency u) as [cur after].
    do 4 eexists. split; [reflexivity|].
    apply parseFloat_number. right.
    assert (Hstrip : stripSpaces (sep :: (ws' ++ [d]) ++ run) = sep :: d :: stripSpaces run).
    { unfold stripSpaces at 1. cbn. rewrite Hsp. cbn. f_equal.
      rewrite <- app_assoc. fold (stripSpaces (ws' ++ [d] ++ run)).
      rewrite (stripSpaces_blanks _ _ Hws'). unfold stripSpaces. cbn.
      rewrite (digit_not_space d Hd). reflexivity. }
    rewrite Hstrip. destruct (digit_not_separator d Hd) as [Hdc _].
    destruct Hsep as [-> | ->]; cbn; rewrite ?Hdc; eauto.
Qed.

End Tokenizer.

(* ================================================================== *)
(** * The webhook handler *)

Section Handler.
Open Scope Z_scope.

Lemma quickLines_records (text : jsstring) (rec : Line.t) :
  In rec (quickLines text) ->
  exists l, In l (splitLines text []) /\ Line.raw rec = trim l /\ signedAmount (trim l).
Proof.
  unfold quickLines. intros H.
  apply list_elem_of_In, list_elem_of_omap in H as (line & Hline & Hrec).
  apply list_elem_of_In, filter_In in Hline as [Hline _].
  apply in_map_iff in Hline as (l & <- & Hl).
  apply quickLine_signedAmount in Hrec as [Hsa Hraw].
  exists l. auto.
Qed.

Lemma quickLines_none (text : jsstring) :
  (forall l, In l (splitLines text []) -> ~ signedAmount (trim l)) ->
  quickLines text = [].
Proof.
  intros H. destruct (quickLines text) as [| rec recs] eqn:E; [reflexivity|].
  destruct (quickLines_records text rec) as (l & Hl & _ & Hsa).
  - rewrite E. left. reflexivity.
  - destruct (H l Hl Hsa).
Qed.

Lemma getState_lookup (chatId : Z) (store : Store) :
  snd (getState chatId store) !! chatId = Some (fst (getState chatId store)).
Proof.
  unfold getState. destruct (store !! chatId) eqn:E; cbn.
  - exact E.
  - apply lookup_insert_eq.
Qed.

Lemma getState_other (chatId other : Z) (store : Store) :
  other <> chatId -> snd (getState chatId store) !! other = store !! other.
Proof.
  intros Hne. unfold getState. destruct (store !! chatId); cbn; [reflexivity|].
  apply lookup_insert_ne. congruence.
Qed.

(** C9: a line that does not follow the pattern (a sign, then a numeric
    amount) gives no record and no error; a record of [quickLines] always
    comes from a line that follows it, so a text none of whose lines
    follows it gives no record at all; and a message that gives no record
    is answered with the format hint, the ledger left as it was. *)
Theorem unmatched_lines_are_skipped env (store : Store) chatId (text : jsstring) :
  isCommand (trim text) = false ->
  (forall line, ~ signedAmount line -> quickLine line = None) /\
  (forall anyText rec, In rec (quickLines anyText) ->
     exists l, In l (splitLines anyText []) /\ Line.raw rec = trim l /\
               signedAmount (trim l)) /\
  (forall anyText,
     (forall l, In l (splitLines anyText []) -> ~ signedAmount (trim l)) ->
     quickLines anyText = []) /\
  (quickLines (trim text) = [] ->
   webhook env store (Some (Message.mk chatId (Some text)))
     = (snd (getState chatId store), Some FormatHint)).
Proof.
  intros Hcmd. split; [|split; [|split]].
  - intros line Hno. destruct (quickLine line) as [rec|] eqn:E; [|reflexivity].
    apply quickLine_signedAmount in E as [Hsa _]. contradiction.
  - apply quickLines_records.
  - apply quickLines_none.
  - intros Hnone. unfold webhook. cbn [Message.chatId Message.text].
    change (default [] (Some text)) with text.
    unfold isCommand in Hcmd.
    repeat (apply orb_false_iff in Hcmd as [Hcmd ?]).
    destruct (getState chatId store) as [state store1]. cbn [snd].
    rewrite Hcmd. repeat match goal with H : _ = false |- _ => rewrite H; clear H end.
    rewrite Hnone. reflexivity.
Qed.

(** The loop appends entries built with the settings it was given. *)
Lemma addLines_appends env defaults lines :
  forall i entries added entries' outcome,
  addLines env defaults i lines entries added = (entries', outcome) ->
  exists new, entries' = entries ++ new /\ Forall (builtWith defaults) new.
Proof.
  induction lines as [| line lines IH]; intros i entries added entries' outcome H; cbn in H.
  - injection H as <- _. exists []. rewrite app_nil_r. split; constructor.
  - destruct (enrichLineWithAI _ _ line defaults) as [entry|] eqn:E.
    + apply IH in H as (new & -> & Hnew).
      exists (entry :: new). rewrite <- app_assoc. split; [reflexivity|].
      constructor; [|exact Hnew]. do 3 eexists. exact E.
    + injection H as <- _. exists []. rewrite app_nil_r. split; constructor.
Qed.

(** What the handler can do to the state of a chat: leave it, create it,
    empty its ledger, or append built entries; the settings stay. *)
Lemma webhook_state env (store : Store) update chatId st' :
  fst (webhook env store update) !! chatId = Some st' ->
  store !! chatId = Some st' \/
  exists st, (store !! chatId = Some st \/ st = freshState) /\
    State.settings st' = State.settings st /\
    (State.entries st' = [] \/
     exists new, State.entries st' = State.entries st ++ new /\
                 Forall (builtWith (State.settings st)) new).
Proof.
  unfold webhook. destruct update as [msg|]; [|cbn; auto].
  set (chat := Message.chatId msg). set (text := trim _).
  pose proof (getState_lookup chat store) as Hmine.
  pose proof (fun other => getState_other chat other store) as Hother.
  assert (Horigin : store !! chat = Some (fst (getState chat store))
                    \/ fst (getState chat store) = freshState).
  { unfold getState. destruct (store !! chat); cbn; auto. }
  destruct (getState chat store) as [state store1]. cbn [fst snd] in *.
  assert (Hkeep : forall reply : option Reply, fst (store1, reply) !! chatId = Some st' ->
    store !! chatId = Some st' \/
    exists st, (store !! chatId = Some st \/ st = freshState) /\
      State.settings st' = State.settings st /\
      (State.entries st' = [] \/
       exists new, State.entries st' = State.entries st ++ new /\
                   Forall (builtWith (State.settings st)) new)).
  { cbn. intros _ H. destruct (decide (chatId = chat)) as [-> | Hne].
    - rewrite Hmine in H. injection H as <-.
      destruct Horigin as [Ho | Ho]; [left; exact Ho|].
      right. exists freshState. rewrite Ho. repeat split; auto.
    - rewrite (Hother _ Hne) in H. left. exact H. }
  assert (Hput : forall entries (reply : option Reply),
    (entries = [] \/ exists new, entries = State.entries state ++ new /\
                                 Forall (builtWith (State.settings state)) new) ->
    fst (<[chat := State.mk entries (State.settings state)]> store1, reply) !! chatId
      = Some st' ->
    store !! chatId = Some st' \/
    exists st, (store !! chatId = Some st \/ st = freshState) /\
      State.settings st' = State.settings st /\
      (State.entries st' = [] \/
       exists new, State.entries st' = State.entries st ++ new /\
                   Forall (builtWith (State.settings st)) new)).
  { cbn. intros entries _ Hentries H. destruct (decide (chatId = chat)) as [-> | Hne].
    - rewrite lookup_insert_eq in H. injection H as <-.
      right. exists state. cbn. repeat split; auto.
    - rewrite lookup_insert_ne in H by congruence.
      rewrite (Hother _ Hne) in H. left. exact H. }
  destruct (jsstring_eqb text (js "/start")); [apply Hkeep|].
  destruct (jsstring_eqb text (js "/reset")); [apply Hput; auto|].
  destruct (startsWith (js "/balance") text); [apply Hkeep|].
  destruct (startsWith (js "/vatmonth") text); [apply Hkeep|].
  destruct (startsWith (js "/vatyear") text); [apply Hkeep|].
  destruct (quickLines text) as [| line lines]; [apply Hkeep|].
  destruct (addLines _ _ _ _ _ _) as [entries outcome] eqn:Hadd.
  apply addLines_appends in Hadd.
  destruct outcome; apply Hput; auto.
Qed.

(** C8: for every store, chat and text that trims to [/reset], the
    handler leaves the chat with an empty ledger and the settings it had
    (the settings of a new session when it had none), answers that the
    data is cleared, and leaves every other chat as it was. *)
Theorem reset_clears_ledger_only env (store : Store) chatId (text : jsstring) :
  trim text = js "/reset" ->
  let after := webhook env store (Some (Message.mk chatId (Some text))) in
  (forall st, store !! chatId = Some st ->
     fst after !! chatId = Some (State.mk [] (State.settings st))) /\
  (store !! chatId = None ->
     fst after !! chatId = Some (State.mk [] (State.settings freshState))) /\
  (forall other, other <> chatId -> fst after !! other = store !! other) /\
  snd after = Some ResetDone.
Proof.
  intros Htext. unfold webhook. cbn [Message.chatId Message.text].
    change (default [] (Some text)) with text.
  rewrite Htext.
  change (jsstring_eqb (js "/reset") (js "/start")) with false.
  change (jsstring_eqb (js "/reset") (js "/reset")) with true.
  cbv iota.
  pose proof (fun other => getState_other chatId other store) as Hother.
  assert (Horigin : forall st, store !! chatId = Some st -> fst (getState chatId store) = st).
  { intros st H. unfold getState. rewrite H. reflexivity. }
  assert (Hnew : store !! chatId = None -> fst (getState chatId store) = freshState).
  { intros H. unfold getState. rewrite H. reflexivity. }
  destruct (getState chatId store) as [state store1]. cbn [fst snd] in *.
  repeat split.
  - intros st H. rewrite lookup_insert_eq, (Horigin st H). reflexivity.
  - intros H. rewrite lookup_insert_eq, (Hnew H). reflexivity.
  - intros other Hne. rewrite lookup_insert_ne by congruence. apply Hother, Hne.
Qed.

(** C10: a session is created with the settings currency EUR and VAT
    rate 20; in every store the handler can reach, each session has these
    settings and each entry of its ledger was built with them; and no
    update changes the settings of a session. *)
Theorem settings_are_constant (store : Store) :
  reachable store ->
  (forall chatId, store !! chatId = None ->
     State.settings (fst (getState chatId store)) = Settings.mk (js "EUR") 20%Q) /\
  (forall chatId st, store !! chatId = Some st ->
     State.settings st = Settings.mk (js "EUR") 20%Q /\
     Forall (builtWith (Settings.mk (js "EUR") 20%Q)) (State.entries st)) /\
  (forall env update chatId st st',
     store !! chatId = Some st ->
     fst (webhook env store update) !! chatId = Some st' ->
     State.settings st' = State.settings st).
Proof.
  intros Hreach.
  assert (Hinv : forall chatId st, store !! chatId = Some st ->
     State.settings st = Settings.mk (js "EUR") 20%Q /\
     Forall (builtWith (Settings.mk (js "EUR") 20%Q)) (State.entries st)).
  { induction Hreach as [| env store update _ IH].
    - intros chatId st H. rewrite lookup_empty in H. discriminate.
    - intros chatId st' H.
      apply webhook_state in H as [H | (st & Horigin & Hset & Hentries)].
      + exact (IH _ _ H).
      + assert (Hst : State.settings st = Settings.mk (js "EUR") 20%Q /\
                      Forall (builtWith (Settings.mk (js "EUR") 20%Q)) (State.entries st)).
        { destruct Horigin as [Ho | ->]; [exact (IH _ _ Ho)|].
          split; [reflexivity | constructor]. }
        destruct Hst as [Hs He]. rewrite Hset. split; [exact Hs|].
        destruct Hentries as [-> | (new & -> & Hnew)]; [constructor|].
        apply Forall_app. split; [exact He|]. rewrite <- Hs. exact Hnew. }
  split; [|split; [exact Hinv|]].
  - intros chatId Hnone. unfold getState. rewrite Hnone. reflexivity.
  - intros env update chatId st st' Hst H.
    apply webhook_state in H as [H | (st0 & Horigin & Hset & _)].
    + congruence.
    + rewrite Hset. destruct Horigin as [Ho | ->]; [congruence|].
      destruct (Hinv _ _ Hst) as [-> _]. reflexivity.
Qed.

End Handler.

(* ================================================================== *)
(** * The loop over the lines *)

Section LoopOverLines.
Open Scope nat_scope.

(** The entry builder returns an entry for every answer it can read. *)
Lemma answered_builds today outcome line defaults :
  answered outcome -> exists e, enrichLineWithAI today outcome line defaults = Ok e.
Proof.
  intros H. unfold enrichLineWithAI.
  destruct outcome as [| | data]; [destruct H | |].
  - cbn [getField]. destruct (resolveVAT _ _ _ _ _). eexists. reflexivity.
  - destruct data; try destruct H; cbn [getField];
      destruct (resolveVAT _ _ _ _ _); eexists; reflexivity.
Qed.

(** It throws for every other one: a failed request, the answer [null]. *)
Lemma not_answered_throws today outcome line defaults :
  ~ answered outcome -> enrichLineWithAI today outcome line defaults = Throws.
Proof.
  intros H. destruct outcome as [| | data]; [reflexivity | destruct H; exact I |].
  destruct data; try (destruct H; exact I); reflexivity.
Qed.

(** What the loop over the lines returns: the ledger continued by the
    entries of a first stretch of the lines, the entry at each position
    built from the line at that position with what its request returned;
    all lines when nothing throws, the lines before the first throw
    otherwise. *)
Lemma addLines_result env defaults (lines : list Line.t) :
  forall i entries added entries' outcome,
  addLines env defaults i lines entries added = (entries', outcome) ->
  exists new,
    entries' = entries ++ new /\
    Forall (builtWith defaults) new /\
    List.map Entry.type new = List.map Line.type (take (length new) lines) /\
    (forall j line e, lines !! j = Some line -> new !! j = Some e ->
                      builtAt env defaults (i + j) line e) /\
    match outcome with
    | Ok added' => added' = added ++ new /\ length new = length lines
    | Throws =>
        exists line, lines !! length new = Some line /\
          enrichLineWithAI (utcDate env (i + length new)) (classifier env (i + length new))
                           line defaults = Throws
    end.
Proof.
  induction lines as [| line lines IH]; intros i entries added entries' outcome H; cbn in H.
  - injection H as <- <-. exists []. rewrite !app_nil_r.
    split; [reflexivity|]. split; [constructor|]. split; [reflexivity|].
    split; [|split; reflexivity].
    intros j line e Hl. rewrite lookup_nil in Hl. discriminate.
  - destruct (enrichLineWithAI _ _ line defaults) as [entry|] eqn:E.
    + apply IH in H as (new & -> & Hnew & Htypes & Hat & Hout).
      exists (entry :: new). rewrite <- app_assoc. split; [reflexivity|].
      split; [constructor; [do 3 eexists; exact E | exact Hnew]|].
      split; [|split].
      * cbn. rewrite Htypes. f_equal.
        destruct (enrichLineWithAI_Ok _ _ _ _ _ E) as (? & ? & ? & ? & ? & _ & Hf).
        cbv zeta in Hf. exact (proj1 Hf).
      * intros [| j] line' e Hl He; cbn in Hl, He.
        -- injection Hl as <-. injection He as <-. unfold builtAt.
           rewrite Nat.add_0_r. exact E.
        -- replace (i + S j) with (S i + j) by lia. exact (Hat j line' e Hl He).
      * destruct outcome as [added'|].
        -- destruct Hout as [-> Hlen]. rewrite <- app_assoc. cbn. split; [reflexivity | lia].
        -- destruct Hout as (line' & Hl & Hthrow). exists line'. cbn [length].
           replace (i + S (length new)) with (S i + length new) by lia.
           split; [exact Hl | exact Hthrow].
    + injection H as <- <-. exists []. rewrite app_nil_r.
      split; [reflexivity|]. split; [constructor|]. split; [reflexivity|].
      split.
      * intros j line' e _ He. rewrite lookup_nil in He. discriminate.
      * exists line. cbn [length]. rewrite Nat.add_0_r. split; [reflexivity | exact E].
Qed.

(** The loop when the requests before position [k] are answered: it
    passes every line before [k], and stops at [k] when that request
    fails. *)
Lemma addLines_run env defaults (k : nat) (lines : list Line.t) (entries : list Entry.t) :
  (forall i, i < k -> answered (classifier env i)) ->
  (length lines <= k ->
     exists new, addLines env defaults 0 lines entries [] = (entries ++ new, Ok new) /\
       length new = length lines /\
       forall i line e, lines !! i = Some line -> new !! i = Some e ->
                        builtAt env defaults i line e) /\
  (k < length lines -> ~ answered (classifier env k) ->
     exists new, addLines env defaults 0 lines entries [] = (entries ++ new, Throws) /\
       length new = k /\
       forall i line e, lines !! i = Some line -> new !! i = Some e ->
                        builtAt env defaults i line e).
Proof.
  intros Hfirst.
  destruct (addLines env defaults 0 lines entries []) as [entries' outcome] eqn:Hrun.
  apply addLines_result in Hrun as (new & -> & _ & _ & Hat & Hout).
  cbn [Nat.add] in Hat, Hout.
  assert (Hthrow : forall line,
            lines !! length new = Some line ->
            enrichLineWithAI (utcDate env (length new)) (classifier env (length new))
                             line defaults = Throws ->
            k <= length new).
  { intros line _ Hthrow. destruct (le_lt_dec k (length new)) as [Hle | Hlt]; [exact Hle|].
    destruct (answered_builds (utcDate env (length new)) _ line defaults (Hfirst _ Hlt))
      as [e He].
    rewrite He in Hthrow. discriminate. }
  split.
  - intros Hlen. destruct outcome as [added|].
    + destruct Hout as [-> Hl]. exists new. repeat split; assumption.
    + destruct Hout as (line & Hl & Ht). pose proof (Hthrow line Hl Ht) as Hk.
      apply lookup_lt_Some in Hl. lia.
  - intros Hlen Hfail.
    assert (Hk : length new <= k).
    { destruct (le_lt_dec (length new) k) as [Hle | Hlt]; [exact Hle|].
      destruct (lookup_lt_is_Some_2 new k Hlt) as [e He].
      destruct (lookup_lt_is_Some_2 lines k Hlen) as [line Hl].
      pose proof (Hat k line e Hl He) as Hb. unfold builtAt in Hb.
      rewrite (not_answered_throws _ _ _ _ Hfail) in Hb. discriminate. }
    destruct outcome as [added|].
    + destruct Hout as [_ Hl]. lia.
    + destruct Hout as (line & Hl & Ht). pose proof (Hthrow line Hl Ht) as Hk'.
      exists new. split; [reflexivity|]. split; [lia | exact Hat].
Qed.

End LoopOverLines.

(* ================================================================== *)
(** * The aggregates *)

Section Aggregates.
Open Scope Q_scope.

Lemma sumZ_cons (x : Z) (l : list Z) : sumZ (x :: l) = (x + sumZ l)%Z.
Proof. reflexivity. Qed.

Lemma length_cons_Q {A} (x : A) (l : list A) :
  inject_Z (Z.of_nat (length (x :: l))) == inject_Z (Z.of_nat (length l)) + 1.
Proof.
  cbn [length]. rewrite Nat2Z.inj_succ. unfold Z.succ. rewrite inject_Z_plus. reflexivity.
Qed.

Lemma length_nonneg_Q {A} (l : list A) : 0 <= inject_Z (Z.of_nat (length l)).
Proof. change 0 with (inject_Z 0). rewrite <- Zle_Qle. lia. Qed.

(** Adding up decimal amounts as Numbers: with every amount up to [B] and
    every sum below [2^(k+1)], each addition is off by at most the
    rounding of the amount and the rounding of the sum. *)
Lemma fold_add_near (B W : Q) (k : Z) (xs : list number) :
  (-1022 <= k <= 1022)%Z -> W < 2 ^ (k + 1) -> 0 <= B -> B <= 2147483647 ->
  Forall (centAmount B) xs ->
  forall v c err : Q,
    c - err <= v -> v <= c + err -> 0 <= err ->
    - W <= c - err
        - inject_Z (Z.of_nat (length xs)) * (B + (1 # 8388608) + 2 ^ (k - 53)) ->
    c + err
      + inject_Z (Z.of_nat (length xs)) * (B + (1 # 8388608) + 2 ^ (k - 53)) <= W ->
    exists v',
      fold_left num_add xs (Fin v) = Fin v' /\
      let total := c + (sumZ (List.map centsOf xs) # 100) in
      let err' := err + inject_Z (Z.of_nat (length xs)) * ((1 # 8388608) + 2 ^ (k - 53)) in
      total - err' <= v' /\ v' <= total + err' /\
      c - inject_Z (Z.of_nat (length xs)) * B <= total /\
      total <= c + inject_Z (Z.of_nat (length xs)) * B.
Proof.
  intros Hk HW HB0 HB Hxs. pose proof (pow2_pos (k - 53)) as Hpos.
  set (u := 2 ^ (k - 53)) in *.
  induction Hxs as [| x xs Hx _ IH]; intros v c err H1 H2 He Hw1 Hw2.
  - exists v. cbn. split; [reflexivity|].
    change (inject_Z (Z.of_nat 0)) with 0. repeat split; lra.
  - destruct (centAmount_near B x Hx HB) as (xv & -> & _ & Hx1 & Hx2 & Hb1 & Hb2).
    set (cx := centsOf (Fin xv)) in *.
    pose proof (length_nonneg_Q xs) as HL.
    rewrite length_cons_Q in Hw1, Hw2.
    set (L := inject_Z (Z.of_nat (length xs))) in *.
    assert (HLB : 0 <= L * (B + (1 # 8388608) + u))
      by (apply Qmult_le_0_compat; lra).
    cbn [fold_left num_add].
    destruct (roundToDouble_near (v + xv) W k) as (s & Hs & Hs1 & Hs2);
      [lra | lra | exact HW | exact Hk |].
    fold u in Hs1, Hs2. rewrite Hs.
    destruct (IH s (c + (cx # 100)) (err + ((1 # 8388608) + u)))
      as (v' & Hv' & Hr1 & Hr2 & Hr3 & Hr4); [lra | lra | lra | lra | lra |].
    exists v'. split; [exact Hv'|].
    cbn [List.map]. rewrite sumZ_cons, length_cons_Q. fold cx. fold L.
    rewrite (cents_add cx (sumZ (List.map centsOf xs))).
    fold L in Hr1, Hr2, Hr3, Hr4.
    cbv zeta in *. repeat split; lra.
Qed.

(** The four running sums of [totals] are sums over the income entries
    and over the expense entries. *)
Lemma fold_addEntry_sums (l : list Entry.t) :
  forall a b c d,
    fold_left addEntry l (a, b, c, d) =
      (fold_left num_add (List.map Entry.gross (List.filter isIncome l)) a,
       fold_left num_add (List.map Entry.gross (List.filter isExpense l)) b,
       fold_left num_add (List.map Entry.vat_collected (List.filter isIncome l)) c,
       fold_left num_add (List.map Entry.vat_deductible (List.filter isExpense l)) d).
Proof.
  induction l as [| e l IH]; intros a b c d.
  - reflexivity.
  - cbn [fold_left List.filter]. unfold addEntry at 2, isExpense, isIncome.
    destruct (Entry.type e); cbn [negb List.map fold_left]; apply IH.
Qed.

Lemma vatShareSum_split (l : list Entry.t) :
  vatShareSum l
  = (sumZ (List.map centsOf (List.map Entry.vat_collected (List.filter isIncome l)))
     - sumZ (List.map centsOf (List.map Entry.vat_deductible (List.filter isExpense l))))%Z.
Proof.
  unfold vatShareSum.
  induction l as [| e l IH]; [reflexivity|].
  cbn [List.map List.filter]. rewrite sumZ_cons, IH.
  unfold vatShare, isExpense, isIncome.
  destruct (Entry.type e); cbn [negb List.map]; rewrite ?sumZ_cons; lia.
Qed.

Lemma length_income_expense (l : list Entry.t) :
  (length (List.filter isIncome l) + length (List.filter isExpense l))%nat = length l.
Proof.
  induction l as [| e l IH]; [reflexivity|].
  cbn [List.filter]. unfold isExpense at 1. destruct (isIncome e); simpl; lia.
Qed.

Lemma Forall_filter_keep {A} (P : A -> Prop) (f : A -> bool) (l : list A) :
  Forall P l -> Forall P (List.filter f l).
Proof.
  induction 1 as [| x l Hx _ IH]; cbn; [constructor|].
  destruct (f x); [constructor|]; assumption.
Qed.

Lemma length_filter_le {A} (f : A -> bool) (l : list A) :
  (length (List.filter f l) <= length l)%nat.
Proof.
  induction l as [| x l IH]; cbn; [lia|]. destruct (f x); cbn; lia.
Qed.

Lemma centAmount_le (B B' : Q) (x : number) : B <= B' -> centAmount B x -> centAmount B' x.
Proof. intros HB (n & Hx & H1 & H2). exists n. split; [exact Hx|]. split; lra. Qed.

(** The amounts of a small entry are decimal amounts up to 2,000,002. *)
Lemma smallEntry_cents (e : Entry.t) :
  smallEntry e ->
  centAmount 2000002 (Entry.gross e) /\
  centAmount 2000002 (Entry.vat_collected e) /\
  centAmount 2000002 (Entry.vat_deductible e).
Proof.
  intros (today & outcome & line & defaults & H & Ha & Hr0 & Hr100).
  apply Qabs_Qle_condition in Ha. destruct Ha as [Ha1 Ha2].
  assert (HM : 1000000 <= 1000000000) by lra.
  destruct (built_entry_near today outcome line defaults e 1000000
              Ha1 Ha2 HM Hr0 Hr100 H)
    as (_ & _ & _ & _ & _ & _ & _ & _ & _ & _ & Hg & Hc & Hd).
  assert (HB : 2 * 1000000 + 2 <= 2000002) by lra.
  split; [exact (centAmount_le _ _ _ HB Hg)|].
  split; [exact (centAmount_le _ _ _ HB Hc) | exact (centAmount_le _ _ _ HB Hd)].
Qed.

Lemma cents_opp (n : Z) : (- n # 100) == - (n # 100).
Proof. reflexivity. Qed.

Lemma cents_sub (n k : Z) : (n - k # 100) == (n # 100) - (k # 100).
Proof. unfold Z.sub. rewrite cents_add. reflexivity. Qed.

Lemma toFixed2_recover (s : Q) (n : Z) :
  (n # 100) - (1 # 1000) <= s -> s <= (n # 100) + (1 # 1000) ->
  - (4294967295) <= n # 100 -> n # 100 <= 4294967295 ->
  toFixed2 (Fin s) = roundToDouble (n # 100).
Proof.
  intros H1 H2 H3 H4. unfold toFixed2.
  assert (Hsmall21 : Qle_bool (inject_Z (10 ^ 21)) (Qabs s) = false).
  { destruct (Qle_bool (inject_Z (10 ^ 21)) (Qabs s)) eqn:E; [|reflexivity].
    apply Qle_bool_iff in E. exfalso.
    assert (Ha : Qabs s <= 4294967296) by (apply Qabs_Qle_condition; split; lra).
    assert (Hbig : 4294967296 < inject_Z (10 ^ 21)) by reflexivity.
    lra. }
  rewrite Hsmall21. apply roundToDouble_Proper.
  apply decimal2_recover; lra.
Qed.

(** The rounded difference of two sums of up to 1000 decimal amounts is
    the exact difference of the sums in hundredths, as a Number. *)
Lemma rounded_difference (xi xd : list number) :
  Forall (centAmount 2000002) xi -> Forall (centAmount 2000002) xd ->
  (length xi + length xd <= 1000)%nat ->
  let C := (sumZ (List.map centsOf xi) - sumZ (List.map centsOf xd))%Z in
  toFixed2 (num_sub (fold_left num_add xi (Fin 0)) (fold_left num_add xd (Fin 0)))
    = roundToDouble (C # 100) /\
  - (2000002000) <= C # 100 /\ C # 100 <= 2000002000.
Proof.
  intros Hinc Hexp Hlen C.
  assert (HC : C # 100 ==
               (sumZ (List.map centsOf xi) # 100) - (sumZ (List.map centsOf xd) # 100))
    by apply cents_sub.
  assert (Hli : inject_Z (Z.of_nat (length xi)) + inject_Z (Z.of_nat (length xd)) <= 1000).
  { rewrite <- inject_Z_plus. change 1000 with (inject_Z 1000). rewrite <- Zle_Qle. lia. }
  pose proof (length_nonneg_Q xi) as Hi0. pose proof (length_nonneg_Q xd) as Hd0.
  destruct (fold_add_near 2000002 2147483647 30 xi ltac:(lia) ltac:(pow2_eval; lra)
              ltac:(lra) ltac:(lra) Hinc 0 0 0)
    as (vi & Hvi & Hi1 & Hi2 & Hi3 & Hi4); [lra | lra | lra | pow2_eval; lra | pow2_eval; lra |].
  destruct (fold_add_near 2000002 2147483647 30 xd ltac:(lia) ltac:(pow2_eval; lra)
              ltac:(lra) ltac:(lra) Hexp 0 0 0)
    as (vd & Hvd & Hd1 & Hd2 & Hd3 & Hd4); [lra | lra | lra | pow2_eval; lra | pow2_eval; lra |].
  rewrite Hvi, Hvd. cbv zeta in *. pow2_eval.
  set (Li := inject_Z (Z.of_nat (length xi))) in *.
  set (Ld := inject_Z (Z.of_nat (length xd))) in *.
  set (ci := sumZ (List.map centsOf xi) # 100) in *.
  set (cd := sumZ (List.map centsOf xd) # 100) in *.
  cbn [num_sub].
  destruct (roundToDouble_near (vi - vd) 2147483647 30) as (s & Hs & Hs1 & Hs2);
    [lra | lra | pow2_eval; lra | lia |].
  pow2_eval. rewrite Hs. split; [|split; lra].
  apply toFixed2_recover; lra.
Qed.

(** Over at most 1000 small entries, [vatDue] is the exact sum of the
    VAT amounts in hundredths, as a Number. *)
Lemma totals_vatDue_cents (l : list Entry.t) :
  Forall smallEntry l -> (length l <= 1000)%nat ->
  Totals.vatDue (totals l) = roundToDouble (vatShareSum l # 100) /\
  - (2000002000) <= vatShareSum l # 100 /\ vatShareSum l # 100 <= 2000002000.
Proof.
  intros Hsmall Hlen.
  assert (Hinc : Forall (centAmount 2000002)
                   (List.map Entry.vat_collected (List.filter isIncome l))).
  { apply Forall_map, Forall_filter_keep.
    eapply Forall_impl; [exact Hsmall|]. intros e He. apply (smallEntry_cents e He). }
  assert (Hexp : Forall (centAmount 2000002)
                   (List.map Entry.vat_deductible (List.filter isExpense l))).
  { apply Forall_map, Forall_filter_keep.
    eapply Forall_impl; [exact Hsmall|]. intros e He. apply (smallEntry_cents e He). }
  pose proof (length_income_expense l) as Hsplit.
  rewrite (vatShareSum_split l).
  unfold totals. rewrite fold_addEntry_sums. cbn [Totals.vatDue].
  apply rounded_difference; [exact Hinc | exact Hexp |].
  rewrite !length_map. lia.
Qed.

Lemma sumZ_map_ext {A} (f g : A -> Z) (l : list A) :
  (forall k, In k l -> f k = g k) ->
  sumZ (List.map f l) = sumZ (List.map g l).
Proof.
  induction l as [| k l IH]; intros H; cbn [List.map]; [reflexivity|].
  rewrite !sumZ_cons.
  rewrite (H k) by (left; reflexivity).
  rewrite IH by (intros; apply H; right; assumption). reflexivity.
Qed.

Lemma sumZ_map_plus {A} (f g : A -> Z) (l : list A) :
  sumZ (List.map (fun k => (f k + g k)%Z) l)
  = (sumZ (List.map f l) + sumZ (List.map g l))%Z.
Proof.
  induction l as [| k l IH]; cbn [List.map]; [reflexivity|].
  rewrite !sumZ_cons, IH. lia.
Qed.

Lemma sumZ_zero {A} (l : list A) : sumZ (List.map (fun _ => 0%Z) l) = 0%Z.
Proof.
  induction l as [| k l IH]; cbn [List.map]; [reflexivity|].
  rewrite sumZ_cons, IH. reflexivity.
Qed.

(** Over keys without repetition, the key of an entry is met once or
    never. *)
Lemma sumZ_one_key (m : jsstring) (v : Z) (keys : list jsstring) :
  NoDup keys ->
  sumZ (List.map (fun k => if jsstring_eqb m k then v else 0%Z) keys)
  = if bool_decide (m ∈ keys) then v else 0%Z.
Proof.
  induction 1 as [| k keys Hk _ IH]; cbn [List.map].
  - rewrite bool_decide_eq_false_2 by (apply not_elem_of_nil). reflexivity.
  - rewrite sumZ_cons, IH. unfold jsstring_eqb.
    destruct (decide (m = k)) as [-> | Hne].
    + rewrite bool_decide_eq_true_2 by reflexivity.
      rewrite (bool_decide_eq_false_2 (k ∈ keys)) by exact Hk.
      rewrite bool_decide_eq_true_2 by (left). lia.
    + rewrite bool_decide_eq_false_2 by exact Hne.
      destruct (decide (m ∈ keys)) as [Hin | Hnin].
      * rewrite !bool_decide_eq_true_2; [lia | right; exact Hin | exact Hin].
      * rewrite !bool_decide_eq_false_2; [lia | | exact Hnin].
        intros H. apply elem_of_cons in H as [H | H]; [congruence | contradiction].
Qed.

Lemma monthKeys_NoDup (yyyy : jsstring) : NoDup (monthKeys yyyy).
Proof.
  unfold monthKeys.
  assert (Hnd : NoDup twelveMonths) by compute_done.
  induction Hnd as [| mm l Hmm _ IH]; cbn; constructor; [|exact IH].
  intros Hin. apply list_elem_of_In, in_map_iff in Hin as (mm' & Heq & Hin').
  apply app_inv_head in Heq. injection Heq as ->.
  apply Hmm, list_elem_of_In, Hin'.
Qed.

(** A month key of a four-character year names that year. *)
Lemma monthKey_year (yyyy date : jsstring) :
  length yyyy = 4%nat -> In (monthOf date) (monthKeys yyyy) -> yearOf date = yyyy.
Proof.
  intros Hlen Hin. unfold monthKeys in Hin.
  apply in_map_iff in Hin as (mm & Heq & _).
  unfold yearOf, monthOf in *.
  assert (H : take 4 (take 7 date) = take 4 (yyyy ++ dash :: mm)) by (rewrite Heq; reflexivity).
  rewrite take_take in H. cbn [Nat.min] in H.
  rewrite take_app_length' in H by (symmetry; exact Hlen). exact H.
Qed.

(** Every entry of the year is in one month of the twelve. *)
Lemma months_partition_year (entries : list Entry.t) (yyyy : jsstring) :
  length yyyy = 4%nat ->
  (forall e, In e entries -> yearOf (Entry.date e) = yyyy ->
             In (monthOf (Entry.date e)) (monthKeys yyyy)) ->
  sumZ (List.map
          (fun k => vatShareSum
             (List.filter (fun e => jsstring_eqb (monthOf (Entry.date e)) k) entries))
          (monthKeys yyyy))
  = vatShareSum (List.filter (fun e => jsstring_eqb (yearOf (Entry.date e)) yyyy) entries).
Proof.
  intros Hlen. induction entries as [| e entries IH]; intros Hmonths.
  - transitivity (sumZ (List.map (fun _ : jsstring => 0%Z) (monthKeys yyyy))).
    + apply sumZ_map_ext. intros k _. reflexivity.
    + rewrite sumZ_zero. reflexivity.
  - assert (IH' := IH (fun e' He' => Hmonths e' (or_intror He'))). clear IH.
    assert (Hstep :
      sumZ (List.map
              (fun k => vatShareSum
                 (List.filter (fun e => jsstring_eqb (monthOf (Entry.date e)) k)
                              (e :: entries)))
              (monthKeys yyyy))
      = sumZ (List.map
              (fun k => ((if jsstring_eqb (monthOf (Entry.date e)) k then vatShare e else 0)
                        + vatShareSum
                            (List.filter (fun e => jsstring_eqb (monthOf (Entry.date e)) k)
                                         entries))%Z)
              (monthKeys yyyy))).
    { apply sumZ_map_ext. intros k _. cbn [List.filter].
      destruct (jsstring_eqb (monthOf (Entry.date e)) k); unfold vatShareSum;
        cbn [List.map]; rewrite ?sumZ_cons; lia. }
    rewrite Hstep, sumZ_map_plus, IH', (sumZ_one_key _ _ _ (monthKeys_NoDup yyyy)).
    cbn [List.filter]. unfold jsstring_eqb at 2.
    destruct (decide (yearOf (Entry.date e) = yyyy)) as [Hy | Hy].
    + rewrite (bool_decide_eq_true_2 _ Hy).
      rewrite bool_decide_eq_true_2
        by (apply list_elem_of_In, Hmonths; [left; reflexivity | exact Hy]).
      unfold vatShareSum. cbn [List.map]. rewrite sumZ_cons. lia.
    + rewrite (bool_decide_eq_false_2 _ Hy).
      rewrite bool_decide_eq_false_2; [lia|].
      intros Hin. apply Hy. apply list_elem_of_In in Hin.
      apply (monthKey_year _ _ Hlen Hin).
Qed.

(** The exact sum of decimal amounts held as Numbers. *)
Lemma exact_sum_near (B : Q) (xs : list number) :
  B <= 2147483647 -> Forall (centAmount B) xs ->
  let total := sumZ (List.map centsOf xs) # 100 in
  let err := inject_Z (Z.of_nat (length xs)) * (1 # 8388608) in
  total - err <= fold_right Qplus 0 (List.map valueOf xs) /\
  fold_right Qplus 0 (List.map valueOf xs) <= total + err.
Proof.
  intros HB Hxs. cbv zeta.
  induction Hxs as [| x xs Hx _ IH].
  - cbn. change (inject_Z (Z.of_nat 0)) with 0. split; lra.
  - destruct (centAmount_near B x Hx HB) as (xv & -> & _ & Hx1 & Hx2 & _).
    cbn [List.map fold_right valueOf]. rewrite sumZ_cons, length_cons_Q, cents_add.
    destruct IH as [IH1 IH2]. split; lra.
Qed.

(** The monthly [vatDue] of a ledger of at most 1000 small entries. *)
Lemma monthlyVatDue_cents (entries : list Entry.t) (keys : list jsstring) :
  Forall smallEntry entries -> (length entries <= 1000)%nat ->
  let monthly := List.map (fun k => Totals.vatDue (vatTotalsMonth entries k)) keys in
  Forall (centAmount 2000002000) monthly /\
  List.map centsOf monthly
  = List.map
      (fun k => vatShareSum
         (List.filter (fun e => jsstring_eqb (monthOf (Entry.date e)) k) entries))
      keys.
Proof.
  intros Hsmall Hlen. cbv zeta.
  assert (Hone : forall k,
    let C := vatShareSum
               (List.filter (fun e => jsstring_eqb (monthOf (Entry.date e)) k) entries) in
    centAmount 2000002000 (Totals.vatDue (vatTotalsMonth entries k)) /\
    centsOf (Totals.vatDue (vatTotalsMonth entries k)) = C).
  { intros k C. unfold vatTotalsMonth.
    destruct (totals_vatDue_cents
                (List.filter (fun e => jsstring_eqb (monthOf (Entry.date e)) k) entries))
      as (Hv & H1 & H2).
    - apply Forall_filter_keep, Hsmall.
    - pose proof (length_filter_le (fun e => jsstring_eqb (monthOf (Entry.date e)) k) entries).
      lia.
    - fold C in Hv, H1, H2. rewrite Hv. split.
      + exists C. split; [reflexivity|]. split; assumption.
      + destruct (cents_near C) as (v & -> & _ & _ & Hc); [lra | lra | exact Hc]. }
  induction keys as [| k keys [IH1 IH2]]; cbn [List.map]; [split; [constructor | reflexivity]|].
  destruct (Hone k) as [Hk1 Hk2]. split.
  - constructor; assumption.
  - rewrite Hk2, IH2. reflexivity.
Qed.

(** C6, as the code has it: over a ledger of at most 1000 entries, each
    built from an amount of magnitude up to a million at a VAT rate from
    0 to 100, and for a year [YYYY] in which every entry dated in that
    year carries a month from 01 to 12, the [vatDue] of the twelve months
    adds up to the [vatDue] of the year to the cent: the sum, taken as
    Numbers or exactly, differs from it by less than 0.0001 and rounds to
    it. *)
Theorem monthly_vat_adds_up_to_yearly (entries : list Entry.t) (yyyy : jsstring) :
  Forall smallEntry entries -> (length entries <= 1000)%nat ->
  length yyyy = 4%nat ->
  (forall e, In e entries -> yearOf (Entry.date e) = yyyy ->
             In (monthOf (Entry.date e)) (monthKeys yyyy)) ->
  exists sum yearly,
    monthlyVatDueSum entries yyyy = Fin sum /\
    Totals.vatDue (vatTotalsYear entries yyyy) = Fin yearly /\
    toFixed2 (Fin sum) = Fin yearly /\
    Qabs (sum - yearly) <= 1 # 10000 /\
    toFixed2 (Fin (monthlyVatDueExact entries yyyy)) = Fin yearly /\
    Qabs (monthlyVatDueExact entries yyyy - yearly) <= 1 # 10000.
Proof.
  intros Hsmall Hlen Hyyyy Hmonths.
  destruct (monthlyVatDue_cents entries (monthKeys yyyy) Hsmall Hlen) as [Hcents Hshares].
  cbv zeta in Hcents, Hshares. fold (monthlyVatDue entries yyyy) in Hcents, Hshares.
  pose proof (months_partition_year entries yyyy Hyyyy Hmonths) as Hpart.
  rewrite <- Hshares in Hpart.
  destruct (totals_vatDue_cents
              (List.filter (fun e => jsstring_eqb (yearOf (Entry.date e)) yyyy) entries))
    as (Hy & Hy1 & Hy2).
  { apply Forall_filter_keep, Hsmall. }
  { pose proof (length_filter_le (fun e => jsstring_eqb (yearOf (Entry.date e)) yyyy) entries).
    lia. }
  fold (vatTotalsYear entries yyyy) in Hy. rewrite <- Hpart in Hy, Hy1, Hy2.
  assert (Hlen12 : inject_Z (Z.of_nat (length (monthlyVatDue entries yyyy))) == 12).
  { unfold monthlyVatDue, monthKeys. rewrite !length_map. reflexivity. }
  destruct (fold_add_near 2000002000 34359738367 34 (monthlyVatDue entries yyyy)
              ltac:(lia) ltac:(pow2_eval; lra) ltac:(lra) ltac:(lra) Hcents 0 0 0)
    as (s & Hs & Hs1 & Hs2 & _);
    [lra | lra | lra | rewrite Hlen12; pow2_eval; lra | rewrite Hlen12; pow2_eval; lra |].
  destruct (exact_sum_near 2000002000 (monthlyVatDue entries yyyy) ltac:(lra) Hcents)
    as [He1 He2].
  fold (monthlyVatDueExact entries yyyy) in He1, He2.
  cbv zeta in Hs1, Hs2. rewrite Hlen12 in Hs1, Hs2, He1, He2. pow2_eval.
  set (C := sumZ (List.map centsOf (monthlyVatDue entries yyyy))) in *.
  destruct (cents_near C) as (y & Hyv & Hv1 & Hv2 & _); [lra | lra |].
  assert (Hfix : forall x, (C # 100) - (1 # 1000) <= x -> x <= (C # 100) + (1 # 1000) ->
                           toFixed2 (Fin x) = Fin y).
  { intros x Hx1 Hx2. unfold toFixed2.
    assert (Hsmall21 : Qle_bool (inject_Z (10 ^ 21)) (Qabs x) = false).
    { destruct (Qle_bool (inject_Z (10 ^ 21)) (Qabs x)) eqn:E; [|reflexivity].
      apply Qle_bool_iff in E. exfalso.
      assert (Ha : Qabs x <= 2147483648) by (apply Qabs_Qle_condition; split; lra).
      assert (Hbig : 2147483648 < inject_Z (10 ^ 21)) by reflexivity.
      lra. }
    rewrite Hsmall21, <- Hyv. apply roundToDouble_Proper.
    apply decimal2_recover; lra. }
  exists s, y. unfold monthlyVatDueSum.
  split; [exact Hs|]. split; [rewrite Hy; exact Hyv|].
  split; [apply Hfix; lra|].
  split; [apply Qabs_Qle_condition; split; lra|].
  split; [apply Hfix; lra|].
  apply Qabs_Qle_condition; split; lra.
Qed.

End Aggregates.

(* ================================================================== *)
(** * Classifier failures in the loop over the lines *)

Section ClassifierFailures.
Open Scope nat_scope.

(** The handler on a message that is no command and has lines for the
    tokenizer: the loop decides the ledger and whether an answer goes out. *)
Lemma webhook_ingest env (store : Store) chatId (text : jsstring) :
  isCommand (trim text) = false -> quickLines (trim text) <> [] ->
  let state := fst (getState chatId store) in
  let run := addLines env (State.settings state) 0 (quickLines (trim text))
                      (State.entries state) [] in
  fst (webhook env store (Some (Message.mk chatId (Some text))))
    = <[chatId := State.mk (fst run) (State.settings state)]> (snd (getState chatId store)) /\
  (snd run = Throws -> snd (webhook env store (Some (Message.mk chatId (Some text)))) = None).
Proof.
  intros Hcmd Hlines. unfold webhook. cbn [Message.chatId Message.text].
  change (default [] (Some text)) with text.
  unfold isCommand in Hcmd.
  repeat (apply orb_false_iff in Hcmd as [Hcmd ?]).
  destruct (getState chatId store) as [state store1]. cbn [fst snd].
  rewrite Hcmd. repeat match goal with H : _ = false |- _ => rewrite H; clear H end.
  destruct (quickLines (trim text)) as [| line lines] eqn:E; [contradiction|].
  destruct (addLines _ _ _ _ _ _) as [entries outcome].
  destruct outcome; cbn [fst snd]; split; try reflexivity. discriminate.
Qed.

(** C2, as the code has it: an answer that cannot be parsed counts as
    absent (the empty object), the cues in the text and the defaults apply
    and the entry is built; a request that fails (error, timeout) makes the
    entry builder throw.  In the loop over the lines of a message whose
    first [k] requests are answered, parseably or not: when the message
    has no more than [k] lines, every line gets its entry, built from that
    line with what its request returned, from the defaults alone where the
    answer could not be parsed; when request [k] is not answered (the call
    fails), the loop stops at that line, the entries of the [k] lines
    before it stay appended, whatever their requests returned, that line
    and the lines after it get none, and the handler sends no answer. *)
Theorem classifier_failure_handling env defaults (k : nat) (lines : list Line.t)
    (entries : list Entry.t) :
  (forall i, i < k -> answered (classifier env i)) ->
  (forall today line,
     enrichLineWithAI today Unparseable line defaults
       = enrichLineWithAI today (Parsed (JObj [])) line defaults /\
     (exists e, enrichLineWithAI today Unparseable line defaults = Ok e) /\
     enrichLineWithAI today CallFailed line defaults = Throws) /\
  (length lines <= k ->
     exists new, addLines env defaults 0 lines entries [] = (entries ++ new, Ok new) /\
       length new = length lines /\
       forall i line e, lines !! i = Some line -> new !! i = Some e ->
         builtAt env defaults i line e /\
         (classifier env i = Unparseable -> builtFromDefaults defaults line e)) /\
  (k < length lines -> ~ answered (classifier env k) ->
     exists new, addLines env defaults 0 lines entries [] = (entries ++ new, Throws) /\
       length new = k /\
       forall i line e, lines !! i = Some line -> new !! i = Some e ->
         builtAt env defaults i line e /\
         (classifier env i = Unparseable -> builtFromDefaults defaults line e)) /\
  (forall (store : Store) chatId text,
     isCommand (trim text) = false -> quickLines (trim text) = lines ->
     State.settings (fst (getState chatId store)) = defaults ->
     State.entries (fst (getState chatId store)) = entries ->
     k < length lines -> ~ answered (classifier env k) ->
     exists new,
       webhook env store (Some (Message.mk chatId (Some text)))
         = (<[chatId := State.mk (entries ++ new) defaults]> (snd (getState chatId store)),
            None) /\
       length new = k /\
       forall i line e, lines !! i = Some line -> new !! i = Some e ->
         builtAt env defaults i line e /\
         (classifier env i = Unparseable -> builtFromDefaults defaults line e)).
Proof.
  intros Hfirst.
  pose proof (addLines_run env defaults k lines entries Hfirst) as [Hall Hstop].
  assert (Hdefaults : forall i line e, builtAt env defaults i line e ->
            builtAt env defaults i line e /\
            (classifier env i = Unparseable -> builtFromDefaults defaults line e)).
  { intros i line e Hb. split; [exact Hb|]. intros Hu. unfold builtAt in Hb.
    rewrite Hu in Hb. exists (utcDate env i). exact Hb. }
  split; [|split; [|split]].
  - intros today line.
    destruct (unparseable_answer_falls_back today line defaults) as [Heq Hok].
    split; [exact Heq|]. split; [exact Hok | reflexivity].
  - intros Hlen. destruct (Hall Hlen) as (new & Hrun & Hl & Hat).
    exists new. split; [exact Hrun|]. split; [exact Hl|].
    intros i line e H1 H2. apply Hdefaults, (Hat i line e H1 H2).
  - intros Hlen Hfail. destruct (Hstop Hlen Hfail) as (new & Hrun & Hl & Hat).
    exists new. split; [exact Hrun|]. split; [exact Hl|].
    intros i line e H1 H2. apply Hdefaults, (Hat i line e H1 H2).
  - intros store chatId text Hcmd Hlines Hset Hent Hlen Hfail.
    destruct (Hstop Hlen Hfail) as (new & Hrun & Hl & Hat).
    exists new. split; [|split; [exact Hl|]].
    + assert (Hne : quickLines (trim text) <> []).
      { rewrite Hlines. destruct lines; [cbn in Hlen; lia | discriminate]. }
      destruct (webhook_ingest env store chatId text Hcmd Hne) as [Hstore Hreply].
      cbv zeta in Hstore, Hreply.
      rewrite Hlines, Hset, Hent, Hrun in Hstore, Hreply. cbn [fst snd] in Hstore, Hreply.
      rewrite (surjective_pairing (webhook _ _ _)), Hstore, (Hreply eq_refl).
      reflexivity.
    + intros i line e H1 H2. apply Hdefaults, (Hat i line e H1 H2).
Qed.

End ClassifierFailures.

(* ================================================================== *)
(** * The sample inputs, evaluated *)

Section Samples.
Open Scope Z_scope.

Lemma sample_lines_tokenized :
  quickLines (js "-200 internet без ПДВ") = [internetLine] /\
  quickLines (js "+100 eur 2025-13-01") = [offCalendarLine] /\
  quickLines (js "-50 eur 03.03.2025") = [marchLine] /\
  quickLines (js "+0.125") = [eighthLine].
Proof. repeat split; vm_compute; reflexivity. Qed.

(** The cue in small and in capital letters. *)
Lemma cue_letter_cases :
  sameIgnoringCase (js "без ПДВ") (js "без пдв") /\
  sameIgnoringCase (js "без ПДВ") (js "БЕЗ ПДВ") /\
  sameIgnoringCase (js "без ПДВ") (js "Без Пдв").
Proof. repeat split; vm_compute; repeat constructor. Qed.

Lemma sample_entries_built :
  enrichLineWithAI sampleToday contraryAnswer internetLine sampleSettings = Ok internetEntry /\
  enrichLineWithAI sampleToday Unparseable offCalendarLine sampleSettings = Ok offCalendarEntry /\
  enrichLineWithAI sampleToday Unparseable marchLine sampleSettings = Ok marchEntry /\
  enrichLineWithAI sampleToday netAnswer eighthLine sampleSettings = Ok eighthEntry.
Proof. repeat split; vm_compute; reflexivity. Qed.

Lemma without_vat_cue_wins_witness :
  (containsIgnoringCase (js "без ПДВ") (Line.raw internetLine) \/
   containsIgnoringCase (js "без ПДВ") (Line.rest internetLine)) /\
  enrichLineWithAI sampleToday contraryAnswer internetLine sampleSettings = Ok internetEntry /\
  Entry.net internetEntry = toFixed2 (Fin 200) /\
  Entry.vat internetEntry = Fin 0 /\
  Entry.vat_deductible internetEntry = Fin 0.
Proof.
  assert (Hcue : containsIgnoringCase (js "без ПДВ") (Line.raw internetLine) \/
                 containsIgnoringCase (js "без ПДВ") (Line.rest internetLine)).
  { left. exists (js "-200 internet "), (js "без ПДВ"), [].
    split; [vm_compute; reflexivity | vm_compute; repeat constructor]. }
  assert (Hbuilt : enrichLineWithAI sampleToday contraryAnswer internetLine sampleSettings
                   = Ok internetEntry) by (vm_compute; reflexivity).
  destruct (without_vat_cue_wins sampleToday contraryAnswer internetLine sampleSettings
              internetEntry Hcue Hbuilt) as (_ & Hnet & Hvat & _ & _ & Hded).
  split; [exact Hcue|]. split; [exact Hbuilt|].
  split; [exact Hnet|]. split; [exact Hvat | exact Hded].
Defined.

(** C3 as stated fails: for the line "+0.125" taken as a net amount the
    entry has net 0.13, VAT 0.03 and gross 0.15, and the gross amount
    misses net plus VAT by more than 0.01, exactly and in Numbers; for the
    line "+9007199254740993" it misses it by a half. *)
Lemma gross_misses_net_plus_vat :
  quickLines (js "+0.125") = [eighthLine] /\
  enrichLineWithAI sampleToday netAnswer eighthLine sampleSettings = Ok eighthEntry /\
  Entry.net eighthEntry = hundredths 13 /\
  Entry.vat eighthEntry = hundredths 3 /\
  Entry.gross eighthEntry = hundredths 15 /\
  ~ (Qabs (valueOf (Entry.gross eighthEntry)
           - (valueOf (Entry.net eighthEntry) + valueOf (Entry.vat eighthEntry)))
     <= 1 # 100)%Q /\
  ~ (Qabs (valueOf (num_sub (Entry.gross eighthEntry)
                            (num_add (Entry.net eighthEntry) (Entry.vat eighthEntry))))
     <= 1 # 100)%Q /\
  quickLines (js "+9007199254740993") = [bigLine] /\
  enrichLineWithAI sampleToday netAnswer bigLine sampleSettings = Ok bigEntry /\
  (valueOf (Entry.gross bigEntry)
   - (valueOf (Entry.net bigEntry) + valueOf (Entry.vat bigEntry)) == - (1 # 2))%Q.
Proof.
  repeat split; try (vm_compute; reflexivity);
    intros H; vm_compute in H; apply H; reflexivity.
Qed.

Lemma entry_gross_is_net_plus_vat_witness :
  (Qabs (Line.amount marchLine) <= 1000000000)%Q /\
  enrichLineWithAI sampleToday Unparseable marchLine sampleSettings = Ok marchEntry /\
  exists net vat gross difference,
    Entry.net marchEntry = Fin net /\ Entry.vat marchEntry = Fin vat /\
    Entry.gross marchEntry = Fin gross /\
    (Qabs (gross - (net + vat)) <= (1 # 100) + (2 # 100000))%Q /\
    num_sub (Entry.gross marchEntry) (num_add (Entry.net marchEntry) (Entry.vat marchEntry))
      = Fin difference /\
    (Qabs difference <= (1 # 100) + (2 # 100000))%Q.
Proof.
  assert (Hsize : (Qabs (Line.amount marchLine) <= 1000000000)%Q)
    by (vm_compute; discriminate).
  assert (Hbuilt : enrichLineWithAI sampleToday Unparseable marchLine sampleSettings
                   = Ok marchEntry) by (vm_compute; reflexivity).
  split; [exact Hsize|]. split; [exact Hbuilt|].
  apply (entry_gross_is_net_plus_vat sampleToday Unparseable marchLine sampleSettings
           marchEntry Hsize); [vm_compute; discriminate | vm_compute; discriminate |].
  exact Hbuilt.
Defined.

Lemma net_gross_round_trip_witness :
  (Qabs 100 <= 1000000000)%Q /\
  exists net gross back,
    Triplet.net (computeTriplet (ANum (Fin 100)) (JStr (js "net")) (Fin 20) true)
    = Fin net /\
    Triplet.gross (computeTriplet (ANum (Fin 100)) (JStr (js "net")) (Fin 20) true)
    = Fin gross /\
    (Qabs (gross / (1 + 20 / 100) - 100) <= (1 # 100) + (3 # 1000000))%Q /\
    num_sub (num_div (Fin gross) (num_add (Fin 1) (num_div (Fin 20) (Fin 100))))
            (Fin 100) = Fin back /\
    (Qabs back <= (1 # 100) + (3 # 1000000))%Q /\
    ((1 <= 20)%Q ->
     (Qabs (gross / (1 + 20 / 100) - 100) <= 1 # 100)%Q /\ (Qabs back <= 1 # 100)%Q) /\
    (Qabs (gross / (1 + 20 / 100) - net) <= (15 # 1000) + (3 # 1000000))%Q.
Proof.
  assert (Hsize : (Qabs 100 <= 1000000000)%Q) by (vm_compute; discriminate).
  split; [exact Hsize|].
  apply (net_gross_round_trip 100 20 Hsize); [reflexivity | vm_compute; discriminate].
Defined.

(** C2 as stated fails: when the classifier request of the second of three
    lines fails, the handler sends no answer, the ledger holds the entry of
    the first line only, and neither the failing line nor the line after it
    gets an entry.  With a single line and a failing request the ledger
    stays empty. *)
Lemma failed_call_drops_entries :
  let after := webhook sampleEnv ∅ (Some (Message.mk 1 (Some threeLines))) in
  let alone := webhook offlineEnv ∅ (Some (Message.mk 1 (Some (js "+100")))) in
  length (quickLines threeLines) = 3%nat /\
  snd after = None /\
  State.entries <$> (fst after !! 1) = Some [hundredEntry] /\
  quickLines (js "+100") <> [] /\
  snd alone = None /\
  State.entries <$> (fst alone !! 1) = Some [].
Proof. repeat split; vm_compute; (reflexivity || discriminate). Qed.

Lemma classifier_failure_handling_witness :
  (forall i, (i < 1)%nat -> answered (classifier sampleEnv i)) /\
  (1 < length (quickLines threeLines))%nat /\
  ~ answered (classifier sampleEnv 1) /\
  exists new,
    addLines sampleEnv sampleSettings 0 (quickLines threeLines) [] [] = ([] ++ new, Throws) /\
    length new = 1%nat /\
    forall i line e, quickLines threeLines !! i = Some line -> new !! i = Some e ->
      builtAt sampleEnv sampleSettings i line e /\
      (classifier sampleEnv i = Unparseable -> builtFromDefaults sampleSettings line e).
Proof.
  assert (Hfirst : forall i, (i < 1)%nat -> answered (classifier sampleEnv i)).
  { intros i Hi. assert (i = 0%nat) as -> by lia. exact I. }
  assert (Hlen : (1 < length (quickLines threeLines))%nat) by (vm_compute; lia).
  assert (Hfail : ~ answered (classifier sampleEnv 1)) by (intros H; exact H).
  destruct (classifier_failure_handling sampleEnv sampleSettings 1
              (quickLines threeLines) [] Hfirst) as (_ & _ & Hstop & _).
  split; [exact Hfirst|]. split; [exact Hlen|]. split; [exact Hfail|].
  exact (Hstop Hlen Hfail).
Defined.

(** C6 as stated fails.  The line "+100 eur 2025-13-01" gives an entry of
    the year 2025 that belongs to none of its twelve months.  For VAT of
    0.1 in January and 0.2 in February the sum of the months is not the
    Number of the year, neither added as Numbers nor exactly.  And next to
    VAT of 1666666666666666 in January, three amounts of 0.1 in February
    count 0.3 in their month and nothing in the year. *)
Lemma monthly_vat_misses_yearly :
  quickLines (js "+100 eur 2025-13-01") = [offCalendarLine] /\
  enrichLineWithAI sampleToday Unparseable offCalendarLine sampleSettings
    = Ok offCalendarEntry /\
  monthlyVatDueSum [offCalendarEntry] (js "2025") = Fin 0 /\
  Totals.vatDue (vatTotalsYear [offCalendarEntry] (js "2025")) = hundredths 1667 /\
  State.entries <$>
    (fst (webhook answeringEnv ∅ (Some (Message.mk 1 (Some twoMonths)))) !! 1)
    = Some twoMonthsLedger /\
  monthlyVatDue twoMonthsLedger (js "2025")
    = [hundredths 10; hundredths 20; Fin 0; Fin 0; Fin 0; Fin 0;
       Fin 0; Fin 0; Fin 0; Fin 0; Fin 0; Fin 0] /\
  Totals.vatDue (vatTotalsYear twoMonthsLedger (js "2025")) = hundredths 30 /\
  monthlyVatDueSum twoMonthsLedger (js "2025") <> hundredths 30 /\
  ~ (monthlyVatDueExact twoMonthsLedger (js "2025") == valueOf (hundredths 30))%Q /\
  State.entries <$>
    (fst (webhook answeringEnv ∅ (Some (Message.mk 1 (Some largeAndSmall)))) !! 1)
    = Some largeAndSmallLedger /\
  monthlyVatDue largeAndSmallLedger (js "2025")
    = [Fin 1666666666666666; hundredths 30; Fin 0; Fin 0; Fin 0; Fin 0;
       Fin 0; Fin 0; Fin 0; Fin 0; Fin 0; Fin 0] /\
  Totals.vatDue (vatTotalsYear largeAndSmallLedger (js "2025")) = Fin 1666666666666666 /\
  toFixed2 (monthlyVatDueSum largeAndSmallLedger (js "2025")) <> Fin 1666666666666666 /\
  toFixed2 (Fin (monthlyVatDueExact largeAndSmallLedger (js "2025")))
    <> Fin 1666666666666666.
Proof.
  repeat split; try (vm_compute; reflexivity);
    intros H; vm_compute in H; discriminate H.
Qed.

Lemma monthly_vat_adds_up_to_yearly_witness :
  Forall smallEntry [hundredEntry; marchEntry] /\
  (length [hundredEntry; marchEntry] <= 1000)%nat /\
  length (js "2025") = 4%nat /\
  exists sum yearly,
    monthlyVatDueSum [hundredEntry; marchEntry] (js "2025") = Fin sum /\
    Totals.vatDue (vatTotalsYear [hundredEntry; marchEntry] (js "2025")) = Fin yearly /\
    toFixed2 (Fin sum) = Fin yearly /\
    (Qabs (sum - yearly) <= 1 # 10000)%Q /\
    toFixed2 (Fin (monthlyVatDueExact [hundredEntry; marchEntry] (js "2025"))) = Fin yearly /\
    (Qabs (monthlyVatDueExact [hundredEntry; marchEntry] (js "2025") - yearly)
     <= 1 # 10000)%Q.
Proof.
  assert (Hsmall : Forall smallEntry [hundredEntry; marchEntry]).
  { repeat constructor.
    - exists sampleToday, Unparseable, (Line.mk income 100 None [] (js "+100")),
        sampleSettings.
      repeat split; vm_compute; (reflexivity || discriminate).
    - exists sampleToday, Unparseable, marchLine, sampleSettings.
      repeat split; vm_compute; (reflexivity || discriminate). }
  assert (Hlen : (length [hundredEntry; marchEntry] <= 1000)%nat) by (simpl; lia).
  split; [exact Hsmall|]. split; [exact Hlen|]. split; [reflexivity|].
  apply (monthly_vat_adds_up_to_yearly [hundredEntry; marchEntry] (js "2025") Hsmall Hlen).
  - reflexivity.
  - intros e [<- | [<- | []]] _; vm_compute; tauto.
Defined.

Lemma reset_clears_ledger_only_witness :
  let store := fst (webhook sampleEnv ∅ (Some (Message.mk 1 (Some (js "+100"))))) in
  let after := webhook sampleEnv store (Some (Message.mk 1 (Some (js " /reset ")))) in
  trim (js " /reset ") = js "/reset" /\
  store !! 1 = Some (State.mk [hundredEntry] sampleSettings) /\
  fst after !! 1 = Some (State.mk [] sampleSettings) /\
  snd after = Some ResetDone.
Proof.
  intros store after.
  assert (Htrim : trim (js " /reset ") = js "/reset") by (vm_compute; reflexivity).
  assert (Hstore : store !! 1 = Some (State.mk [hundredEntry] sampleSettings))
    by (vm_compute; reflexivity).
  destruct (reset_clears_ledger_only sampleEnv store 1 (js " /reset ") Htrim)
    as (Hmine & _ & _ & Hreply).
  split; [exact Htrim|]. split; [exact Hstore|].
  split; [exact (Hmine _ Hstore) | exact Hreply].
Defined.

Lemma unmatched_lines_are_skipped_witness :
  isCommand (trim (js "just text")) = false /\
  quickLines (trim (js "just text")) = [] /\
  webhook sampleEnv ∅ (Some (Message.mk 1 (Some (js "just text"))))
    = (snd (getState 1 ∅), Some FormatHint).
Proof.
  assert (Hcmd : isCommand (trim (js "just text")) = false) by (vm_compute; reflexivity).
  assert (Hlines : forall l, In l (splitLines (trim (js "just text")) []) ->
                             ~ signedAmount (trim l)).
  { intros l Hl. vm_compute in Hl. destruct Hl as [<- | []].
    intros H. vm_compute in H. inversion H; discriminate. }
  destruct (unmatched_lines_are_skipped sampleEnv ∅ 1 (js "just text") Hcmd)
    as (_ & _ & Hnone & Hreply).
  split; [exact Hcmd|].
  split; [exact (Hnone _ Hlines) | exact (Hreply (Hnone _ Hlines))].
Defined.

Lemma settings_are_constant_witness :
  let store := fst (webhook sampleEnv ∅ (Some (Message.mk 1 (Some threeLines)))) in
  reachable store /\
  forall chatId st, store !! chatId = Some st ->
    State.settings st = Settings.mk (js "EUR") 20%Q.
Proof.
  intros store.
  assert (Hreach : reachable store) by (apply reach_update, reach_start).
  split; [exact Hreach|].
  intros chatId st H.
  exact (proj1 (proj1 (proj2 (settings_are_constant store Hreach)) chatId st H)).
Defined.

End Samples.

(* ================================================================== *)
(** * More on the rounding and the triplet *)

Section TripletOrder.
Open Scope Q_scope.

Lemma cents_le (n k : Z) : (n <= k)%Z -> (n # 100) <= (k # 100).
Proof. intros H. unfold Qle; simpl. lia. Qed.

Lemma cents_le_inv (n k : Z) : (n # 100) <= (k # 100) -> (n <= k)%Z.
Proof. unfold Qle; simpl. lia. Qed.

Lemma decimal2_monotone_nonneg (x y : Q) :
  0 <= x -> x <= y -> decimal2 x <= decimal2 y.
Proof.
  intros Hx Hxy. rewrite !decimal2_nonneg by lra.
  apply cents_le, Qfloor_resp_le. lra.
Qed.

(** The printed decimal grows with the number. *)
Lemma decimal2_monotone (x y : Q) : x <= y -> decimal2 x <= decimal2 y.
Proof.
  intros Hxy.
  destruct (Qlt_le_dec x 0) as [Hx | Hx]; [|apply decimal2_monotone_nonneg; assumption].
  destruct (Qlt_le_dec y 0) as [Hy | Hy].
  - pose proof (decimal2_monotone_nonneg (- y) (- x)) as H.
    rewrite !decimal2_opp in H. lra.
  - pose proof (decimal2_sign_nonpos x). pose proof (decimal2_sign_nonneg y Hy). lra.
Qed.

(** [toFixed2] below 2^31: the hundredths it prints and the Number that
    reads them back. *)
Lemma toFixed2_hundredths (x : Q) :
  - (2147483646) <= x -> x <= 2147483646 ->
  exists (n : Z) (v : Q),
    toFixed2 (Fin x) = Fin v /\ decimal2 x == n # 100 /\
    (n # 100) - (1 # 8388608) <= v /\ v <= (n # 100) + (1 # 8388608) /\
    (n = 0%Z -> v = 0).
Proof.
  intros Hlo Hhi.
  destruct (decimal2_wholeCents x) as [n Hn].
  destruct (decimal2_near x) as [Hd1 Hd2].
  destruct (cents_near n) as (v & Hv & Hv1 & Hv2 & _); [lra | lra |].
  assert (Hsmall : Qle_bool (inject_Z (10 ^ 21)) (Qabs x) = false).
  { destruct (Qle_bool (inject_Z (10 ^ 21)) (Qabs x)) eqn:E; [|reflexivity].
    apply Qle_bool_iff in E. exfalso.
    assert (Ha : Qabs x <= 2147483646) by (apply Qabs_Qle_condition; split; lra).
    assert (Hbig : 2147483646 < inject_Z (10 ^ 21)) by reflexivity.
    lra. }
  exists n, v. unfold toFixed2. rewrite Hsmall.
  rewrite (roundToDouble_Proper _ _ Hn).
  split; [exact Hv|]. split; [exact Hn|]. split; [exact Hv1|]. split; [exact Hv2|].
  intros ->. change (roundToDouble (0 # 100)) with (Fin 0) in Hv. congruence.
Qed.

(** [toFixed2] keeps the order of two numbers below 2^31. *)
Lemma toFixed2_monotone (x y : Q) :
  - (2147483646) <= x -> x <= y -> y <= 2147483646 ->
  exists v w, toFixed2 (Fin x) = Fin v /\ toFixed2 (Fin y) = Fin w /\ v <= w.
Proof.
  intros Hlo Hxy Hhi.
  destruct (toFixed2_hundredths x) as (n & v & Hv & Hn & Hv1 & Hv2 & _); [lra | lra |].
  destruct (toFixed2_hundredths y) as (m & w & Hw & Hm & Hw1 & Hw2 & _); [lra | lra |].
  exists v, w. split; [exact Hv|]. split; [exact Hw|].
  pose proof (decimal2_monotone x y Hxy) as Hle. rewrite Hn, Hm in Hle.
  apply cents_le_inv in Hle.
  destruct (Z.eq_dec n m) as [-> | Hne].
  - assert (Fin v = Fin w) as [= ->]; [|lra].
    rewrite <- Hv, <- Hw. unfold toFixed2.
    destruct (Qle_bool _ (Qabs x)) eqn:Ex; destruct (Qle_bool _ (Qabs y)) eqn:Ey.
    + exfalso. apply Qle_bool_iff in Ex.
      assert (Ha : Qabs x <= 2147483646) by (apply Qabs_Qle_condition; split; lra).
      assert (Hbig : 2147483646 < inject_Z (10 ^ 21)) by reflexivity. lra.
    + exfalso. apply Qle_bool_iff in Ex.
      assert (Ha : Qabs x <= 2147483646) by (apply Qabs_Qle_condition; split; lra).
      assert (Hbig : 2147483646 < inject_Z (10 ^ 21)) by reflexivity. lra.
    + exfalso. apply Qle_bool_iff in Ey.
      assert (Ha : Qabs y <= 2147483646) by (apply Qabs_Qle_condition; split; lra).
      assert (Hbig : 2147483646 < inject_Z (10 ^ 21)) by reflexivity. lra.
    + apply roundToDouble_Proper. rewrite Hn, Hm. reflexivity.
  - assert (Hstep : (n # 100) + (1 # 100) <= m # 100).
    { rewrite <- (cents_add n 1). apply cents_le. lia. }
    lra.
Qed.

(** A number that is not negative, or less than half a hundredth below
    zero, prints as a decimal that is not negative. *)
Lemma toFixed2_not_negative (x : Q) :
  - (1 # 200) < x -> x <= 2147483646 ->
  exists v, toFixed2 (Fin x) = Fin v /\ 0 <= v.
Proof.
  intros Hlo Hhi.
  destruct (toFixed2_hundredths x) as (n & v & Hv & Hn & Hv1 & Hv2 & Hzero); [lra | lra |].
  exists v. split; [exact Hv|].
  assert (Hd : 0 <= decimal2 x).
  { destruct (Qlt_le_dec x 0) as [Hneg | Hpos]; [|apply decimal2_sign_nonneg; exact Hpos].
    assert (H0 : decimal2 x == 0 # 100) by (apply decimal2_recover; lra).
    rewrite H0. lra. }
  rewrite Hn in Hd.
  assert (Hn0 : (0 <= n)%Z) by (unfold Qle in Hd; simpl in Hd; lia).
  destruct (Z.eq_dec n 0%Z) as [-> | Hne]; [rewrite (Hzero eq_refl); lra|].
  assert (Hstep : (0 # 100) + (1 # 100) <= n # 100).
  { rewrite <- (cents_add 0 1). apply cents_le. lia. }
  lra.
Qed.

(** For an amount from 0 to 10^9 that is a Number, and a VAT rate from 1
    to 100, the triplet has three finite components, none of them
    negative, and its net amount does not exceed its gross amount, for
    every amount type and VAT flag. *)
Theorem triplet_not_negative (amount rate : Q) (amountType : jsval) (vatApplicable : bool) :
  0 <= amount -> amount <= 1000000000 -> roundToDouble amount = Fin amount ->
  1 <= rate -> rate <= 100 ->
  exists net vat gross,
    computeTriplet (ANum (Fin amount)) amountType (Fin rate) vatApplicable
      = Triplet.mk (Fin net) (Fin vat) (Fin gross) /\
    0 <= vat /\ 0 <= net /\ net <= gross.
Proof.
  intros Ha0 Ha1 Hgrid Hr1 Hr100.
  assert (He : rate / 100 == rate * (1 # 100)) by (unfold Qdiv; reflexivity).
  destruct (toFixed2_not_negative amount) as (na & Hna & Hna0); [lra | lra |].
  assert (Hflat : exists net vat gross,
            Triplet.mk (toFixed2 (Fin amount)) (Fin 0) (toFixed2 (Fin amount))
              = Triplet.mk (Fin net) (Fin vat) (Fin gross) /\
            0 <= vat /\ 0 <= net /\ net <= gross).
  { exists na, 0, na. rewrite Hna. split; [reflexivity|]. split; lra. }
  unfold computeTriplet. cbn [numberOrZero].
  destruct vatApplicable; [|exact Hflat].
  destruct (rate_fraction rate ltac:(lra) Hr100) as (r & Hr & Hrlo & Hrhi & Hr0).
  rewrite Hr. set (rho := rate / 100) in *.
  assert (Hpos : num_le (Fin r) (Fin 0) = false).
  { cbn [num_le]. destruct (Qle_bool r 0) eqn:E; [|reflexivity].
    apply Qle_bool_iff in E. lra. }
  rewrite Hpos.
  destruct (strictEqStr amountType (js "net")).
  - (* the amount is net *)
    cbn [num_mul].
    assert (Hp1 : 0 <= amount * r) by (apply Qmult_le_0_compat; lra).
    assert (Hp2 : amount * r <= 1000000001) by nra.
    destruct (roundToDouble_near (amount * r) 1000000001 29) as (p & Hp & Hpl & Hph);
      [lra | lra | reflexivity | lia |].
    pose proof (roundToDouble_nonneg (amount * r) Hp1) as Hpn. rewrite Hp in Hpn.
    rewrite Hp. pow2_eval.
    destruct (toFixed2_hundredths p) as (nv & vat & Hvat & Hnv & Hv1 & Hv2 & Hzero);
      [lra | lra |].
    rewrite Hvat.
    assert (Hnv0 : (0 <= nv)%Z).
    { pose proof (decimal2_sign_nonneg p Hpn) as H. rewrite Hnv in H.
      unfold Qle in H; simpl in H; lia. }
    assert (Hnvhi : nv # 100 <= 1000000002).
    { destruct (decimal2_near p) as [_ H]. rewrite Hnv in H. lra. }
    destruct (Z.eq_dec nv 0%Z) as [Hz | Hnz].
    + rewrite (Hzero Hz).
      assert (Hsum : num_add (Fin amount) (Fin 0) = Fin amount).
      { cbn [num_add]. rewrite <- Hgrid. apply roundToDouble_Proper. ring. }
      rewrite Hsum, Hna. exists na, 0, na. split; [reflexivity|]. split; lra.
    + assert (Hstep : (0 # 100) + (1 # 100) <= nv # 100).
      { rewrite <- (cents_add 0 1). apply cents_le. lia. }
      cbn [num_add].
      destruct (roundToDouble_near (amount + vat) 2000000004 30) as (s & Hs & Hs1 & Hs2);
        [lra | lra | reflexivity | lia |].
      rewrite Hs. pow2_eval.
      destruct (toFixed2_monotone amount s) as (na' & gross & Hna' & Hgross & Hle);
        [lra | lra | lra |].
      rewrite Hna in Hna'. injection Hna' as <-.
      rewrite Hna, Hgross. exists na, vat, gross. split; [reflexivity|].
      split; [lra|]. split; [exact Hna0 | exact Hle].
  - (* the amount is gross *)
    cbn [num_add].
    destruct (roundToDouble_near (1 + r) 3 1) as (d & Hd & Hd1 & Hd2);
      [lra | lra | reflexivity | lia |].
    rewrite Hd. pow2_eval.
    assert (Hd0 : ~ d == 0) by lra.
    cbn [num_div]. rewrite (Qeq_bool_false d Hd0).
    set (t := amount / d).
    assert (Ht : t * d == amount) by (unfold t; field; exact Hd0).
    assert (Hdlo : 10099 # 10000 <= d) by lra.
    assert (Ht0 : 0 <= t) by (unfold t; apply Qle_shift_div_l; lra).
    assert (Htle : t * (10099 # 10000) <= amount) by nra.
    destruct (roundToDouble_near t 1000000001 29) as (q & Hq & Hq1 & Hq2);
      [lra | lra | reflexivity | lia |].
    pose proof (roundToDouble_nonneg t Ht0) as Hqn. rewrite Hq in Hqn.
    rewrite Hq. pow2_eval.
    destruct (toFixed2_hundredths q) as (nq & net & Hnet & Hnq & Hn1 & Hn2 & Hzero);
      [lra | lra |].
    destruct (toFixed2_not_negative q) as (net' & Hnet' & Hnet0); [lra | lra |].
    rewrite Hnet in Hnet'. injection Hnet' as <-.
    rewrite Hnet, Hna. cbn [num_sub].
    destruct (decimal2_near q) as [Hdq1 Hdq2]. rewrite Hnq in Hdq1, Hdq2.
    destruct (Qlt_le_dec amount (1 # 10000)) as [Htiny | Hbig].
    + (* the net amount rounds to 0 *)
      assert (Hq0 : decimal2 q == 0 # 100) by (apply decimal2_recover; lra).
      assert (Hnq0 : nq = 0%Z).
      { rewrite Hnq in Hq0. unfold Qeq in Hq0; simpl in Hq0. lia. }
      pose proof (Hzero Hnq0) as Hnet00. subst net.
      assert (Hdiff : roundToDouble (amount - 0) = Fin amount).
      { rewrite <- Hgrid. apply roundToDouble_Proper. ring. }
      rewrite Hdiff, Hna. exists 0, na, na. split; [reflexivity|]. split; lra.
    + assert (Hqle : q <= amount) by lra.
      destruct (toFixed2_monotone q amount) as (net' & na' & Hnet' & Hna' & Hle);
        [lra | lra | lra |].
      rewrite Hnet in Hnet'. injection Hnet' as <-.
      rewrite Hna in Hna'. injection Hna' as <-.
      destruct (roundToDouble_near (amount - net) 2000000004 30) as (w & Hw & Hw1 & Hw2);
        [lra | lra | reflexivity | lia |].
      rewrite Hw. pow2_eval.
      destruct (toFixed2_not_negative w) as (vat & Hvat & Hvat0); [lra | lra |].
      rewrite Hvat. exists net, vat, na. split; [reflexivity|].
      split; [exact Hvat0|]. split; [exact Hnet0 | exact Hle].
Qed.

Lemma triplet_not_negative_witness :
  0 <= (1 # 8) /\ roundToDouble (1 # 8) = Fin (1 # 8) /\
  exists net vat gross,
    computeTriplet (ANum (Fin (1 # 8))) (JStr (js "gross")) (Fin 20) true
      = Triplet.mk (Fin net) (Fin vat) (Fin gross) /\
    0 <= vat /\ 0 <= net /\ net <= gross.
Proof.
  assert (Ha : 0 <= (1 # 8)) by (vm_compute; discriminate).
  assert (Hg : roundToDouble (1 # 8) = Fin (1 # 8)) by (vm_compute; reflexivity).
  split; [exact Ha|]. split; [exact Hg|].
  apply (triplet_not_negative (1 # 8) 20 (JStr (js "gross")) true Ha);
    [vm_compute; discriminate | exact Hg | vm_compute; discriminate | vm_compute; discriminate].
Defined.

End TripletOrder.

(* ================================================================== *)
(** * More on the cues and the defaults *)

Section CuesAndDefaults.
Open Scope Z_scope.

Lemma testAnywhere_true (at_ : jsstring -> bool) (s : jsstring) :
  testAnywhere at_ s = true <-> exists pre suf, s = pre ++ suf /\ at_ suf = true.
Proof.
  split.
  - induction s as [| c s IH]; cbn.
    + rewrite orb_false_r. intros H. exists [], []. split; [reflexivity | exact H].
    + intros H. apply orb_true_iff in H as [H | H].
      * exists [], (c :: s). split; [reflexivity | exact H].
      * destruct (IH H) as (pre & suf & -> & Hat).
        exists (c :: pre), suf. split; [reflexivity | exact Hat].
  - intros (pre & suf & -> & H). apply testAnywhere_app, H.
Qed.

(** The without-VAT pattern ends in the with-VAT pattern: where "без ...
    пдв" matches, "з ... пдв" matches two code units later. *)
Lemma without_contains_with (s : jsstring) :
  phraseAt (js "без") (js "пдв") s = true ->
  exists a b rest, s = a :: b :: rest /\ phraseAt (js "з") (js "пдв") rest = true.
Proof.
  unfold phraseAt. change (js "без") with [1073; 1077; 1079]. change (js "з") with [1079].
  cbn [matchCI]. intros H.
  destruct s as [| a [| b [| c rest]]]; try discriminate;
    try (destruct (canonEq 1073 a); try discriminate;
         destruct (canonEq 1077 b); discriminate).
  destruct (canonEq 1073 a); [|discriminate].
  destruct (canonEq 1077 b); [|discriminate].
  destruct (canonEq 1079 c) eqn:Hc; [|discriminate].
  exists a, b, (c :: rest). split; [reflexivity|]. rewrite Hc. exact H.
Qed.

(** A text that says "without VAT" to the entry builder also says "with
    VAT" to it; the without-VAT test, which comes second, decides: the
    amount is net and no VAT applies, whatever the classifier answered. *)
Theorem without_vat_also_says_with (text : jsstring) :
  saysWithoutVAT text = true ->
  saysWithVAT text = true /\
  forall type dAT dVA,
    resolveVAT type (saysWithVAT text) (saysWithoutVAT text) dAT dVA
    = (JStr (js "net"), false).
Proof.
  intros H. split.
  - unfold saysWithoutVAT, saysWithVAT in *.
    apply testAnywhere_true in H as (pre & suf & -> & Hat).
    apply without_contains_with in Hat as (a & b & rest & -> & Hrest).
    apply testAnywhere_true. exists (pre ++ [a; b]), rest.
    split; [rewrite <- app_assoc; reflexivity | exact Hrest].
  - intros type dAT dVA. rewrite H. apply resolveVAT_without.
Qed.

Lemma without_vat_also_says_with_witness :
  saysWithoutVAT (js "-200 internet без ПДВ") = true /\
  saysWithVAT (js "-200 internet без ПДВ") = true.
Proof.
  assert (H : saysWithoutVAT (js "-200 internet без ПДВ") = true) by (vm_compute; reflexivity).
  split; [exact H|].
  exact (proj1 (without_vat_also_says_with (js "-200 internet без ПДВ") H)).
Defined.

(** The phrase "з ПДВ", in any letter case, is matched by the with-VAT
    pattern wherever it stands. *)
Lemma with_phrase_matches (w post : jsstring) :
  sameIgnoringCase (js "з ПДВ") w ->
  phraseAt (js "з") (js "пдв") (w ++ post) = true.
Proof.
  intros H.
  change (js "з ПДВ") with (js "з" ++ [32] ++ js "ПДВ") in H.
  apply Forall2_app_inv_l in H as (w1 & w' & H1 & H' & ->).
  apply Forall2_app_inv_l in H' as (sp & w2 & Hsp & H2 & ->).
  apply Forall2_cons_inv_l in Hsp as (c & nil_ & Hc & Hnil & ->).
  apply Forall2_nil_inv_l in Hnil as ->.
  apply upper_of_blank in Hc as ->.
  assert (H2' : sameIgnoringCase (js "пдв") w2).
  { unfold sameIgnoringCase in *.
    apply Forall2_cons_inv_l in H2 as (c1 & t1 & ? & H2 & ->).
    apply Forall2_cons_inv_l in H2 as (c2 & t2 & ? & H2 & ->).
    apply Forall2_cons_inv_l in H2 as (c3 & t3 & ? & H2 & ->).
    apply Forall2_nil_inv_l in H2 as ->.
    repeat constructor; assumption. }
  unfold phraseAt.
  rewrite <- !app_assoc, (matchCI_app _ _ _ H1).
  cbn [app dropSpaces]. change (isSpace 32) with true. cbv iota.
  assert (Hdrop : dropSpaces (w2 ++ post) = w2 ++ post).
  { apply Forall2_cons_inv_l in H2' as (c1 & t1 & Hc1 & _ & ->).
    cbn. rewrite (upper_pe_not_space _ Hc1). reflexivity. }
  rewrite Hdrop, (matchCI_app _ _ _ H2'). reflexivity.
Qed.

(** With the with-VAT cue alone the amount is gross and VAT applies. *)
Lemma resolveVAT_with (type : txType) (dAT dVA : jsval) :
  resolveVAT type true false dAT dVA = (JStr (js "gross"), true).
Proof. unfold resolveVAT. destruct type; reflexivity. Qed.

(** A line that contains "з ПДВ" in any letter case, and no without-VAT
    phrase, is built as a gross amount with VAT, whatever the classifier
    answered: the gross amount of the entry is the rounded amount of the
    line and, at a rate whose hundredth is above 0 as a Number, its net
    amount is the rounded quotient and its VAT the rounded rest, all in
    the arithmetic of Numbers. *)
Theorem with_vat_cue_wins today outcome line defaults e :
  containsIgnoringCase (js "з ПДВ") (Line.raw line) \/
  containsIgnoringCase (js "з ПДВ") (Line.rest line) ->
  saysWithoutVAT (Line.raw line ++ js " " ++ Line.rest line) = false ->
  num_le (num_div (Fin (Settings.vatRate defaults)) (Fin 100)) (Fin 0) = false ->
  enrichLineWithAI today outcome line defaults = Ok e ->
  let amount := Fin (Line.amount line) in
  let rate := num_div (Fin (Settings.vatRate defaults)) (Fin 100) in
  Entry.gross e = toFixed2 amount /\
  Entry.net e = toFixed2 (num_div amount (num_add (Fin 1) rate)) /\
  Entry.vat e = toFixed2 (num_sub amount (Entry.net e)).
Proof.
  intros Hcue Hno Hb H.
  assert (Hwith : saysWithVAT (Line.raw line ++ js " " ++ Line.rest line) = true).
  { unfold saysWithVAT.
    destruct Hcue as [(pre & w & post & -> & Hw) | (pre & w & post & -> & Hw)].
    - rewrite <- !app_assoc. apply testAnywhere_app, with_phrase_matches, Hw.
    - rewrite !app_assoc. rewrite <- (app_assoc _ w post).
      apply testAnywhere_app, with_phrase_matches, Hw. }
  assert (Ht : computeTriplet (ANum (Fin (Line.amount line))) (JStr (js "gross"))
                 (Fin (Settings.vatRate defaults)) true
               = let amount := Fin (Line.amount line) in
                 let rate := num_div (Fin (Settings.vatRate defaults)) (Fin 100) in
                 let net := toFixed2 (num_div amount (num_add (Fin 1) rate)) in
                 Triplet.mk net (toFixed2 (num_sub amount net)) (toFixed2 amount)).
  { unfold computeTriplet. rewrite Hb. reflexivity. }
  revert H. unfold enrichLineWithAI. rewrite Hwith, Hno.
  destruct outcome as [| | data]; [discriminate | |].
  - cbn [getField]. rewrite resolveVAT_with, Ht. intros [= <-].
    cbv zeta. cbn [Entry.gross Entry.net Entry.vat Triplet.net Triplet.vat Triplet.gross].
    repeat split.
  - destruct (getField data (js "amount_type")) as [dAT|]; [|discriminate].
    destruct (getField data (js "vat_applicable")) as [dVA|]; [|discriminate].
    destruct (getField data (js "category")) as [dCat|]; [|discriminate].
    destruct (getField data (js "description")) as [dDesc|]; [|discriminate].
    rewrite resolveVAT_with, Ht. intros [= <-].
    cbv zeta. cbn [Entry.gross Entry.net Entry.vat Triplet.net Triplet.vat Triplet.gross].
    repeat split.
Qed.

End CuesAndDefaults.

Section ResolutionDefaults.
Open Scope Z_scope.

(** Without a cue in the text: the VAT flag is the classifier's when it
    gave a boolean and [true] otherwise; an amount type the classifier gave
    is kept, unless it is "unknown"; a missing or unknown amount type
    becomes "gross", except for an expense without VAT, where it becomes
    "net".  With or without a cue, the amount type that leaves the
    resolution is never "unknown". *)
Theorem resolution_defaults (type : txType) (saidWithVAT saidWithoutVAT : bool)
    (dAT dVA : jsval) :
  let flag := match dVA with JBool b => b | _ => true end in
  strictEqStr (fst (resolveVAT type saidWithVAT saidWithoutVAT dAT dVA)) (js "unknown")
    = false /\
  snd (resolveVAT type false false dAT dVA) = flag /\
  (truthy dAT = true -> strictEqStr dAT (js "unknown") = false ->
     fst (resolveVAT type false false dAT dVA) = dAT) /\
  (truthy dAT = false \/ strictEqStr dAT (js "unknown") = true ->
     fst (resolveVAT type false false dAT dVA)
     = match type with
       | income => JStr (js "gross")
       | expense => if flag then JStr (js "gross") else JStr (js "net")
       end).
Proof.
  cbv zeta. unfold resolveVAT, orElse.
  split; [|split; [|split]].
  - destruct saidWithoutVAT; [destruct saidWithVAT, type; reflexivity|].
    destruct saidWithVAT; [destruct type; reflexivity|].
    destruct (truthy dAT) eqn:Ht.
    + destruct type; cbn [fst];
        destruct (strictEqStr dAT (js "unknown")) eqn:Hu; try exact Hu;
        try reflexivity.
      destruct (default true _); reflexivity.
    + destruct type; cbn; [reflexivity|].
      destruct (default true _); reflexivity.
  - destruct type, dVA as [| | [] | | | |]; reflexivity.
  - intros Ht Hu. rewrite Ht. destruct type; cbn [fst]; rewrite Hu; reflexivity.
  - intros [Ht | Hu].
    + rewrite Ht. destruct type, dVA as [| | [] | | | |]; reflexivity.
    + destruct (truthy dAT); destruct type; cbn [fst]; rewrite ?Hu;
        destruct dVA as [| | [] | | | |]; reflexivity.
Qed.

End ResolutionDefaults.

(* ================================================================== *)
(** * More on the entries *)

Section EntryShape.
Open Scope Z_scope.

(** The VAT of an entry sits in the bucket of its type and the other
    bucket is 0: collected for an income, deductible for an expense (for
    an expense without VAT both are 0, as the VAT is). *)
Theorem entry_vat_buckets today outcome line defaults e :
  enrichLineWithAI today outcome line defaults = Ok e ->
  Entry.type e = Line.type line /\
  match Entry.type e with
  | income => Entry.vat_collected e = Entry.vat e /\ Entry.vat_deductible e = Fin 0
  | expense => Entry.vat_collected e = Fin 0 /\ Entry.vat_deductible e = Entry.vat e
  end.
Proof.
  intros H.
  destruct (enrichLineWithAI_Ok _ _ _ _ _ H)
    as (amount_type & vat_applicable & _ & _ & _ & _ & Hfields).
  cbv zeta in Hfields.
  destruct Hfields as (Htype & _ & Hvat & _ & Hcol & Hded & _).
  split; [exact Htype|]. rewrite Htype, Hcol, Hded, Hvat.
  destruct (Line.type line); [split; reflexivity|].
  split; [reflexivity|]. destruct vat_applicable; reflexivity.
Qed.

(** Without anything usable from the classifier the category is "other"
    and the description is the rest of the line; whatever the classifier
    gives, the category of an entry is never an empty value. *)
Theorem entry_text_fallbacks today outcome line defaults e :
  enrichLineWithAI today outcome line defaults = Ok e ->
  truthy (Entry.category e) = true /\
  (outcome = Unparseable \/ outcome = Parsed (JObj []) ->
   Entry.category e = JStr (js "other") /\
   Entry.description e = JStr (Line.rest line)).
Proof.
  unfold enrichLineWithAI. intros H.
  destruct outcome as [| | data]; [discriminate | |].
  - cbn [getField] in H. destruct (resolveVAT _ _ _ _ _).
    injection H as <-. cbn [Entry.category Entry.description]. split; [reflexivity|].
    intros _. split; [reflexivity|].
    unfold orElse. cbn [truthy]. destruct (Line.rest line); reflexivity.
  - destruct (getField data (js "amount_type")) as [dAT|]; [|discriminate].
    destruct (getField data (js "vat_applicable")) as [dVA|]; [|discriminate].
    destruct (getField data (js "category")) as [dCat|] eqn:Hcat; [|discriminate].
    destruct (getField data (js "description")) as [dDesc|] eqn:Hdesc; [|discriminate].
    destruct (resolveVAT _ _ _ _ _).
    injection H as <-. cbn [Entry.category Entry.description]. split.
    + unfold orElse. destruct (truthy dCat) eqn:Ht; [exact Ht | reflexivity].
    + intros [Hu | Hp]; [discriminate|]. injection Hp as ->.
      cbn in Hcat, Hdesc. injection Hcat as <-. injection Hdesc as <-.
      split; [reflexivity|].
      unfold orElse. cbn [truthy]. destruct (Line.rest line); reflexivity.
Qed.

(** Reading a field of the classifier's answer throws exactly when the
    answer is [null] (or [undefined]): the entry builder then throws like
    on a failed request.  An answer that is a boolean, a number, a string or
    an array has none of the fields and counts as the empty object. *)
Theorem parsed_answer_kinds today data line defaults :
  (enrichLineWithAI today (Parsed data) line defaults = Throws <->
   data = JNull \/ data = JUndefined) /\
  (match data with
   | JBool _ | JNum _ | JStr _ | JArr _ => True
   | _ => False
   end ->
   enrichLineWithAI today (Parsed data) line defaults
   = enrichLineWithAI today (Parsed (JObj [])) line defaults).
Proof.
  split.
  - split.
    + intros H. destruct data; auto; exfalso; revert H;
        unfold enrichLineWithAI; cbn [getField];
        destruct (resolveVAT _ _ _ _ _); discriminate.
    + intros [-> | ->]; reflexivity.
  - destruct data; intros []; reflexivity.
Qed.

End EntryShape.

(* ================================================================== *)
(** * More on the tokenizer *)

Section TokenizerShape.
Open Scope Z_scope.

Lemma spanWhile_exact (f : Z -> bool) (a t : jsstring) :
  forallb f a = true ->
  match t with c :: _ => f c = false | [] => True end ->
  spanWhile f (a ++ t) = (a, t).
Proof.
  intros Ha Ht. rewrite (spanWhile_app _ _ _ Ha).
  destruct t as [| c t]; cbn; [rewrite app_nil_r; reflexivity|].
  rewrite Ht. cbn. rewrite app_nil_r. reflexivity.
Qed.

Lemma dropSpaces_fixed (s : jsstring) :
  match s with c :: _ => isSpace c = false | [] => True end -> dropSpaces s = s.
Proof. destruct s as [| c s]; [reflexivity|]. cbn. intros ->. reflexivity. Qed.

Lemma dropSpaces_split (s : jsstring) :
  exists ws, s = ws ++ dropSpaces s /\ forallb isSpace ws = true /\
             match dropSpaces s with c :: _ => isSpace c = false | [] => True end.
Proof.
  induction s as [| c s (ws & Hs & Hws & Hhead)]; [exists []; repeat split|].
  cbn. destruct (isSpace c) eqn:Hc.
  - exists (c :: ws). cbn. rewrite Hc, Hws. repeat split; [congruence | exact Hhead].
  - exists []. repeat split. exact Hc.
Qed.

(** Trimming leaves no blank at either end: trimming again changes
    nothing. *)
Lemma trim_idempotent (s : jsstring) : trim (trim s) = trim s.
Proof.
  unfold trim.
  destruct (dropSpaces_split s) as (ws1 & _ & _ & Ha).
  set (a := dropSpaces s) in *.
  destruct (dropSpaces_split (rev a)) as (ws2 & Hrev & _ & Hb).
  set (b := dropSpaces (rev a)) in *.
  assert (Hprefix : a = rev b ++ rev ws2).
  { rewrite <- (rev_involutive a), Hrev, rev_app_distr. reflexivity. }
  assert (Hfront : dropSpaces (rev b) = rev b).
  { apply dropSpaces_fixed. destruct (rev b) as [| c t] eqn:E; [exact I|].
    rewrite Hprefix in Ha. cbn in Ha. exact Ha. }
  rewrite Hfront, rev_involutive. f_equal. apply dropSpaces_fixed, Hb.
Qed.

Lemma digitsValue_nonneg (ds : jsstring) :
  forallb isDigit ds = true -> 0 <= digitsValue ds.
Proof.
  unfold digitsValue.
  assert (H : forall acc, 0 <= acc -> forallb isDigit ds = true ->
                0 <= fold_left (fun acc c => acc * 10 + (c - 48)) ds acc).
  { induction ds as [| c ds IH]; intros acc Hacc Hd; cbn; [exact Hacc|].
    cbn in Hd. apply andb_true_iff in Hd as [Hc Hds].
    apply IH; [|exact Hds]. unfold isDigit in Hc. lia. }
  apply H. lia.
Qed.

Lemma pow2_plus (n m : Z) : (2 ^ (n + m) == 2 ^ n * 2 ^ m)%Q.
Proof. apply Qpower_plus. apply two_not_0. Qed.

Lemma overflowThreshold_pow2 : (overflowThreshold == 2 ^ 1024 - 2 ^ 970)%Q.
Proof.
  unfold overflowThreshold, Z.sub. rewrite inject_Z_plus, inject_Z_opp.
  rewrite !pow2_Z by lia. reflexivity.
Qed.

(** A finite Number that comes out of the rounding lies below the bound
    from which a decimal reads as [Infinity]: it is at most the largest
    double. *)
Lemma roundToDouble_range (x q : Q) :
  (0 <= x)%Q -> roundToDouble x = Fin q -> (0 <= q /\ q < overflowThreshold)%Q.
Proof.
  intros Hx H. split.
  { pose proof (roundToDouble_nonneg x Hx) as Hs. rewrite H in Hs. exact Hs. }
  rewrite overflowThreshold_pow2.
  assert (Hgap : (2 ^ 971 == 2 * 2 ^ 970)%Q)
    by (replace 971 with (970 + 1) by lia; apply pow2_succ).
  assert (Htop : (2 ^ 1024 == 2 ^ 53 * 2 ^ 971)%Q)
    by (replace 1024 with (53 + 971) by lia; apply pow2_plus).
  pose proof (pow2_pos 970) as Hp970. pose proof (pow2_pos 53) as Hp53.
  revert H. unfold roundToDouble.
  destruct (Qeq_bool x 0) eqn:Ex; [intros [= <-]; nra|].
  assert (Hx0 : ~ (x == 0)%Q) by (intros E; apply Qeq_bool_iff in E; congruence).
  assert (Hxpos : (0 < x)%Q).
  { destruct (Qlt_le_dec 0 x); [assumption | exfalso; apply Hx0; lra]. }
  set (e := ulpExp x). pose proof (pow2_pos e) as Hpe.
  set (m := roundTiesToEven (x / 2 ^ e)).
  assert (Hm0 : (0 <= m)%Z).
  { apply roundTiesToEven_nonneg. apply Qle_shift_div_l; lra. }
  assert (Hm0' : (0 <= inject_Z m)%Q) by (change 0%Q with (inject_Z 0); rewrite <- Zle_Qle; lia).
  assert (Hv0 : (0 <= inject_Z m * 2 ^ e)%Q) by (apply Qmult_le_0_compat; lra).
  destruct (Qle_bool (2 ^ 1024) (Qabs (inject_Z m * 2 ^ e))) eqn:E; [discriminate|].
  intros [= <-]. rewrite Qred_correct.
  apply Qle_bool_false in E. rewrite Qabs_pos in E by exact Hv0.
  destruct (Z_le_gt_dec e 970) as [Hsmall | Hlarge].
  - (* at most 53 bits on a grid of step at most 2^970 *)
    assert (Hlog : (Qlog2 (Qabs x) - 52 <= e)%Z) by (unfold e, ulpExp; lia).
    assert (Habs : (Qabs x == x)%Q) by (apply Qabs_pos; lra).
    rewrite (Qlog2_Proper (Qabs x) x) in Hlog; [|rewrite Habs; exact Hxpos | exact Habs].
    destruct (Qlog2_spec x Hxpos) as [_ Hup].
    assert (Hup' : (x < 2 ^ 53 * 2 ^ e)%Q).
    { rewrite <- pow2_plus. apply Qlt_le_trans with (2 ^ (Qlog2 x + 1))%Q; [exact Hup|].
      apply pow2_le. lia. }
    assert (Hy : (x / 2 ^ e < 2 ^ 53)%Q) by (apply Qlt_shift_div_r; lra).
    pose proof (roundTiesToEven_near (x / 2 ^ e)) as Hnear. fold m in Hnear.
    apply Qabs_Qle_condition in Hnear. destruct Hnear as [_ Hnear].
    assert (Hm53 : (m <= 2 ^ 53)%Z).
    { assert (Hlt : (inject_Z m < inject_Z (2 ^ 53 + 1))%Q).
      { rewrite inject_Z_plus, pow2_Z by lia. change (inject_Z 1) with 1%Q. lra. }
      rewrite <- Zlt_Qlt in Hlt. lia. }
    assert (Hm53' : (inject_Z m <= 2 ^ 53)%Q).
    { rewrite <- pow2_Z by lia. rewrite <- Zle_Qle. exact Hm53. }
    assert (Hstep : (2 ^ e <= 2 ^ 970)%Q) by (apply pow2_le; exact Hsmall).
    assert (Hv : (inject_Z m * 2 ^ e <= 2 ^ 53 * 2 ^ 970)%Q) by nra.
    nra.
  - (* a multiple of a step of at least 2^971 below 2^1024 *)
    destruct (Z_le_gt_dec 1024 e) as [Hhuge | Hmid].
    + assert (Hstep : (2 ^ 1024 <= 2 ^ e)%Q) by (apply pow2_le; exact Hhuge).
      assert (Hm1 : (inject_Z m < inject_Z 1)%Q).
      { change (inject_Z 1) with 1%Q.
        destruct (Qlt_le_dec (inject_Z m) 1) as [Hlt | Hge]; [exact Hlt|]. exfalso. nra. }
      rewrite <- Zlt_Qlt in Hm1. assert (m = 0%Z) as -> by lia.
      change (inject_Z 0) with 0%Q. nra.
    + assert (Hsplit : (2 ^ 1024 == 2 ^ (1024 - e) * 2 ^ e)%Q).
      { rewrite <- pow2_plus. replace (1024 - e + e)%Z with 1024%Z by lia. reflexivity. }
      assert (Hmlt : (inject_Z m < inject_Z (2 ^ (1024 - e)))%Q).
      { rewrite pow2_Z by lia.
        destruct (Qlt_le_dec (inject_Z m) (2 ^ (1024 - e))) as [Hlt | Hge]; [exact Hlt|].
        exfalso. nra. }
      rewrite <- Zlt_Qlt in Hmlt.
      assert (Hmle : (inject_Z (m + 1) <= inject_Z (2 ^ (1024 - e)))%Q)
        by (rewrite <- Zle_Qle; lia).
      rewrite inject_Z_plus, pow2_Z in Hmle by lia. change (inject_Z 1) with 1%Q in Hmle.
      assert (Hstep : (2 ^ 971 <= 2 ^ e)%Q) by (apply pow2_le; lia).
      assert (Hv : ((inject_Z m + 1) * 2 ^ e <= 2 ^ 1024)%Q) by (rewrite Hsplit; nra).
      nra.
Qed.

(** Below that bound the rounding gives a finite Number. *)
Lemma roundToDouble_finite (x : Q) :
  (0 <= x)%Q -> (x < overflowThreshold)%Q -> exists q, roundToDouble x = Fin q.
Proof.
  intros Hx Hlt. rewrite overflowThreshold_pow2 in Hlt.
  assert (Hgap : (2 ^ 971 == 2 * 2 ^ 970)%Q)
    by (replace 971 with (970 + 1) by lia; apply pow2_succ).
  assert (Htop : (2 ^ 1024 == 2 ^ 53 * 2 ^ 971)%Q)
    by (replace 1024 with (53 + 971) by lia; apply pow2_plus).
  pose proof (pow2_pos 970) as Hp970. pose proof (pow2_pos 53) as Hp53.
  unfold roundToDouble.
  destruct (Qeq_bool x 0) eqn:Ex; [eexists; reflexivity|].
  assert (Hx0 : ~ (x == 0)%Q) by (intros E; apply Qeq_bool_iff in E; congruence).
  assert (Hxpos : (0 < x)%Q).
  { destruct (Qlt_le_dec 0 x); [assumption | exfalso; apply Hx0; lra]. }
  set (e := ulpExp x). pose proof (pow2_pos e) as Hpe.
  set (m := roundTiesToEven (x / 2 ^ e)).
  assert (Hm0 : (0 <= m)%Z).
  { apply roundTiesToEven_nonneg. apply Qle_shift_div_l; lra. }
  assert (Hm0' : (0 <= inject_Z m)%Q) by (change 0%Q with (inject_Z 0); rewrite <- Zle_Qle; lia).
  assert (Hv0 : (0 <= inject_Z m * 2 ^ e)%Q) by (apply Qmult_le_0_compat; lra).
  assert (Habs : (Qabs x == x)%Q) by (apply Qabs_pos; lra).
  assert (Hlog : (Qlog2 (Qabs x) - 52 <= e)%Z) by (unfold e, ulpExp; lia).
  assert (Hlog' : (e <= Z.max (Qlog2 (Qabs x) - 52) (-1074))%Z) by (unfold e, ulpExp; lia).
  assert (HlogEq : Qlog2 (Qabs x) = Qlog2 x)
    by (apply Qlog2_Proper; [rewrite Habs; exact Hxpos | exact Habs]).
  rewrite HlogEq in Hlog, Hlog'.
  assert (He : (e <= 971)%Z).
  { assert (Hx1024 : (x < 2 ^ (1023 + 1))%Q) by (change (1023 + 1)%Z with 1024%Z; lra).
    pose proof (Qlog2_below x 1023 Hxpos Hx1024). lia. }
  destruct (Qlog2_spec x Hxpos) as [_ Hup].
  assert (Hup' : (x < 2 ^ 53 * 2 ^ e)%Q).
  { rewrite <- pow2_plus. apply Qlt_le_trans with (2 ^ (Qlog2 x + 1))%Q; [exact Hup|].
    apply pow2_le. lia. }
  pose proof (roundTiesToEven_near (x / 2 ^ e)) as Hnear. fold m in Hnear.
  apply Qabs_Qle_condition in Hnear. destruct Hnear as [_ Hnear].
  assert (Hfin : (inject_Z m * 2 ^ e < 2 ^ 1024)%Q).
  { destruct (Z_le_gt_dec e 970) as [Hsmall | Hlarge].
    - assert (Hy : (x / 2 ^ e < 2 ^ 53)%Q) by (apply Qlt_shift_div_r; lra).
      assert (Hm53 : (m <= 2 ^ 53)%Z).
      { assert (Hlt' : (inject_Z m < inject_Z (2 ^ 53 + 1))%Q).
        { rewrite inject_Z_plus, pow2_Z by lia. change (inject_Z 1) with 1%Q. lra. }
        rewrite <- Zlt_Qlt in Hlt'. lia. }
      assert (Hm53' : (inject_Z m <= 2 ^ 53)%Q).
      { rewrite <- pow2_Z by lia. rewrite <- Zle_Qle. exact Hm53. }
      assert (Hstep : (2 ^ e <= 2 ^ 970)%Q) by (apply pow2_le; exact Hsmall).
      assert (Hv : (inject_Z m * 2 ^ e <= 2 ^ 53 * 2 ^ 970)%Q) by nra.
      nra.
    - assert (e = 971) as Heq by lia. rewrite Heq in *.
      assert (Hy : (x / 2 ^ 971 < 2 ^ 53 - (1 # 2))%Q).
      { apply Qlt_shift_div_r; [lra | nra]. }
      assert (Hm53 : (m < 2 ^ 53)%Z).
      { assert (Hlt' : (inject_Z m < inject_Z (2 ^ 53))%Q) by (rewrite pow2_Z by lia; lra).
        rewrite <- Zlt_Qlt in Hlt'. exact Hlt'. }
      assert (Hm53' : (inject_Z (m + 1) <= inject_Z (2 ^ 53))%Q) by (rewrite <- Zle_Qle; lia).
      rewrite inject_Z_plus, pow2_Z in Hm53' by lia. change (inject_Z 1) with 1%Q in Hm53'.
      pose proof (pow2_pos 971). nra. }
  assert (Hb : Qle_bool (2 ^ 1024) (Qabs (inject_Z m * 2 ^ e)) = false).
  { destruct (Qle_bool (2 ^ 1024) (Qabs (inject_Z m * 2 ^ e))) eqn:E; [|reflexivity].
    apply Qle_bool_iff in E. rewrite Qabs_pos in E by exact Hv0. exfalso. lra. }
  rewrite Hb. eexists. reflexivity.
Qed.

(** A number [parseFloat] reads is not negative and lies below the
    overflow bound of a double. *)
Lemma parseFloat_range (s : jsstring) (q : Q) :
  parseFloat s = Fin q -> (0 <= q /\ q < overflowThreshold)%Q.
Proof.
  unfold parseFloat.
  destruct (spanWhile isDigit s) as [ip s1] eqn:Hip.
  apply spanWhile_spec in Hip as (_ & Hd & _).
  set (fp := match s1 with [] => [] | c :: s2 => _ end).
  assert (Hf : forallb isDigit fp = true).
  { unfold fp. destruct s1 as [| c s2]; [reflexivity|].
    destruct (c =? dot); [|reflexivity].
    destruct (spanWhile isDigit s2) as [f r] eqn:Hfp.
    apply spanWhile_spec in Hfp as (_ & H & _). exact H. }
  assert (Hv : (0 <= decimalValue ip fp)%Q).
  { unfold decimalValue.
    pose proof (digitsValue_nonneg ip Hd) as H1.
    pose proof (digitsValue_nonneg fp Hf) as H2.
    assert (H3 : 0 < 10 ^ Z.of_nat (length fp)) by (apply Z.pow_pos_nonneg; lia).
    rewrite Zle_Qle in H1, H2. rewrite Zlt_Qlt in H3.
    change (inject_Z 0) with 0%Q in *.
    assert (H4 : (0 <= inject_Z (digitsValue fp) / inject_Z (10 ^ Z.of_nat (length fp)))%Q).
    { apply Qle_shift_div_l; [exact H3 | lra]. }
    lra. }
  destruct ip, fp; try discriminate; apply roundToDouble_range; exact Hv.
Qed.

Lemma upper_of_letter (c : Z) : isAsciiLetter c = true -> isUpperAscii (upperUnit c) = true.
Proof.
  unfold isAsciiLetter, isUpperAscii, upperUnit. intros H.
  repeat case_match; lia.
Qed.

(** A record of the tokenizer keeps the line as [raw], has the type of the
    sign, an amount that is not negative and below the overflow bound of a
    double, no currency or one of three capital letters, and a rest
    without blanks at its ends. *)
Theorem tokenizer_record_shape (line : jsstring) (rec : Line.t) :
  quickLine line = Some rec ->
  Line.raw rec = line /\
  (Line.type rec = income <-> head line = Some 43) /\
  (Line.type rec = expense <-> head line = Some 45) /\
  (0 <= Line.amount rec /\ Line.amount rec < overflowThreshold)%Q /\
  match Line.currency rec with
  | None => True
  | Some c => length c = 3%nat /\ forallb isUpperAscii c = true
  end /\
  trim (Line.rest rec) = Line.rest rec.
Proof.
  unfold quickLine. intros H.
  destruct (matchLine line) as [[[[sign m2] m3] after]|] eqn:Hm; [|discriminate].
  destruct (parseFloat _) as [| | amount] eqn:Hp; try discriminate.
  injection H as <-. cbn [Line.raw Line.type Line.amount Line.currency Line.rest].
  assert (Hsign : head line = Some sign /\ isSign sign = true /\
                  match m3 with
                  | Some c => exists x y z, c = [x; y; z] /\ isAsciiLetter x = true /\
                                isAsciiLetter y = true /\ isAsciiLetter z = true
                  | None => True
                  end).
  { unfold matchLine in Hm. destruct line as [| c s]; [discriminate|].
    destruct (isSign c) eqn:Hc; [|discriminate].
    destruct (spanWhile isSpace s) as [ws t].
    destruct (spanWhile isAmountChar t) as [run u].
    assert (Hcur : forall cur aft, optCurrency u = (cur, aft) ->
              match cur with
              | Some c => exists x y z, c = [x; y; z] /\ isAsciiLetter x = true /\
                            isAsciiLetter y = true /\ isAsciiLetter z = true
              | None => True
              end).
    { unfold optCurrency. intros cur aft.
      destruct u as [| x [| y [| z u']]]; try (intros [= <- _]; exact I).
      destruct (isAsciiLetter x && isAsciiLetter y && isAsciiLetter z) eqn:E;
        intros [= <- _]; [|exact I].
      apply andb_true_iff in E as [E Hz]. apply andb_true_iff in E as [Hx Hy].
      exists x, y, z. auto. }
    destruct run as [| r1 run'].
    - destruct (last ws); [|discriminate].
      destruct (optCurrency u) as [cur aft] eqn:Ho. injection Hm as <- _ <- _.
      cbn. repeat split; [exact Hc | exact (Hcur _ _ eq_refl)].
    - destruct (optCurrency u) as [cur aft] eqn:Ho. injection Hm as <- _ <- _.
      cbn. repeat split; [exact Hc | exact (Hcur _ _ eq_refl)]. }
  destruct Hsign as (Hhead & Hsign & Hcur).
  split; [reflexivity|]. rewrite Hhead.
  unfold isSign in Hsign.
  split; [|split; [|split; [|split]]].
  - destruct (sign =? 43) eqn:E.
    + apply Z.eqb_eq in E as ->. split; reflexivity.
    + split; [discriminate|]. intros [= ->]. discriminate.
  - destruct (sign =? 43) eqn:E.
    + apply Z.eqb_eq in E as ->. split; discriminate.
    + split; [|reflexivity]. intros _. f_equal. lia.
  - exact (parseFloat_range _ _ Hp).
  - destruct m3 as [c|]; [|exact I]. destruct Hcur as (x & y & z & -> & Hx & Hy & Hz).
    cbn. rewrite !upper_of_letter by assumption. split; reflexivity.
  - apply trim_idempotent.
Qed.

Lemma splitLines_newline (a b cur : jsstring) :
  splitLines (a ++ 10 :: b) cur = splitLines a cur ++ splitLines b [].
Proof.
  revert cur. induction a as [| c a IH]; intros cur; cbn; [reflexivity|].
  destruct (c =? 10); cbn; rewrite IH; reflexivity.
Qed.

(** Each line is tokenized on its own: the records of two texts joined by
    a line break are the records of the first followed by those of the
    second. *)
Theorem quickLines_line_by_line (a b : jsstring) :
  quickLines (a ++ 10 :: b) = quickLines a ++ quickLines b.
Proof.
  unfold quickLines.
  rewrite splitLines_newline, List.map_app, List.filter_app. apply omap_app.
Qed.

End TokenizerShape.

(* ================================================================== *)
(** * More on the aggregates *)

Section AggregatesMore.
Open Scope Q_scope.

Lemma grossShareSum_split (l : list Entry.t) :
  grossShareSum l
  = (sumZ (List.map centsOf (List.map Entry.gross (List.filter isIncome l)))
     - sumZ (List.map centsOf (List.map Entry.gross (List.filter isExpense l))))%Z.
Proof.
  unfold grossShareSum.
  induction l as [| e l IH]; [reflexivity|].
  cbn [List.map List.filter]. rewrite sumZ_cons, IH.
  unfold grossShare, isExpense, isIncome.
  destruct (Entry.type e); cbn [negb List.map]; rewrite ?sumZ_cons; lia.
Qed.

(** The rounded difference of two decimal amounts held as Numbers is the
    Number of their difference. *)
Lemma rounded_cents_difference (P V : Z) :
  - (2000002000) <= P # 100 -> P # 100 <= 2000002000 ->
  - (2000002000) <= V # 100 -> V # 100 <= 2000002000 ->
  toFixed2 (num_sub (hundredths P) (hundredths V)) = hundredths (P - V).
Proof.
  intros HP1 HP2 HV1 HV2. unfold hundredths.
  destruct (cents_near P) as (p & -> & Hp1 & Hp2 & _); [lra | lra |].
  destruct (cents_near V) as (v & -> & Hv1 & Hv2 & _); [lra | lra |].
  cbn [num_sub].
  destruct (roundToDouble_near (p - v) 4294967295 31) as (s & -> & Hs1 & Hs2);
    [lra | lra | pow2_eval; lra | lia |].
  pow2_eval.
  pose proof (cents_sub P V) as HC.
  apply toFixed2_recover; lra.
Qed.

(** Every amount of a small entry is the Number of a whole number of
    hundredths. *)
Lemma small_entries_hundredths (entries : list Entry.t) :
  Forall smallEntry entries ->
  Forall (fun e =>
            Entry.gross e = hundredths (centsOf (Entry.gross e)) /\
            Entry.vat_collected e = hundredths (centsOf (Entry.vat_collected e)) /\
            Entry.vat_deductible e = hundredths (centsOf (Entry.vat_deductible e)))
         entries.
Proof.
  intros Hsmall. assert (HB : 2000002 <= 2147483647) by lra.
  eapply Forall_impl; [exact Hsmall|]. intros e He.
  destruct (smallEntry_cents e He) as (Hg & Hc & Hd).
  destruct (centAmount_near _ _ Hg HB) as (? & _ & Hg' & _).
  destruct (centAmount_near _ _ Hc HB) as (? & _ & Hc' & _).
  destruct (centAmount_near _ _ Hd HB) as (? & _ & Hd' & _).
  split; [exact Hg' | split; [exact Hc' | exact Hd']].
Qed.

(** Over at most 1000 small entries, [profitGross] is the exact sum of
    the gross amounts in hundredths, as a Number. *)
Lemma totals_profitGross_cents (entries : list Entry.t) :
  Forall smallEntry entries -> (length entries <= 1000)%nat ->
  Totals.profitGross (totals entries) = hundredths (grossShareSum entries) /\
  - (2000002000) <= grossShareSum entries # 100 /\
  grossShareSum entries # 100 <= 2000002000.
Proof.
  intros Hsmall Hlen.
  assert (Hgi : Forall (centAmount 2000002)
                  (List.map Entry.gross (List.filter isIncome entries))).
  { apply Forall_map, Forall_filter_keep.
    eapply Forall_impl; [exact Hsmall|]. intros e He. apply (smallEntry_cents e He). }
  assert (Hge : Forall (centAmount 2000002)
                  (List.map Entry.gross (List.filter isExpense entries))).
  { apply Forall_map, Forall_filter_keep.
    eapply Forall_impl; [exact Hsmall|]. intros e He. apply (smallEntry_cents e He). }
  pose proof (length_income_expense entries) as Hsplit.
  rewrite (grossShareSum_split entries).
  unfold totals. rewrite fold_addEntry_sums. cbn [Totals.profitGross].
  apply rounded_difference; [exact Hgi | exact Hge |].
  rewrite !length_map. lia.
Qed.

(** And [netAfterVAT] is the difference of the two, to the cent. *)
Lemma totals_netAfterVAT_cents (entries : list Entry.t) :
  Forall smallEntry entries -> (length entries <= 1000)%nat ->
  Totals.netAfterVAT (totals entries)
  = hundredths (grossShareSum entries - vatShareSum entries).
Proof.
  intros Hsmall Hlen.
  destruct (totals_profitGross_cents entries Hsmall Hlen) as (Hp & Hp1 & Hp2).
  destruct (totals_vatDue_cents entries Hsmall Hlen) as (Hv & Hv1 & Hv2).
  assert (Hnet : Totals.netAfterVAT (totals entries)
                 = toFixed2 (num_sub (Totals.profitGross (totals entries))
                                     (Totals.vatDue (totals entries)))).
  { unfold totals. destruct (fold_left addEntry entries _) as [[[a b] c] d]. reflexivity. }
  rewrite Hnet, Hp, Hv. apply rounded_cents_difference; assumption.
Qed.

(** Over a ledger of at most 1000 entries, each built from an amount of
    magnitude up to a million, the figures [totals] shows are exact to the
    cent: every amount of an entry is the Number of a whole number of
    hundredths, and the profit, the VAT due and the net after VAT are the
    Numbers of the exact sums and differences of these hundredths. *)
Theorem totals_exact_on_built_ledger (entries : list Entry.t) :
  Forall smallEntry entries -> (length entries <= 1000)%nat ->
  let t := totals entries in
  Forall (fun e =>
            Entry.gross e = hundredths (centsOf (Entry.gross e)) /\
            Entry.vat_collected e = hundredths (centsOf (Entry.vat_collected e)) /\
            Entry.vat_deductible e = hundredths (centsOf (Entry.vat_deductible e)))
         entries /\
  Totals.profitGross t = hundredths (grossShareSum entries) /\
  Totals.vatDue t = hundredths (vatShareSum entries) /\
  Totals.netAfterVAT t = hundredths (grossShareSum entries - vatShareSum entries).
Proof.
  intros Hsmall Hlen. cbv zeta.
  split; [exact (small_entries_hundredths entries Hsmall)|].
  split; [exact (proj1 (totals_profitGross_cents entries Hsmall Hlen))|].
  split; [exact (proj1 (totals_vatDue_cents entries Hsmall Hlen))|].
  exact (totals_netAfterVAT_cents entries Hsmall Hlen).
Qed.

Lemma sumZ_app (l1 l2 : list Z) : sumZ (l1 ++ l2) = (sumZ l1 + sumZ l2)%Z.
Proof.
  induction l1 as [| x l1 IH]; [reflexivity|].
  cbn [app]. rewrite !sumZ_cons, IH. lia.
Qed.

(** The figures of a ledger continued by further entries add up to the
    cent: over at most 1000 small entries in all, the profit, the VAT due
    and the net after VAT of the whole are the Numbers of the sums of the
    hundredths that the two parts show. *)
Theorem totals_of_appended (l1 l2 : list Entry.t) :
  Forall smallEntry (l1 ++ l2) -> (length (l1 ++ l2) <= 1000)%nat ->
  exists P1 V1 P2 V2 : Z,
    Totals.profitGross (totals l1) = hundredths P1 /\
    Totals.vatDue (totals l1) = hundredths V1 /\
    Totals.netAfterVAT (totals l1) = hundredths (P1 - V1) /\
    Totals.profitGross (totals l2) = hundredths P2 /\
    Totals.vatDue (totals l2) = hundredths V2 /\
    Totals.netAfterVAT (totals l2) = hundredths (P2 - V2) /\
    Totals.profitGross (totals (l1 ++ l2)) = hundredths (P1 + P2) /\
    Totals.vatDue (totals (l1 ++ l2)) = hundredths (V1 + V2) /\
    Totals.netAfterVAT (totals (l1 ++ l2)) = hundredths ((P1 + P2) - (V1 + V2)).
Proof.
  intros Hsmall Hlen.
  pose proof Hsmall as Hboth. apply Forall_app in Hboth as [Hs1 Hs2].
  assert (Hlen' : (length l1 + length l2 <= 1000)%nat) by (rewrite <- length_app; exact Hlen).
  assert (Hl1 : (length l1 <= 1000)%nat) by lia.
  assert (Hl2 : (length l2 <= 1000)%nat) by lia.
  assert (HP : grossShareSum (l1 ++ l2) = (grossShareSum l1 + grossShareSum l2)%Z)
    by (unfold grossShareSum; rewrite List.map_app; apply sumZ_app).
  assert (HV : vatShareSum (l1 ++ l2) = (vatShareSum l1 + vatShareSum l2)%Z)
    by (unfold vatShareSum; rewrite List.map_app; apply sumZ_app).
  exists (grossShareSum l1), (vatShareSum l1), (grossShareSum l2), (vatShareSum l2).
  rewrite <- HP, <- HV.
  split; [exact (proj1 (totals_profitGross_cents l1 Hs1 Hl1))|].
  split; [exact (proj1 (totals_vatDue_cents l1 Hs1 Hl1))|].
  split; [exact (totals_netAfterVAT_cents l1 Hs1 Hl1)|].
  split; [exact (proj1 (totals_profitGross_cents l2 Hs2 Hl2))|].
  split; [exact (proj1 (totals_vatDue_cents l2 Hs2 Hl2))|].
  split; [exact (totals_netAfterVAT_cents l2 Hs2 Hl2)|].
  split; [exact (proj1 (totals_profitGross_cents (l1 ++ l2) Hsmall Hlen))|].
  split; [exact (proj1 (totals_vatDue_cents (l1 ++ l2) Hsmall Hlen))|].
  exact (totals_netAfterVAT_cents (l1 ++ l2) Hsmall Hlen).
Qed.

Open Scope Z_scope.

Lemma month_key_names_year (yyyy mm date : jsstring) :
  length yyyy = 4%nat -> monthOf date = yyyy ++ dash :: mm -> yearOf date = yyyy.
Proof.
  intros Hlen Heq. unfold yearOf, monthOf in *.
  assert (H : take 4 (take 7 date) = take 4 (yyyy ++ dash :: mm)) by (rewrite Heq; reflexivity).
  rewrite take_take in H. cbn [Nat.min] in H.
  rewrite take_app_length' in H by (symmetry; exact Hlen). exact H.
Qed.

(** The entries of a month are entries of its year: the totals of the
    month [YYYY-MM] over a ledger are its totals over the entries of the
    year [YYYY]. *)
Theorem month_within_year (entries : list Entry.t) (yyyy mm : jsstring) :
  length yyyy = 4%nat ->
  vatTotalsMonth entries (yyyy ++ dash :: mm)
  = vatTotalsMonth
      (List.filter (fun e => jsstring_eqb (yearOf (Entry.date e)) yyyy) entries)
      (yyyy ++ dash :: mm).
Proof.
  intros Hlen. unfold vatTotalsMonth. f_equal.
  induction entries as [| e entries IH]; [reflexivity|].
  cbn [List.filter].
  destruct (jsstring_eqb (monthOf (Entry.date e)) (yyyy ++ dash :: mm)) eqn:Hm.
  - assert (Hy : jsstring_eqb (yearOf (Entry.date e)) yyyy = true).
    { apply bool_decide_eq_true_2. apply bool_decide_eq_true_1 in Hm.
      exact (month_key_names_year _ _ _ Hlen Hm). }
    rewrite Hy. cbn [List.filter]. rewrite Hm, IH. reflexivity.
  - destruct (jsstring_eqb (yearOf (Entry.date e)) yyyy); [cbn [List.filter]; rewrite Hm|];
      exact IH.
Qed.

End AggregatesMore.

(* ================================================================== *)
(** * More on the webhook handler *)

Section HandlerMore.
Open Scope Z_scope.

(** The store after an update with a message, branch by branch. *)
Lemma webhook_store env (store : Store) (msg : Message.t) :
  let chat := Message.chatId msg in
  let text := trim (default [] (Message.text msg)) in
  let state := fst (getState chat store) in
  let store1 := snd (getState chat store) in
  fst (webhook env store (Some msg))
  = if jsstring_eqb text (js "/reset")
    then <[chat := State.mk [] (State.settings state)]> store1
    else if isCommand text then store1
    else match quickLines text with
         | [] => store1
         | lines =>
             <[chat := State.mk
                         (fst (addLines env (State.settings state) 0 lines
                                        (State.entries state) []))
                         (State.settings state)]> store1
         end.
Proof.
  cbv zeta. unfold webhook, isCommand.
  destruct (getState (Message.chatId msg) store) as [state store1]. cbn [fst snd].
  set (text := trim _).
  destruct (jsstring_eqb text (js "/start")) eqn:Hstart.
  - apply bool_decide_eq_true_1 in Hstart. rewrite Hstart. reflexivity.
  - destruct (jsstring_eqb text (js "/reset")); [reflexivity|].
    destruct (startsWith (js "/balance") text); [reflexivity|].
    destruct (startsWith (js "/vatmonth") text); [reflexivity|].
    destruct (startsWith (js "/vatyear") text); [reflexivity|].
    cbn [orb].
    destruct (quickLines text) as [| line lines]; [reflexivity|].
    destruct (addLines _ _ _ _ _ _) as [entries outcome].
    destruct outcome; reflexivity.
Qed.

(** An update touches one chat only and, unless it is the reset, only
    continues the ledger of that chat: the settings stay, the ledger it had
    is kept as it was, a command adds nothing, and a message adds at most
    one entry per record of the tokenizer. *)
Theorem webhook_only_appends env (store : Store) (msg : Message.t) :
  let chat := Message.chatId msg in
  let text := trim (default [] (Message.text msg)) in
  let before := fst (getState chat store) in
  let after := fst (webhook env store (Some msg)) in
  (forall other, other <> chat -> after !! other = store !! other) /\
  exists st',
    after !! chat = Some st' /\
    State.settings st' = State.settings before /\
    (text <> js "/reset" ->
     exists new,
       State.entries st' = State.entries before ++ new /\
       (length new <= length (quickLines text))%nat /\
       (isCommand text = true -> new = [])).
Proof.
  cbv zeta. rewrite webhook_store. cbv zeta.
  pose proof (getState_lookup (Message.chatId msg) store) as Hmine.
  pose proof (fun other => getState_other (Message.chatId msg) other store) as Hother.
  set (chat := Message.chatId msg) in *. set (text := trim _).
  destruct (getState chat store) as [state store1]. cbn [fst snd] in *.
  assert (Hsame : (forall other, other <> chat -> store1 !! other = store !! other) /\
    exists st', store1 !! chat = Some st' /\ State.settings st' = State.settings state /\
      (text <> js "/reset" ->
       exists new, State.entries st' = State.entries state ++ new /\
         (length new <= length (quickLines text))%nat /\
         (isCommand text = true -> new = []))).
  { split; [exact Hother|]. exists state. repeat split; [exact Hmine|].
    intros _. exists []. rewrite app_nil_r. repeat split. cbn. lia. }
  destruct (jsstring_eqb text (js "/reset")) eqn:Hreset.
  - split.
    + intros other Hne. rewrite lookup_insert_ne by congruence. apply Hother, Hne.
    + eexists. rewrite lookup_insert_eq. repeat split.
      intros Hne. apply bool_decide_eq_true_1 in Hreset. contradiction.
  - destruct (isCommand text) eqn:Hcmd; [exact Hsame|].
    destruct (quickLines text) as [| line lines] eqn:Hlines; [exact Hsame|].
    destruct (addLines _ _ _ _ _ _) as [entries outcome] eqn:Hadd. cbn [fst].
    apply addLines_result in Hadd as (new & -> & _ & _ & _ & Hout).
    split.
    + intros other Hne. rewrite lookup_insert_ne by congruence. apply Hother, Hne.
    + eexists. rewrite lookup_insert_eq. repeat split.
      intros _. exists new. repeat split; [|discriminate].
      destruct outcome as [added|]; [destruct Hout as [_ ->]; lia|].
      destruct Hout as (line' & Hl & _). apply lookup_lt_Some in Hl. lia.
Qed.

(** When every classifier request of a message is answered, each record
    of the tokenizer gets its entry: the entries are appended to the ledger
    in the order of the lines, the entry at each position built from the
    line at that position with what the request of that line returned, and
    the answer lists them with the totals of the current month and year
    over the whole ledger. *)
Theorem ingest_appends_in_order env (store : Store) chatId (text : jsstring) :
  isCommand (trim text) = false ->
  quickLines (trim text) <> [] ->
  (forall i, (i < length (quickLines (trim text)))%nat -> answered (classifier env i)) ->
  let state := fst (getState chatId store) in
  let lines := quickLines (trim text) in
  exists added,
    webhook env store (Some (Message.mk chatId (Some text)))
    = (<[chatId := State.mk (State.entries state ++ added) (State.settings state)]>
         (snd (getState chatId store)),
       Some (Added added (currentMonth env) (currentYear env)
               (vatTotalsMonth (State.entries state ++ added) (currentMonth env))
               (vatTotalsYear (State.entries state ++ added) (currentYear env)))) /\
    length added = length lines /\
    (forall i line e, lines !! i = Some line -> added !! i = Some e ->
       builtAt env (State.settings state) i line e) /\
    List.map Entry.type added = List.map Line.type lines /\
    Forall (builtWith (State.settings state)) added.
Proof.
  intros Hcmd Hlines Hall. cbv zeta.
  unfold webhook. cbn [Message.chatId Message.text].
  change (default [] (Some text)) with text.
  unfold isCommand in Hcmd.
  repeat (apply orb_false_iff in Hcmd as [Hcmd ?]).
  destruct (getState chatId store) as [state store1]. cbn [fst snd].
  rewrite Hcmd. repeat match goal with H : _ = false |- _ => rewrite H; clear H end.
  destruct (addLines_run env (State.settings state) (length (quickLines (trim text)))
              (quickLines (trim text)) (State.entries state) Hall) as [Hrun _].
  destruct (Hrun (le_n _)) as (new & Hnew & Hlen & Hat).
  pose proof (addLines_result _ _ _ _ _ _ _ _ Hnew)
    as (new' & Heq & Hbuilt & Htypes & _ & _ & _).
  apply app_inv_head in Heq as <-.
  rewrite Hlen, firstn_all in Htypes.
  destruct (quickLines (trim text)) as [| line lines] eqn:E; [contradiction|].
  rewrite Hnew. exists new. repeat split; assumption.
Qed.

End HandlerMore.

(* ================================================================== *)
(** * More on the dates and the period queries *)

Section DatesMore.
Open Scope Z_scope.

Lemma digit_is_word (c : Z) : isDigit c = true -> isWord c = true.
Proof. unfold isWord. intros ->. apply orb_true_iff. left. apply orb_true_r. Qed.

Lemma isoShape_inv (s : jsstring) :
  isoShape s = true ->
  exists y m d, s = y ++ dash :: m ++ dash :: d /\
    (length y = 4%nat /\ forallb isDigit y = true) /\
    (length m = 2%nat /\ forallb isDigit m = true) /\
    (length d = 2%nat /\ forallb isDigit d = true).
Proof.
  unfold isoShape. intros H.
  destruct (takeDigits 4 s) as [[y [| c1 s1]]|] eqn:H1; try discriminate.
  apply andb_true_iff in H as [Hc1 H]. apply Z.eqb_eq in Hc1 as ->.
  destruct (takeDigits 2 s1) as [[m [| c2 s2]]|] eqn:H2; try discriminate.
  apply andb_true_iff in H as [Hc2 H]. apply Z.eqb_eq in Hc2 as ->.
  destruct (takeDigits 2 s2) as [[d [| ? ?]]|] eqn:H3; try discriminate.
  apply takeDigits_spec in H1 as (-> & ? & ?).
  apply takeDigits_spec in H2 as (-> & ? & ?).
  apply takeDigits_spec in H3 as (-> & ? & ?).
  exists y, m, d. rewrite app_nil_r. repeat split; assumption.
Qed.

(** The pattern of three digit groups matches a string that consists of
    the three groups and nothing else. *)
Lemma tripleAt_whole (a b c : nat) (sep : Z) (g1 g2 g3 : jsstring) :
  a <> 0%nat -> c <> 0%nat ->
  length g1 = a -> forallb isDigit g1 = true ->
  length g2 = b -> forallb isDigit g2 = true ->
  length g3 = c -> forallb isDigit g3 = true ->
  tripleAt a b c sep None (g1 ++ sep :: g2 ++ sep :: g3) = Some (g1, g2, g3).
Proof.
  intros Ha Hc L1 D1 L2 D2 L3 D3. unfold tripleAt.
  assert (Hstart : wordBoundary None (g1 ++ sep :: g2 ++ sep :: g3) = true).
  { destruct g1 as [| x g1]; [cbn in L1; congruence|].
    cbn in D1. apply andb_true_iff in D1 as [Dx _].
    unfold wordBoundary. cbn [app]. rewrite (digit_is_word x Dx). reflexivity. }
  assert (Hend : wordBoundary (last g3) [] = true).
  { destruct (last g3) as [x|] eqn:E.
    - apply last_Some in E as [l ->]. rewrite forallb_app in D3.
      apply andb_true_iff in D3 as [_ Dx]. cbn in Dx. rewrite andb_true_r in Dx.
      unfold wordBoundary. rewrite (digit_is_word x Dx). reflexivity.
    - apply last_None in E. subst g3. cbn in L3. congruence. }
  rewrite Hstart, (takeDigits_app a g1 _ L1 D1), Z.eqb_refl.
  rewrite (takeDigits_app b g2 _ L2 D2), Z.eqb_refl.
  pose proof (takeDigits_app c g3 [] L3 D3) as H3. rewrite app_nil_r in H3.
  rewrite H3, Hend. reflexivity.
Qed.

(** A date in the form [YYYY-MM-DD] is detected as itself, and the
    resolution returns it whatever the day is. *)
Theorem canonical_date_is_kept (today s : jsstring) :
  isoShape s = true ->
  detectExplicitDate s = Some s /\ toISO today (detectExplicitDate s) = s.
Proof.
  intros Hs.
  destruct (isoShape_inv s Hs) as (y & m & d & -> & (Ly & Dy) & (Lm & Dm) & (Ld & Dd)).
  assert (Hdet : detectExplicitDate (y ++ dash :: m ++ dash :: d)
                 = Some (y ++ dash :: m ++ dash :: d)).
  { unfold detectExplicitDate, matchISO.
    destruct (y ++ dash :: m ++ dash :: d) as [| c t] eqn:E.
    - destruct y; discriminate.
    - rewrite <- E. cbn [matchFirst].
      assert (Hat : matchFirst (tripleAt 4 2 2 dash) None (y ++ dash :: m ++ dash :: d)
                    = Some (y, m, d)).
      { apply matchFirst_leftmost. exists [], (y ++ dash :: m ++ dash :: d).
        split; [reflexivity|]. split.
        - apply tripleAt_whole; auto.
        - intros pre' suf' _ Hlen. cbn in Hlen. lia. }
      rewrite Hat. reflexivity. }
  split; [exact Hdet|]. rewrite Hdet. unfold toISO. rewrite Hs. reflexivity.
Qed.

Lemma canonical_date_is_kept_witness :
  isoShape (js "2024-02-29") = true /\
  detectExplicitDate (js "2024-02-29") = Some (js "2024-02-29") /\
  toISO sampleToday (detectExplicitDate (js "2024-02-29")) = js "2024-02-29".
Proof.
  assert (H : isoShape (js "2024-02-29") = true) by reflexivity.
  split; [exact H|]. exact (canonical_date_is_kept sampleToday (js "2024-02-29") H).
Defined.

(** A text without a dash holds no ISO date. *)
Lemma no_dash_no_iso (text : jsstring) : ~ In dash text -> matchISO text = None.
Proof.
  intros Hno. unfold matchISO.
  destruct (matchFirst _ None text) as [[[y m] d]|] eqn:E; [|reflexivity].
  apply matchFirst_leftmost in E as (pre & suf & -> & Hat & _).
  apply tripleAt_spec in Hat as (_ & _ & _ & after & ->).
  exfalso. apply Hno. apply in_or_app. right. apply in_or_app. right. left. reflexivity.
Qed.

Lemma digits_no_dash (g : jsstring) : forallb isDigit g = true -> ~ In dash g.
Proof.
  intros Hd Hin. rewrite forallb_forall in Hd. specialize (Hd _ Hin). discriminate.
Qed.

(** A day-first date [DD.MM.YYYY] is turned into [YYYY-MM-DD]. *)
Theorem dotted_date_is_turned_round (dd mm yyyy : jsstring) :
  length dd = 2%nat -> forallb isDigit dd = true ->
  length mm = 2%nat -> forallb isDigit mm = true ->
  length yyyy = 4%nat -> forallb isDigit yyyy = true ->
  detectExplicitDate (dd ++ dot :: mm ++ dot :: yyyy)
  = Some (yyyy ++ dash :: mm ++ dash :: dd).
Proof.
  intros Ld Dd Lm Dm Ly Dy.
  assert (Hiso : matchISO (dd ++ dot :: mm ++ dot :: yyyy) = None).
  { apply no_dash_no_iso. intros Hin.
    apply in_app_or in Hin as [Hin | [Hin | Hin]];
      [exact (digits_no_dash _ Dd Hin) | discriminate Hin|].
    apply in_app_or in Hin as [Hin | [Hin | Hin]];
      [exact (digits_no_dash _ Dm Hin) | discriminate Hin
       | exact (digits_no_dash _ Dy Hin)]. }
  assert (Hdot : matchDotted (dd ++ dot :: mm ++ dot :: yyyy) = Some (dd, mm, yyyy)).
  { unfold matchDotted. apply matchFirst_leftmost.
    exists [], (dd ++ dot :: mm ++ dot :: yyyy).
    split; [reflexivity|]. split.
    - apply tripleAt_whole; auto.
    - intros pre' suf' _ Hlen. cbn in Hlen. lia. }
  unfold detectExplicitDate. rewrite Hiso, Hdot.
  destruct dd; [discriminate Ld | reflexivity].
Qed.

Lemma dotted_date_is_turned_round_witness :
  length (js "03") = 2%nat /\ forallb isDigit (js "03") = true /\
  length (js "02") = 2%nat /\ forallb isDigit (js "02") = true /\
  length (js "2025") = 4%nat /\ forallb isDigit (js "2025") = true /\
  detectExplicitDate (js "03" ++ dot :: js "02" ++ dot :: js "2025")
  = Some (js "2025" ++ dash :: js "02" ++ dash :: js "03").
Proof.
  repeat (split; [reflexivity|]).
  apply (dotted_date_is_turned_round (js "03") (js "02") (js "2025"));
    reflexivity.
Defined.

(** A date [detectExplicitDate] returns is made of digits that stand in
    the text, as year, month and day in the ISO form or as day, month and
    year in the dotted form. *)
Theorem detected_date_stands_in_text (text date : jsstring) :
  detectExplicitDate text = Some date ->
  exists pre y m d post,
    date = y ++ dash :: m ++ dash :: d /\
    length y = 4%nat /\ length m = 2%nat /\ length d = 2%nat /\
    forallb isDigit (y ++ m ++ d) = true /\
    (text = pre ++ (y ++ dash :: m ++ dash :: d) ++ post \/
     text = pre ++ (d ++ dot :: m ++ dot :: y) ++ post).
Proof.
  unfold detectExplicitDate, matchISO, matchDotted. intros H.
  destruct text as [| c text]; [discriminate|].
  destruct (matchFirst (tripleAt 4 2 2 dash) None (c :: text)) as [[[y m] d]|] eqn:Hiso.
  - injection H as <-.
    apply matchFirst_leftmost in Hiso as (pre & suf & Heq & Hat & _).
    apply tripleAt_spec in Hat as ((Ly & Dy) & (Lm & Dm) & (Ld & Dd) & post & ->).
    exists pre, y, m, d, post. rewrite !forallb_app, Dy, Dm, Dd.
    repeat split; try assumption. left. rewrite Heq, <- !app_assoc. cbn.
    rewrite <- !app_assoc. reflexivity.
  - destruct (matchFirst (tripleAt 2 2 4 dot) None (c :: text)) as [[[d m] y]|] eqn:Hdot;
      [|discriminate].
    injection H as <-.
    apply matchFirst_leftmost in Hdot as (pre & suf & Heq & Hat & _).
    apply tripleAt_spec in Hat as ((Ld & Dd) & (Lm & Dm) & (Ly & Dy) & post & ->).
    exists pre, y, m, d, post. rewrite !forallb_app, Dy, Dm, Dd.
    repeat split; try assumption. right. rewrite Heq, <- !app_assoc. cbn.
    rewrite <- !app_assoc. reflexivity.
Qed.

Lemma detected_date_stands_in_text_witness :
  detectExplicitDate (js "-40 taxi 03.02.2025") = Some (js "2025-02-03") /\
  exists pre y m d post,
    js "2025-02-03" = y ++ dash :: m ++ dash :: d /\
    length y = 4%nat /\ length m = 2%nat /\ length d = 2%nat /\
    forallb isDigit (y ++ m ++ d) = true /\
    (js "-40 taxi 03.02.2025" = pre ++ (y ++ dash :: m ++ dash :: d) ++ post \/
     js "-40 taxi 03.02.2025" = pre ++ (d ++ dot :: m ++ dot :: y) ++ post).
Proof.
  assert (H : detectExplicitDate (js "-40 taxi 03.02.2025") = Some (js "2025-02-03"))
    by (vm_compute; reflexivity).
  split; [exact H|].
  exact (detected_date_stands_in_text (js "-40 taxi 03.02.2025") (js "2025-02-03") H).
Defined.

End DatesMore.

(* ================================================================== *)
(** * The period queries *)

Section PeriodQueries.
Open Scope Z_scope.

Lemma vatmonthArg_spec (rest key : jsstring) :
  vatmonthArg (js "/vatmonth" ++ rest) = Some key <-> monthArgument rest key.
Proof.
  unfold vatmonthArg.
  replace (drop 9 (js "/vatmonth" ++ rest)) with rest by reflexivity.
  split.
  - destruct (spanWhile isSpace rest) as [ws t] eqn:Hspan.
    apply spanWhile_spec in Hspan as (-> & Hws & _).
    destruct ws as [| w ws]; [discriminate|].
    destruct (takeDigits 4 t) as [[y [| c t1]]|] eqn:Hy; try discriminate.
    destruct (c =? dash) eqn:Hc; [|discriminate]. apply Z.eqb_eq in Hc as ->.
    destruct (takeDigits 2 t1) as [[m [| ? ?]]|] eqn:Hm; try discriminate.
    intros H. injection H as <-.
    apply takeDigits_spec in Hy as (-> & Ly & Dy).
    apply takeDigits_spec in Hm as (-> & Lm & Dm).
    exists (w :: ws), y, m. rewrite app_nil_r.
    split; [reflexivity|]. split; [discriminate|]. repeat split; assumption.
  - intros (ws & y & m & -> & Hne & Hws & Ly & Dy & Lm & Dm & ->).
    rewrite (spanWhile_exact isSpace); [| exact Hws |].
    + destruct ws as [| w ws]; [congruence|].
      rewrite (takeDigits_app 4 y _ Ly Dy), Z.eqb_refl.
      pose proof (takeDigits_app 2 m [] Lm Dm) as Hm. rewrite app_nil_r in Hm.
      rewrite Hm. reflexivity.
    + destruct y as [| c y]; [discriminate Ly|]. cbn in Dy.
      apply andb_true_iff in Dy as [Dc _]. exact (digit_not_space c Dc).
Qed.

Lemma vatyearArg_spec (rest key : jsstring) :
  vatyearArg (js "/vatyear" ++ rest) = Some key <-> yearArgument rest key.
Proof.
  unfold vatyearArg.
  replace (drop 8 (js "/vatyear" ++ rest)) with rest by reflexivity.
  split.
  - destruct (spanWhile isSpace rest) as [ws t] eqn:Hspan.
    apply spanWhile_spec in Hspan as (-> & Hws & _).
    destruct ws as [| w ws]; [discriminate|].
    destruct (takeDigits 4 t) as [[y [| ? ?]]|] eqn:Hy; try discriminate.
    intros H. injection H as <-.
    apply takeDigits_spec in Hy as (-> & Ly & Dy).
    exists (w :: ws). rewrite app_nil_r.
    split; [reflexivity|]. split; [discriminate|]. repeat split; assumption.
  - intros (ws & -> & Hne & Hws & Ly & Dy).
    rewrite (spanWhile_exact isSpace); [| exact Hws |].
    + destruct ws as [| w ws]; [congruence|].
      pose proof (takeDigits_app 4 key [] Ly Dy) as Hy. rewrite app_nil_r in Hy.
      rewrite Hy. reflexivity.
    + destruct key as [| c y]; [discriminate Ly|]. cbn in Dy.
      apply andb_true_iff in Dy as [Dc _]. exact (digit_not_space c Dc).
Qed.

(** [/vatmonth] answers with the VAT due of the month named after the
    command, when blanks, [YYYY-MM] and nothing more stand there, and of the
    current month for anything else after the command; the ledger is read,
    not changed. *)
Theorem vatmonth_query env (store : Store) (msg : Message.t) (rest : jsstring) :
  trim (default [] (Message.text msg)) = js "/vatmonth" ++ rest ->
  let state := fst (getState (Message.chatId msg) store) in
  exists key,
    webhook env store (Some msg)
    = (snd (getState (Message.chatId msg) store),
       Some (VatMonth key
               (Totals.vatDue (vatTotalsMonth (State.entries state) key)))) /\
    (monthArgument rest key \/
     ((forall k, ~ monthArgument rest k) /\ key = currentMonth env)).
Proof.
  intros Htext. cbv zeta.
  exists (default (currentMonth env) (vatmonthArg (js "/vatmonth" ++ rest))).
  split.
  - unfold webhook. rewrite Htext.
    destruct (getState (Message.chatId msg) store) as [state store1]. cbn [fst snd].
    replace (jsstring_eqb (js "/vatmonth" ++ rest) (js "/start")) with false
      by (symmetry; apply bool_decide_eq_false_2; discriminate).
    replace (jsstring_eqb (js "/vatmonth" ++ rest) (js "/reset")) with false
      by (symmetry; apply bool_decide_eq_false_2; discriminate).
    replace (startsWith (js "/balance") (js "/vatmonth" ++ rest)) with false
      by reflexivity.
    replace (startsWith (js "/vatmonth") (js "/vatmonth" ++ rest)) with true
      by reflexivity.
    reflexivity.
  - destruct (vatmonthArg (js "/vatmonth" ++ rest)) as [k|] eqn:Harg.
    + left. apply vatmonthArg_spec. exact Harg.
    + right. split; [|reflexivity].
      intros k Hk. apply vatmonthArg_spec in Hk. congruence.
Qed.

(** [/vatyear] answers with the VAT due of the year named after the
    command, when blanks, four digits and nothing more stand there, and of
    the current year for anything else after the command; the ledger is
    read, not changed. *)
Theorem vatyear_query env (store : Store) (msg : Message.t) (rest : jsstring) :
  trim (default [] (Message.text msg)) = js "/vatyear" ++ rest ->
  let state := fst (getState (Message.chatId msg) store) in
  exists key,
    webhook env store (Some msg)
    = (snd (getState (Message.chatId msg) store),
       Some (VatYear key
               (Totals.vatDue (vatTotalsYear (State.entries state) key)))) /\
    (yearArgument rest key \/
     ((forall k, ~ yearArgument rest k) /\ key = currentYear env)).
Proof.
  intros Htext. cbv zeta.
  exists (default (currentYear env) (vatyearArg (js "/vatyear" ++ rest))).
  split.
  - unfold webhook. rewrite Htext.
    destruct (getState (Message.chatId msg) store) as [state store1]. cbn [fst snd].
    replace (jsstring_eqb (js "/vatyear" ++ rest) (js "/start")) with false
      by (symmetry; apply bool_decide_eq_false_2; discriminate).
    replace (jsstring_eqb (js "/vatyear" ++ rest) (js "/reset")) with false
      by (symmetry; apply bool_decide_eq_false_2; discriminate).
    replace (startsWith (js "/balance") (js "/vatyear" ++ rest)) with false
      by reflexivity.
    replace (startsWith (js "/vatmonth") (js "/vatyear" ++ rest)) with false
      by reflexivity.
    replace (startsWith (js "/vatyear") (js "/vatyear" ++ rest)) with true
      by reflexivity.
    reflexivity.
  - destruct (vatyearArg (js "/vatyear" ++ rest)) as [k|] eqn:Harg.
    + left. apply vatyearArg_spec. exact Harg.
    + right. split; [|reflexivity].
      intros k Hk. apply vatyearArg_spec in Hk. congruence.
Qed.

(** The month the handler takes as current is one of the twelve months of
    the year it takes as current, for every month number [getMonth] can
    return. *)
Theorem current_month_in_current_year (env : Env) :
  0 <= nowMonth env <= 11 ->
  In (currentMonth env) (monthKeys (currentYear env)).
Proof.
  intros Hm. unfold currentMonth, currentYear, monthKeys.
  apply (in_map (fun mm => numberToString (nowYear env) ++ dash :: mm)).
  assert (H : In (nowMonth env) [0;1;2;3;4;5;6;7;8;9;10;11]) by (cbn; lia).
  cbn in H.
  repeat (destruct H as [H | H];
          [rewrite <- H; vm_compute; tauto|]).
  contradiction.
Qed.

End PeriodQueries.

(* ================================================================== *)
(** * How the tokenizer reads the amount *)

Section AmountReading.
Open Scope Z_scope.

Lemma stripSpaces_digits (s : jsstring) :
  digitsAndBlanks s = true -> forallb isDigit (stripSpaces s) = true.
Proof.
  unfold digitsAndBlanks, stripSpaces. induction s as [| c s IH]; cbn; [reflexivity|].
  intros H. apply andb_true_iff in H as [Hc Hs].
  destruct (isSpace c) eqn:Hsp; cbn; [exact (IH Hs)|].
  rewrite orb_false_r in Hc. rewrite Hc. exact (IH Hs).
Qed.

Lemma digitsAndBlanks_amount (s : jsstring) :
  digitsAndBlanks s = true -> forallb isAmountChar s = true.
Proof.
  unfold digitsAndBlanks, isAmountChar. induction s as [| c s IH]; cbn; [reflexivity|].
  intros H. apply andb_true_iff in H as [Hc Hs]. rewrite Hc, (IH Hs). reflexivity.
Qed.

Lemma replaceFirstComma_digits (ds l : jsstring) :
  forallb isDigit ds = true ->
  replaceFirstComma (ds ++ l) = ds ++ replaceFirstComma l.
Proof.
  induction ds as [| c ds IH]; cbn; [reflexivity|].
  intros H. apply andb_true_iff in H as [Hc Hds].
  destruct (digit_not_separator c Hc) as [-> _]. rewrite (IH Hds). reflexivity.
Qed.

Lemma parseFloat_decimal (ip fp : jsstring) (frac : jsstring) :
  ip <> [] -> forallb isDigit ip = true -> forallb isDigit fp = true ->
  frac = [] /\ fp = [] \/ frac = dot :: fp ->
  parseFloat (ip ++ frac) = roundToDouble (decimalValue ip fp).
Proof.
  intros Hne Hip Hfp Hfrac. unfold parseFloat.
  assert (Hspan : spanWhile isDigit (ip ++ frac) = (ip, frac)).
  { apply spanWhile_exact; [exact Hip|].
    destruct Hfrac as [[-> _] | ->]; [exact I | reflexivity]. }
  rewrite Hspan.
  assert (Hf : match frac with
               | c :: s2 => if c =? dot then fst (spanWhile isDigit s2) else []
               | [] => []
               end = fp).
  { destruct Hfrac as [[-> ->] | ->]; [reflexivity|].
    rewrite Z.eqb_refl. rewrite <- (app_nil_r fp) at 1.
    rewrite (spanWhile_exact isDigit fp [] Hfp I). reflexivity. }
  rewrite Hf. destruct ip; [congruence | reflexivity].
Qed.

Lemma decimalValue_nonneg (ip fp : jsstring) :
  forallb isDigit ip = true -> forallb isDigit fp = true -> (0 <= decimalValue ip fp)%Q.
Proof.
  intros Hd Hf. unfold decimalValue.
  pose proof (digitsValue_nonneg ip Hd) as H1.
  pose proof (digitsValue_nonneg fp Hf) as H2.
  assert (H3 : 0 < 10 ^ Z.of_nat (length fp)) by (apply Z.pow_pos_nonneg; lia).
  rewrite Zle_Qle in H1, H2. rewrite Zlt_Qlt in H3.
  change (inject_Z 0) with 0%Q in *.
  assert (H4 : (0 <= inject_Z (digitsValue fp) / inject_Z (10 ^ Z.of_nat (length fp)))%Q).
  { apply Qle_shift_div_l; [exact H3 | lra]. }
  lra.
Qed.

(** The amount of a line is the Number nearest to the decimal number
    after the sign, as long as that lies below the bound from which a
    decimal reads as [Infinity]: blanks between the digits are dropped, a
    point or a comma separates the decimals.  Three ASCII letters right after the number become the
    currency in capital letters, whether or not a word goes on after them;
    what follows is the rest of the line. *)
Theorem amount_reading (sign d : Z) (ipTail frac after : jsstring) :
  isSign sign = true ->
  isDigit d = true -> digitsAndBlanks ipTail = true ->
  (frac = [] \/
   exists sep, (sep = dot \/ sep = comma) /\ head frac = Some sep /\
               digitsAndBlanks (tl frac) = true) ->
  match after with c :: _ => isAmountChar c = false | [] => True end ->
  (decimalValue (stripSpaces (d :: ipTail)) (stripSpaces (tl frac)) < overflowThreshold)%Q ->
  exists rec,
    quickLine (sign :: (d :: ipTail) ++ frac ++ after) = Some rec /\
    Fin (Line.amount rec)
      = roundToDouble (decimalValue (stripSpaces (d :: ipTail)) (stripSpaces (tl frac))) /\
    (forall a b c more,
       after = a :: b :: c :: more ->
       isAsciiLetter a && isAsciiLetter b && isAsciiLetter c = true ->
       Line.currency rec = Some [upperUnit a; upperUnit b; upperUnit c] /\
       Line.rest rec = trim more) /\
    ((forall a b c more,
        after = a :: b :: c :: more ->
        isAsciiLetter a && isAsciiLetter b && isAsciiLetter c = false) ->
     Line.currency rec = None /\ Line.rest rec = trim after).
Proof.
  intros Hsign Hd Hip Hfrac Htail Hlt.
  assert (Hrun : forallb isAmountChar ((d :: ipTail) ++ frac) = true).
  { rewrite forallb_app. apply andb_true_iff. split.
    - apply digitsAndBlanks_amount. unfold digitsAndBlanks. cbn. rewrite Hd. exact Hip.
    - destruct Hfrac as [-> | (sep & Hsep & Hhead & Hfp)]; [reflexivity|].
      destruct frac as [| c fp]; [discriminate|]. injection Hhead as ->.
      change (digitsAndBlanks fp = true) in Hfp.
      cbn. rewrite (digitsAndBlanks_amount _ Hfp), andb_true_r.
      unfold isAmountChar. destruct Hsep as [-> | ->]; reflexivity. }
  assert (Hstrip : exists fracS,
             stripSpaces ((d :: ipTail) ++ frac) = stripSpaces (d :: ipTail) ++ fracS /\
             replaceFirstComma fracS = match fracS with [] => [] | _ => dot :: stripSpaces (tl frac) end /\
             (fracS = [] -> stripSpaces (tl frac) = [])).
  { unfold stripSpaces at 1. rewrite List.filter_app. fold (stripSpaces (d :: ipTail)).
    fold (stripSpaces frac).
    destruct Hfrac as [-> | (sep & Hsep & Hhead & Hfp)].
    - exists []. repeat split; reflexivity.
    - destruct frac as [| c fp]; [discriminate|]. injection Hhead as ->.
      change (digitsAndBlanks fp = true) in Hfp.
      exists (sep :: stripSpaces fp). change (tl (sep :: fp)) with fp.
      assert (Hns : isSpace sep = false) by (destruct Hsep as [-> | ->]; reflexivity).
      split; [unfold stripSpaces; cbn; rewrite Hns; reflexivity|].
      split; [|discriminate].
      cbn. destruct Hsep as [-> | ->]; cbn; [|reflexivity].
      f_equal. pose proof (replaceFirstComma_digits (stripSpaces fp) []
                             (stripSpaces_digits fp Hfp)) as H.
      cbn [replaceFirstComma] in H. rewrite !app_nil_r in H. exact H. }
  destruct Hstrip as (fracS & Hs1 & Hs2 & Hs3).
  assert (Hipd : forallb isDigit (stripSpaces (d :: ipTail)) = true).
  { apply stripSpaces_digits. unfold digitsAndBlanks. cbn. rewrite Hd. exact Hip. }
  assert (Hipne : stripSpaces (d :: ipTail) <> []).
  { unfold stripSpaces. cbn. rewrite (digit_not_space d Hd). discriminate. }
  assert (Hfpd : forallb isDigit (stripSpaces (tl frac)) = true).
  { destruct Hfrac as [-> | (sep & _ & _ & Hfp)]; [reflexivity|].
    apply stripSpaces_digits, Hfp. }
  assert (Hparse : parseFloat (replaceFirstComma (stripSpaces ((d :: ipTail) ++ frac)))
                   = roundToDouble
                       (decimalValue (stripSpaces (d :: ipTail)) (stripSpaces (tl frac)))).
  { rewrite Hs1, (replaceFirstComma_digits _ _ Hipd), Hs2.
    apply parseFloat_decimal; try assumption.
    destruct fracS; [left; split; [reflexivity | apply Hs3; reflexivity] | right; reflexivity]. }
  destruct (roundToDouble_finite _ (decimalValue_nonneg _ _ Hipd Hfpd) Hlt) as [amount Hamount].
  rewrite Hamount in Hparse. rewrite Hamount.
  assert (Hmatch : matchLine (sign :: (d :: ipTail) ++ frac ++ after)
                   = Some (sign, (d :: ipTail) ++ frac, fst (optCurrency after),
                           snd (optCurrency after))).
  { unfold matchLine. rewrite Hsign.
    change ((d :: ipTail) ++ frac ++ after) with (d :: (ipTail ++ frac ++ after)).
    cbn [spanWhile]. rewrite (digit_not_space d Hd).
    change (d :: (ipTail ++ frac ++ after)) with ((d :: ipTail) ++ frac ++ after).
    rewrite app_assoc, (spanWhile_exact isAmountChar _ after Hrun Htail).
    cbn [app]. destruct (optCurrency after). reflexivity. }
  unfold quickLine. rewrite Hmatch, Hparse.
  eexists. split; [reflexivity|]. cbn [Line.amount Line.currency Line.rest].
  split; [reflexivity|]. split.
  - intros a b c more -> Hl. unfold optCurrency. rewrite Hl. cbn. split; reflexivity.
  - intros Hnot. unfold optCurrency.
    destruct after as [| a [| b [| c more]]]; try (split; reflexivity).
    rewrite (Hnot a b c more eq_refl). split; reflexivity.
Qed.

Lemma amount_reading_witness :
  exists rec,
    quickLine (js "+1 250,50 usdt") = Some rec /\
    Fin (Line.amount rec) = roundToDouble (decimalValue (js "1250") (js "50")) /\
    Line.currency rec = Some (js "USD") /\ Line.rest rec = js "t".
Proof.
  assert (Hsign : isSign 43 = true) by reflexivity.
  assert (Hd : isDigit 49 = true) by reflexivity.
  assert (Hip : digitsAndBlanks (js " 250") = true) by reflexivity.
  assert (Hfrac : js ",50 " = [] \/
                  exists sep, (sep = dot \/ sep = comma) /\ head (js ",50 ") = Some sep /\
                              digitsAndBlanks (tl (js ",50 ")) = true).
  { right. exists comma. split; [right; reflexivity|]. split; reflexivity. }
  assert (Htail : match js "usdt" with c :: _ => isAmountChar c = false | [] => True end)
    by reflexivity.
  assert (Hlt : (decimalValue (stripSpaces (49%Z :: js " 250")) (stripSpaces (tl (js ",50 ")))
                 < overflowThreshold)%Q) by (vm_compute; reflexivity).
  destruct (amount_reading 43 49 (js " 250") (js ",50 ") (js "usdt")
              Hsign Hd Hip Hfrac Htail Hlt) as (rec & Hrec & Hamount & Hcur & _).
  exists rec. split; [exact Hrec|]. split; [exact Hamount|].
  exact (Hcur 117 115 100 (js "t") eq_refl eq_refl).
Defined.

End AmountReading.

(* ================================================================== *)
(** * Commands *)

Section Commands.
Open Scope Z_scope.

Lemma getState_known (chatId : Z) (store : Store) (st : State.t) :
  store !! chatId = Some st -> getState chatId store = (st, store).
Proof. unfold getState. intros ->. reflexivity. Qed.

(** The handler sees the store through [getState] only. *)
Lemma webhook_getState env (store store' : Store) (msg : Message.t) :
  getState (Message.chatId msg) store = getState (Message.chatId msg) store' ->
  webhook env store (Some msg) = webhook env store' (Some msg).
Proof. unfold webhook. intros ->. reflexivity. Qed.

(** A command can be sent again: in the store the first run leaves, the
    same command under the same clock gives the same answer and leaves the
    store as it is.  This holds for the queries, which only read the
    ledger, for the welcome, and for the reset, which empties a ledger it
    has just emptied. *)
Theorem commands_are_repeatable env (store : Store) (msg : Message.t) :
  isCommand (trim (default [] (Message.text msg))) = true ->
  webhook env (fst (webhook env store (Some msg))) (Some msg)
  = webhook env store (Some msg).
Proof.
  intros Hcmd.
  pose proof (getState_lookup (Message.chatId msg) store) as Hmine.
  destruct (jsstring_eqb (trim (default [] (Message.text msg))) (js "/reset")) eqn:Hreset.
  - apply bool_decide_eq_true_1 in Hreset.
    unfold webhook. rewrite Hreset.
    destruct (getState (Message.chatId msg) store) as [state store1].
    change (jsstring_eqb (js "/reset") (js "/start")) with false.
    change (jsstring_eqb (js "/reset") (js "/reset")) with true.
    cbn [fst].
    rewrite (getState_known (Message.chatId msg) _ (State.mk [] (State.settings state))
               (lookup_insert_eq _ _ _)).
    cbn [State.settings]. rewrite insert_insert_eq. reflexivity.
  - rewrite webhook_store. cbv zeta. rewrite Hreset, Hcmd.
    apply webhook_getState.
    destruct (getState (Message.chatId msg) store) as [state store1].
    cbn [fst snd] in *. exact (getState_known _ _ _ Hmine).
Qed.

Lemma commands_are_repeatable_witness :
  isCommand (trim (default [] (Message.text (Message.mk 7 (Some (js "/balance")))))) = true /\
  webhook answeringEnv
          (fst (webhook answeringEnv marchStore (Some (Message.mk 7 (Some (js "/balance"))))))
          (Some (Message.mk 7 (Some (js "/balance"))))
  = webhook answeringEnv marchStore (Some (Message.mk 7 (Some (js "/balance")))).
Proof.
  assert (H : isCommand (trim (default [] (Message.text
                (Message.mk 7 (Some (js "/balance")))))) = true) by (vm_compute; reflexivity).
  split; [exact H|].
  exact (commands_are_repeatable answeringEnv marchStore
           (Message.mk 7 (Some (js "/balance"))) H).
Defined.

End Commands.

(* ================================================================== *)
(** * Further samples *)

Section FurtherSamples.
Open Scope Z_scope.

Lemma with_vat_cue_wins_witness :
  (containsIgnoringCase (js "з ПДВ") (Line.raw withVatLine) \/
   containsIgnoringCase (js "з ПДВ") (Line.rest withVatLine)) /\
  saysWithoutVAT (Line.raw withVatLine ++ js " " ++ Line.rest withVatLine) = false /\
  num_le (num_div (Fin (Settings.vatRate sampleSettings)) (Fin 100)) (Fin 0) = false /\
  enrichLineWithAI sampleToday contraryAnswer withVatLine sampleSettings
  = Ok (Entry.mk income (JStr (js "internet")) (JStr (js "з ПДВ")) sampleToday (js "EUR")
          (hundredths 83333) (hundredths 16667) (hundredths 100000) (hundredths 16667)
          (Fin 0)) /\
  toFixed2 (num_div (Fin 1000) (num_add (Fin 1) (num_div (Fin 20) (Fin 100))))
  = hundredths 83333.
Proof.
  assert (Hcue : containsIgnoringCase (js "з ПДВ") (Line.raw withVatLine) \/
                 containsIgnoringCase (js "з ПДВ") (Line.rest withVatLine)).
  { right. exists [], (js "з ПДВ"), [].
    split; [vm_compute; reflexivity | vm_compute; repeat constructor]. }
  assert (Hno : saysWithoutVAT (Line.raw withVatLine ++ js " " ++ Line.rest withVatLine)
                = false) by (vm_compute; reflexivity).
  assert (Hrate : num_le (num_div (Fin (Settings.vatRate sampleSettings)) (Fin 100)) (Fin 0)
                  = false) by (vm_compute; reflexivity).
  assert (Hbuilt : enrichLineWithAI sampleToday contraryAnswer withVatLine sampleSettings
                   = Ok (Entry.mk income (JStr (js "internet")) (JStr (js "з ПДВ"))
                           sampleToday (js "EUR")
                           (hundredths 83333) (hundredths 16667) (hundredths 100000)
                           (hundredths 16667) (Fin 0)))
    by (vm_compute; reflexivity).
  destruct (with_vat_cue_wins sampleToday contraryAnswer withVatLine sampleSettings _
              Hcue Hno Hrate Hbuilt) as (_ & Hnet & _).
  split; [exact Hcue|]. split; [exact Hno|]. split; [exact Hrate|].
  split; [exact Hbuilt|]. symmetry. exact Hnet.
Defined.

Lemma entry_vat_buckets_witness :
  enrichLineWithAI sampleToday Unparseable marchLine sampleSettings = Ok marchEntry /\
  Entry.type marchEntry = Line.type marchLine /\
  Entry.vat_collected marchEntry = Fin 0 /\
  Entry.vat_deductible marchEntry = Entry.vat marchEntry.
Proof.
  assert (Hbuilt : enrichLineWithAI sampleToday Unparseable marchLine sampleSettings
                   = Ok marchEntry) by (vm_compute; reflexivity).
  split; [exact Hbuilt|].
  exact (entry_vat_buckets sampleToday Unparseable marchLine sampleSettings marchEntry Hbuilt).
Defined.

Lemma entry_text_fallbacks_witness :
  enrichLineWithAI sampleToday Unparseable withVatLine sampleSettings = Ok withVatEntry /\
  truthy (Entry.category withVatEntry) = true /\
  Entry.category withVatEntry = JStr (js "other") /\
  Entry.description withVatEntry = JStr (Line.rest withVatLine).
Proof.
  assert (Hbuilt : enrichLineWithAI sampleToday Unparseable withVatLine sampleSettings
                   = Ok withVatEntry) by (vm_compute; reflexivity).
  destruct (entry_text_fallbacks sampleToday Unparseable withVatLine sampleSettings
              withVatEntry Hbuilt) as [Hcat Hfall].
  split; [exact Hbuilt|]. split; [exact Hcat|]. exact (Hfall (or_introl eq_refl)).
Defined.

Lemma tokenizer_record_shape_witness :
  quickLine (js "-50 eur 03.03.2025") = Some marchLine /\
  Line.raw marchLine = js "-50 eur 03.03.2025" /\
  (Line.type marchLine = expense <-> head (js "-50 eur 03.03.2025") = Some 45) /\
  trim (Line.rest marchLine) = Line.rest marchLine.
Proof.
  assert (H : quickLine (js "-50 eur 03.03.2025") = Some marchLine)
    by (vm_compute; reflexivity).
  destruct (tokenizer_record_shape (js "-50 eur 03.03.2025") marchLine H)
    as (Hraw & _ & Hexp & _ & _ & Hrest).
  split; [exact H|]. split; [exact Hraw|]. split; [exact Hexp | exact Hrest].
Defined.

Lemma totals_exact_on_built_ledger_witness :
  Forall smallEntry [marchEntry; withVatEntry] /\
  (length [marchEntry; withVatEntry] <= 1000)%nat /\
  let t := totals [marchEntry; withVatEntry] in
  Totals.profitGross t = hundredths 95000 /\
  Totals.vatDue t = hundredths 15834 /\
  Totals.netAfterVAT t = hundredths 79166.
Proof.
  assert (H : Forall smallEntry [marchEntry; withVatEntry]).
  { constructor.
    - exists sampleToday, Unparseable, marchLine, sampleSettings.
      repeat split; vm_compute; (reflexivity || discriminate).
    - constructor; [|constructor].
      exists sampleToday, Unparseable, withVatLine, sampleSettings.
      repeat split; vm_compute; (reflexivity || discriminate). }
  assert (Hlen : (length [marchEntry; withVatEntry] <= 1000)%nat) by (simpl; lia).
  split; [exact H|]. split; [exact Hlen|].
  destruct (totals_exact_on_built_ledger [marchEntry; withVatEntry] H Hlen)
    as (_ & Hp & Hv & Hn).
  split; [exact Hp|]. split; [exact Hv | exact Hn].
Defined.

Lemma totals_of_appended_witness :
  Forall smallEntry ([marchEntry] ++ [withVatEntry]) /\
  (length ([marchEntry] ++ [withVatEntry]) <= 1000)%nat /\
  exists P1 V1 P2 V2 : Z,
    Totals.profitGross (totals [marchEntry]) = hundredths P1 /\
    Totals.vatDue (totals [marchEntry]) = hundredths V1 /\
    Totals.netAfterVAT (totals [marchEntry]) = hundredths (P1 - V1) /\
    Totals.profitGross (totals [withVatEntry]) = hundredths P2 /\
    Totals.vatDue (totals [withVatEntry]) = hundredths V2 /\
    Totals.netAfterVAT (totals [withVatEntry]) = hundredths (P2 - V2) /\
    Totals.profitGross (totals ([marchEntry] ++ [withVatEntry])) = hundredths (P1 + P2) /\
    Totals.vatDue (totals ([marchEntry] ++ [withVatEntry])) = hundredths (V1 + V2) /\
    Totals.netAfterVAT (totals ([marchEntry] ++ [withVatEntry]))
      = hundredths ((P1 + P2) - (V1 + V2)).
Proof.
  assert (H : Forall smallEntry ([marchEntry] ++ [withVatEntry])).
  { constructor.
    - exists sampleToday, Unparseable, marchLine, sampleSettings.
      repeat split; vm_compute; (reflexivity || discriminate).
    - constructor; [|constructor].
      exists sampleToday, Unparseable, withVatLine, sampleSettings.
      repeat split; vm_compute; (reflexivity || discriminate). }
  assert (Hlen : (length ([marchEntry] ++ [withVatEntry]) <= 1000)%nat) by (simpl; lia).
  split; [exact H|]. split; [exact Hlen|].
  exact (totals_of_appended [marchEntry] [withVatEntry] H Hlen).
Defined.

Lemma month_within_year_witness :
  length (js "2025") = 4%nat /\
  vatTotalsMonth [marchEntry; withVatEntry] (js "2025" ++ dash :: js "03")
  = vatTotalsMonth
      (List.filter (fun e => jsstring_eqb (yearOf (Entry.date e)) (js "2025"))
                   [marchEntry; withVatEntry])
      (js "2025" ++ dash :: js "03").
Proof.
  assert (H : length (js "2025") = 4%nat) by reflexivity.
  split; [exact H|].
  exact (month_within_year [marchEntry; withVatEntry] (js "2025") (js "03") H).
Defined.

Lemma ingest_appends_in_order_witness :
  isCommand (trim (js "+1000 eur з ПДВ")) = false /\
  quickLines (trim (js "+1000 eur з ПДВ")) <> [] /\
  (forall i, (i < length (quickLines (trim (js "+1000 eur з ПДВ"))))%nat ->
             answered (classifier answeringEnv i)) /\
  exists added,
    webhook answeringEnv marchStore (Some (Message.mk 7 (Some (js "+1000 eur з ПДВ"))))
    = (<[7 := State.mk (State.entries (fst (getState 7 marchStore)) ++ added)
                       (State.settings (fst (getState 7 marchStore)))]>
         (snd (getState 7 marchStore)),
       Some (Added added (currentMonth answeringEnv) (currentYear answeringEnv)
               (vatTotalsMonth (State.entries (fst (getState 7 marchStore)) ++ added)
                               (currentMonth answeringEnv))
               (vatTotalsYear (State.entries (fst (getState 7 marchStore)) ++ added)
                              (currentYear answeringEnv)))) /\
    length added = length (quickLines (trim (js "+1000 eur з ПДВ"))) /\
    (forall i line e,
       quickLines (trim (js "+1000 eur з ПДВ")) !! i = Some line -> added !! i = Some e ->
       builtAt answeringEnv (State.settings (fst (getState 7 marchStore))) i line e) /\
    List.map Entry.type added
    = List.map Line.type (quickLines (trim (js "+1000 eur з ПДВ"))) /\
    Forall (builtWith (State.settings (fst (getState 7 marchStore)))) added.
Proof.
  assert (Hcmd : isCommand (trim (js "+1000 eur з ПДВ")) = false)
    by (vm_compute; reflexivity).
  assert (Hlines : quickLines (trim (js "+1000 eur з ПДВ")) <> [])
    by (vm_compute; discriminate).
  assert (Hall : forall i, (i < length (quickLines (trim (js "+1000 eur з ПДВ"))))%nat ->
                           answered (classifier answeringEnv i))
    by (intros i _; exact I).
  split; [exact Hcmd|]. split; [exact Hlines|]. split; [exact Hall|].
  exact (ingest_appends_in_order answeringEnv marchStore 7 (js "+1000 eur з ПДВ")
           Hcmd Hlines Hall).
Defined.

Lemma vatmonth_query_witness :
  trim (default [] (Message.text (Message.mk 7 (Some (js "/vatmonth 2025-03")))))
  = js "/vatmonth" ++ js " 2025-03" /\
  exists key,
    webhook answeringEnv marchStore (Some (Message.mk 7 (Some (js "/vatmonth 2025-03"))))
    = (snd (getState 7 marchStore),
       Some (VatMonth key
               (Totals.vatDue
                  (vatTotalsMonth (State.entries (fst (getState 7 marchStore))) key)))) /\
    (monthArgument (js " 2025-03") key \/
     ((forall k, ~ monthArgument (js " 2025-03") k) /\ key = currentMonth answeringEnv)).
Proof.
  assert (H : trim (default [] (Message.text (Message.mk 7 (Some (js "/vatmonth 2025-03")))))
              = js "/vatmonth" ++ js " 2025-03") by (vm_compute; reflexivity).
  split; [exact H|].
  exact (vatmonth_query answeringEnv marchStore
           (Message.mk 7 (Some (js "/vatmonth 2025-03"))) (js " 2025-03") H).
Defined.

Lemma vatyear_query_witness :
  trim (default [] (Message.text (Message.mk 7 (Some (js "/vatyear 25")))))
  = js "/vatyear" ++ js " 25" /\
  exists key,
    webhook answeringEnv marchStore (Some (Message.mk 7 (Some (js "/vatyear 25"))))
    = (snd (getState 7 marchStore),
       Some (VatYear key
               (Totals.vatDue
                  (vatTotalsYear (State.entries (fst (getState 7 marchStore))) key)))) /\
    (yearArgument (js " 25") key \/
     ((forall k, ~ yearArgument (js " 25") k) /\ key = currentYear answeringEnv)).
Proof.
  assert (H : trim (default [] (Message.text (Message.mk 7 (Some (js "/vatyear 25")))))
              = js "/vatyear" ++ js " 25") by (vm_compute; reflexivity).
  split; [exact H|].
  exact (vatyear_query answeringEnv marchStore
           (Message.mk 7 (Some (js "/vatyear 25"))) (js " 25") H).
Defined.

Lemma current_month_in_current_year_witness :
  0 <= nowMonth answeringEnv <= 11 /\
  In (currentMonth answeringEnv) (monthKeys (currentYear answeringEnv)).
Proof.
  assert (H : 0 <= nowMonth answeringEnv <= 11) by (cbn; lia).
  split; [exact H|].
  exact (current_month_in_current_year answeringEnv H).
Defined.

End FurtherSamples.
